(** * Wobbly: the project aggregate of [src/shared/WobblyProject.cpp]

    A shallow embedding of the editing core of Wobbly (the [WobblyProject]
    class) and the properties of it that the specification states.

    Conventions of the embedding.
    - A C++ [int] is a [Z]; [/] and [%] are the truncating [Z.quot] and
      [Z.rem], as in C++.  Frame numbers stay within the number of frames of
      the clip; the one sum that can outgrow an [int], the [mic_dev] of the
      pattern guesser, is undefined when it does ([int_add]).
    - [std::vector<T>] is a [list T]; an index outside the vector is
      undefined behaviour and is the outcome [Undefined].
    - [std::string] is a [string], a [char] is an [ascii].
    - [std::map], [std::set] and the Qt models that wrap them are [gmap] and
      [gset]; an ordered lookup ([upper_bound]) is written out.
    - a method of [WobblyProject] is a function in the monad [M]: it takes
      the project and either returns a value and the project, throws a
      [WobblyException] leaving the project as it was at the [throw], or is
      undefined. *)

From Stdlib Require Import ZArith Ascii String List Lia Bool.
From Stdlib Require Import Floats.SpecFloat.
From stdpp Require Import base option gmap strings list fin_maps fin_sets numbers
  sorting.

#[global] Set Warnings "-clear-no-such-hyp".

Local Open Scope Z_scope.

(** ** Exceptions and the method monad *)

(** The source has one exception class, [WobblyException], which carries a
    message.  The constructors name the messages: each [throw] of the source
    is mapped to the constructor its message belongs to. *)
Inductive WobblyException : Type :=
| OutOfRange          (* "... out of range." *)
| InvalidMatchChar    (* "... is not a valid match character." *)
| NoSuchPreset        (* "... no such preset." *)
| NoSuchSection       (* "... no such section." *)
| NameInUse           (* "... already in use." / "... already exists." *)
| InvalidName         (* "... name is invalid. ..." *)
| InvalidPosition     (* "... invalid position." *)
| NoMics              (* "... there are no mics in the project." *)
| ConversionFailed    (* "Failed to convert frame number ..." *)
| ParseError.         (* readProject: "... must be a ..." *)

#[global] Instance WobblyException_eq_dec : EqDecision WobblyException.
Proof. solve_decision. Defined.

Inductive Res (St A : Type) : Type :=
| Ok (a : A) (s : St)
| Raise (e : WobblyException) (s : St)
| Undefined.

Arguments Ok {St A} a s.
Arguments Raise {St A} e s.
Arguments Undefined {St A}.

Definition M (St A : Type) : Type := St -> Res St A.

Definition ret {St A} (a : A) : M St A := fun s => Ok a s.

Definition bind {St A B} (m : M St A) (k : A -> M St B) : M St B :=
  fun s =>
    match m s with
    | Ok a s' => k a s'
    | Raise e s' => Raise e s'
    | Undefined => Undefined
    end.

Definition throw {St A} (e : WobblyException) : M St A := fun s => Raise e s.

Definition undefined {St A} : M St A := fun _ => Undefined.

Definition gets {St A} (f : St -> A) : M St A := fun s => Ok (f s) s.

Definition modify {St} (f : St -> St) : M St unit := fun s => Ok tt (f s).

Declare Scope wobbly_scope.
Delimit Scope wobbly_scope with wobbly.

Notation "'let*' x ':=' m 'in' k" := (bind m (fun x => k))
  (at level 10, x name, m at level 100, k at level 200,
   format "'[v' 'let*'  x  ':='  m  'in' '/' k ']'") : wobbly_scope.
Notation "'let*' ' pat ':=' m 'in' k" :=
  (bind m (fun x => match x with pat => k end))
  (at level 10, pat pattern, m at level 100, k at level 200,
   format "'[v' 'let*'  ' pat  ':='  m  'in' '/' k ']'") : wobbly_scope.
Notation "'do*' m 'in' k" := (bind m (fun _ => k))
  (at level 10, m at level 100, k at level 200,
   format "'[v' 'do*'  m  'in' '/' k ']'") : wobbly_scope.

Local Open Scope wobbly_scope.

(** [if (c) throw WobblyException(...)]. *)
Definition throw_if {St} (c : bool) (e : WobblyException) : M St unit :=
  if c then throw e else ret tt.

(** [for (x : xs) body(x)], the body run for its effect. *)
Fixpoint for_each {St A} (xs : list A) (body : A -> M St unit) : M St unit :=
  match xs with
  | [] => ret tt
  | x :: xs' => do* body x in for_each xs' body
  end.

(** A loop that carries local variables [acc] from one iteration to the
    next. *)
Fixpoint for_fold {St A B} (xs : list A) (acc : B) (body : B -> A -> M St B)
  : M St B :=
  match xs with
  | [] => ret acc
  | x :: xs' => let* acc' := body acc x in for_fold xs' acc' body
  end.

(** The values of [i] in [for (int i = lo; i < hi; i++)]. *)
Definition range (lo hi : Z) : list Z := seqZ lo (hi - lo).

(** [v[i]] on a vector: undefined outside it. *)
Definition vec_at {A} (v : list A) (i : Z) : option A :=
  if decide (0 <= i) then v !! Z.to_nat i else None.

(** [v[i] = x]. *)
Definition vec_set {A} (v : list A) (i : Z) (x : A) : option (list A) :=
  if decide (0 <= i < Z.of_nat (length v)) then Some (<[Z.to_nat i := x]> v)
  else None.

(** [v.size()]. *)
Definition vsize {A} (v : list A) : Z := Z.of_nat (length v).

(** [v.resize(n, x)] on a vector. *)
Definition vec_resize {A} (v : list A) (n : Z) (x : A) : list A :=
  take (Z.to_nat n) v ++ replicate (Z.to_nat n - length v)%nat x.

Definition of_option {St A} (o : option A) : M St A :=
  match o with
  | Some a => ret a
  | None => undefined
  end.

(** ** The types of [WobblyTypes.h] *)

Record FreezeFrame : Type := mkFreezeFrame {
  ff_first : Z;
  ff_last : Z;
  ff_replacement : Z
}.

Record Preset : Type := mkPreset {
  preset_name : string;
  preset_contents : string
}.

(** [struct Section]. *)
Record SectionRec : Type := mkSection {
  sec_start : Z;
  sec_presets : list string
}.

Record FrameRange : Type := mkFrameRange {
  fr_first : Z;
  fr_last : Z
}.

(** [struct CustomList].  In [WobblyProject.cpp] the field [ranges] is a
    [std::shared_ptr<FrameRangesModel>]; [commit] and [restoreState] replace
    the pointer of every list they copy by a fresh model with the same
    entries, so a list of the project never shares its ranges with a list of
    an undo step, and the ranges are a value here. *)
Record CustomList : Type := mkCustomList {
  cl_name : string;
  cl_preset : string;
  cl_position : Z;
  cl_ranges : gmap Z FrameRange
}.

Inductive PositionInFilterChain : Type :=
| PostSource | PostFieldMatch | PostDecimate.

Definition UseThirdNMatchAlways : Z := 0.
Definition UseThirdNMatchNever : Z := 1.
Definition UseThirdNMatchIfPrettier : Z := 2.

Definition DropFirstDuplicate : Z := 0.
Definition DropSecondDuplicate : Z := 1.
Definition DropUglierDuplicatePerCycle : Z := 2.
Definition DropUglierDuplicatePerSection : Z := 3.

Definition PatternCCCNN : Z := 1.
Definition PatternCCNNN : Z := 2.
Definition PatternCCCCC : Z := 4.

Record FailedPatternGuessing : Type := mkFailedPatternGuessing {
  fpg_start : Z;
  fpg_reason : Z
}.

Definition SectionTooShort : Z := 0.
Definition AmbiguousMatchPattern : Z := 1.

Definition PatternGuessingFromMatches : Z := 0.
Definition PatternGuessingFromMics : Z := 1.

Record PatternGuessing : Type := mkPatternGuessing {
  pg_method : Z;
  pg_minimum_length : Z;
  pg_third_n_match : Z;
  pg_decimation : Z;
  pg_use_patterns : Z;
  pg_failures : gmap Z FailedPatternGuessing
}.

Record Bookmark : Type := mkBookmark {
  bm_frame : Z;
  bm_description : string
}.

(** [std::array<int16_t, 5>], indexed by [matchCharToIndex]. *)
Record MicArray : Type := mkMics {
  mic_p : Z;
  mic_c : Z;
  mic_n : Z;
  mic_b : Z;
  mic_u : Z
}.

(** C++ [double]: a binary64 number. *)
Definition double : Type := spec_float.

(** ** The project *)

(** What [commit] saves of the project. *)
Record UndoStep : Type := mkUndoStep {
  us_description : string;
  us_matches : list ascii;
  us_decimated_frames : list (gset Z);
  us_pattern_guessing : PatternGuessing;
  us_presets : gmap string Preset;
  us_custom_lists : list CustomList;
  us_combed_frames : gset Z;
  us_frozen_frames : gmap Z FreezeFrame;
  us_sections : gmap Z SectionRec;
  us_bookmarks : gmap Z Bookmark
}.

(** The fields of [WobblyProject] that the functions below read or write.
    [num_frames_source] and [num_frames_decimated] are [num_frames[0]] and
    [num_frames[1]]. *)
Record WobblyProject : Type := mkProject {
  num_frames_source : Z;
  num_frames_decimated : Z;
  is_modified : bool;
  vfm_parameters_int : gmap string Z;
  vfm_parameters_double : gmap string double;
  vfm_parameters_bool : gmap string bool;
  vdecimate_parameters_int : gmap string Z;
  vdecimate_parameters_double : gmap string double;
  vdecimate_parameters_bool : gmap string bool;
  mics : list MicArray;
  matches : list ascii;
  original_matches : list ascii;
  decimated_frames : list (gset Z);
  pattern_guessing : PatternGuessing;
  presets : gmap string Preset;
  custom_lists : list CustomList;
  combed_frames : gset Z;
  frozen_frames : gmap Z FreezeFrame;
  sections : gmap Z SectionRec;
  bookmarks : gmap Z Bookmark;
  undo_stack : list UndoStep;
  redo_stack : list UndoStep;
  undo_steps : nat
}.

Definition Meth (A : Type) : Type := M WobblyProject A.

(** Assignments to one field of the project. *)

Definition set_num_frames_source (v : Z) (p : WobblyProject) : WobblyProject :=
  mkProject v (num_frames_decimated p) (is_modified p) (vfm_parameters_int p)
    (vfm_parameters_double p) (vfm_parameters_bool p)
    (vdecimate_parameters_int p) (vdecimate_parameters_double p)
    (vdecimate_parameters_bool p) (mics p) (matches p) (original_matches p)
    (decimated_frames p) (pattern_guessing p) (presets p) (custom_lists p)
    (combed_frames p) (frozen_frames p) (sections p) (bookmarks p)
    (undo_stack p) (redo_stack p) (undo_steps p).

Definition set_num_frames_decimated (v : Z) (p : WobblyProject) : WobblyProject :=
  mkProject (num_frames_source p) v (is_modified p) (vfm_parameters_int p)
    (vfm_parameters_double p) (vfm_parameters_bool p)
    (vdecimate_parameters_int p) (vdecimate_parameters_double p)
    (vdecimate_parameters_bool p) (mics p) (matches p) (original_matches p)
    (decimated_frames p) (pattern_guessing p) (presets p) (custom_lists p)
    (combed_frames p) (frozen_frames p) (sections p) (bookmarks p)
    (undo_stack p) (redo_stack p) (undo_steps p).

Definition set_is_modified (v : bool) (p : WobblyProject) : WobblyProject :=
  mkProject (num_frames_source p) (num_frames_decimated p) v
    (vfm_parameters_int p) (vfm_parameters_double p) (vfm_parameters_bool p)
    (vdecimate_parameters_int p) (vdecimate_parameters_double p)
    (vdecimate_parameters_bool p) (mics p) (matches p) (original_matches p)
    (decimated_frames p) (pattern_guessing p) (presets p) (custom_lists p)
    (combed_frames p) (frozen_frames p) (sections p) (bookmarks p)
    (undo_stack p) (redo_stack p) (undo_steps p).







Definition set_mics (v : list MicArray) (p : WobblyProject) : WobblyProject :=
  mkProject (num_frames_source p) (num_frames_decimated p) (is_modified p)
    (vfm_parameters_int p) (vfm_parameters_double p) (vfm_parameters_bool p)
    (vdecimate_parameters_int p) (vdecimate_parameters_double p)
    (vdecimate_parameters_bool p) v (matches p) (original_matches p)
    (decimated_frames p) (pattern_guessing p) (presets p) (custom_lists p)
    (combed_frames p) (frozen_frames p) (sections p) (bookmarks p)
    (undo_stack p) (redo_stack p) (undo_steps p).

Definition set_matches (v : list ascii) (p : WobblyProject) : WobblyProject :=
  mkProject (num_frames_source p) (num_frames_decimated p) (is_modified p)
    (vfm_parameters_int p) (vfm_parameters_double p) (vfm_parameters_bool p)
    (vdecimate_parameters_int p) (vdecimate_parameters_double p)
    (vdecimate_parameters_bool p) (mics p) v (original_matches p)
    (decimated_frames p) (pattern_guessing p) (presets p) (custom_lists p)
    (combed_frames p) (frozen_frames p) (sections p) (bookmarks p)
    (undo_stack p) (redo_stack p) (undo_steps p).

Definition set_original_matches (v : list ascii) (p : WobblyProject) : WobblyProject :=
  mkProject (num_frames_source p) (num_frames_decimated p) (is_modified p)
    (vfm_parameters_int p) (vfm_parameters_double p) (vfm_parameters_bool p)
    (vdecimate_parameters_int p) (vdecimate_parameters_double p)
    (vdecimate_parameters_bool p) (mics p) (matches p) v (decimated_frames p)
    (pattern_guessing p) (presets p) (custom_lists p) (combed_frames p)
    (frozen_frames p) (sections p) (bookmarks p) (undo_stack p) (redo_stack p)
    (undo_steps p).

Definition set_decimated_frames (v : list (gset Z)) (p : WobblyProject) : WobblyProject :=
  mkProject (num_frames_source p) (num_frames_decimated p) (is_modified p)
    (vfm_parameters_int p) (vfm_parameters_double p) (vfm_parameters_bool p)
    (vdecimate_parameters_int p) (vdecimate_parameters_double p)
    (vdecimate_parameters_bool p) (mics p) (matches p) (original_matches p) v
    (pattern_guessing p) (presets p) (custom_lists p) (combed_frames p)
    (frozen_frames p) (sections p) (bookmarks p) (undo_stack p) (redo_stack p)
    (undo_steps p).

Definition set_pattern_guessing (v : PatternGuessing) (p : WobblyProject) : WobblyProject :=
  mkProject (num_frames_source p) (num_frames_decimated p) (is_modified p)
    (vfm_parameters_int p) (vfm_parameters_double p) (vfm_parameters_bool p)
    (vdecimate_parameters_int p) (vdecimate_parameters_double p)
    (vdecimate_parameters_bool p) (mics p) (matches p) (original_matches p)
    (decimated_frames p) v (presets p) (custom_lists p) (combed_frames p)
    (frozen_frames p) (sections p) (bookmarks p) (undo_stack p) (redo_stack p)
    (undo_steps p).

Definition set_presets (v : gmap string Preset) (p : WobblyProject) : WobblyProject :=
  mkProject (num_frames_source p) (num_frames_decimated p) (is_modified p)
    (vfm_parameters_int p) (vfm_parameters_double p) (vfm_parameters_bool p)
    (vdecimate_parameters_int p) (vdecimate_parameters_double p)
    (vdecimate_parameters_bool p) (mics p) (matches p) (original_matches p)
    (decimated_frames p) (pattern_guessing p) v (custom_lists p)
    (combed_frames p) (frozen_frames p) (sections p) (bookmarks p)
    (undo_stack p) (redo_stack p) (undo_steps p).

Definition set_custom_lists (v : list CustomList) (p : WobblyProject) : WobblyProject :=
  mkProject (num_frames_source p) (num_frames_decimated p) (is_modified p)
    (vfm_parameters_int p) (vfm_parameters_double p) (vfm_parameters_bool p)
    (vdecimate_parameters_int p) (vdecimate_parameters_double p)
    (vdecimate_parameters_bool p) (mics p) (matches p) (original_matches p)
    (decimated_frames p) (pattern_guessing p) (presets p) v (combed_frames p)
    (frozen_frames p) (sections p) (bookmarks p) (undo_stack p) (redo_stack p)
    (undo_steps p).

Definition set_combed_frames (v : gset Z) (p : WobblyProject) : WobblyProject :=
  mkProject (num_frames_source p) (num_frames_decimated p) (is_modified p)
    (vfm_parameters_int p) (vfm_parameters_double p) (vfm_parameters_bool p)
    (vdecimate_parameters_int p) (vdecimate_parameters_double p)
    (vdecimate_parameters_bool p) (mics p) (matches p) (original_matches p)
    (decimated_frames p) (pattern_guessing p) (presets p) (custom_lists p) v
    (frozen_frames p) (sections p) (bookmarks p) (undo_stack p) (redo_stack p)
    (undo_steps p).

Definition set_frozen_frames (v : gmap Z FreezeFrame) (p : WobblyProject) : WobblyProject :=
  mkProject (num_frames_source p) (num_frames_decimated p) (is_modified p)
    (vfm_parameters_int p) (vfm_parameters_double p) (vfm_parameters_bool p)
    (vdecimate_parameters_int p) (vdecimate_parameters_double p)
    (vdecimate_parameters_bool p) (mics p) (matches p) (original_matches p)
    (decimated_frames p) (pattern_guessing p) (presets p) (custom_lists p)
    (combed_frames p) v (sections p) (bookmarks p) (undo_stack p)
    (redo_stack p) (undo_steps p).

Definition set_sections (v : gmap Z SectionRec) (p : WobblyProject) : WobblyProject :=
  mkProject (num_frames_source p) (num_frames_decimated p) (is_modified p)
    (vfm_parameters_int p) (vfm_parameters_double p) (vfm_parameters_bool p)
    (vdecimate_parameters_int p) (vdecimate_parameters_double p)
    (vdecimate_parameters_bool p) (mics p) (matches p) (original_matches p)
    (decimated_frames p) (pattern_guessing p) (presets p) (custom_lists p)
    (combed_frames p) (frozen_frames p) v (bookmarks p) (undo_stack p)
    (redo_stack p) (undo_steps p).

Definition set_bookmarks (v : gmap Z Bookmark) (p : WobblyProject) : WobblyProject :=
  mkProject (num_frames_source p) (num_frames_decimated p) (is_modified p)
    (vfm_parameters_int p) (vfm_parameters_double p) (vfm_parameters_bool p)
    (vdecimate_parameters_int p) (vdecimate_parameters_double p)
    (vdecimate_parameters_bool p) (mics p) (matches p) (original_matches p)
    (decimated_frames p) (pattern_guessing p) (presets p) (custom_lists p)
    (combed_frames p) (frozen_frames p) (sections p) v (undo_stack p)
    (redo_stack p) (undo_steps p).

Definition set_undo_stack (v : list UndoStep) (p : WobblyProject) : WobblyProject :=
  mkProject (num_frames_source p) (num_frames_decimated p) (is_modified p)
    (vfm_parameters_int p) (vfm_parameters_double p) (vfm_parameters_bool p)
    (vdecimate_parameters_int p) (vdecimate_parameters_double p)
    (vdecimate_parameters_bool p) (mics p) (matches p) (original_matches p)
    (decimated_frames p) (pattern_guessing p) (presets p) (custom_lists p)
    (combed_frames p) (frozen_frames p) (sections p) (bookmarks p) v
    (redo_stack p) (undo_steps p).

Definition set_redo_stack (v : list UndoStep) (p : WobblyProject) : WobblyProject :=
  mkProject (num_frames_source p) (num_frames_decimated p) (is_modified p)
    (vfm_parameters_int p) (vfm_parameters_double p) (vfm_parameters_bool p)
    (vdecimate_parameters_int p) (vdecimate_parameters_double p)
    (vdecimate_parameters_bool p) (mics p) (matches p) (original_matches p)
    (decimated_frames p) (pattern_guessing p) (presets p) (custom_lists p)
    (combed_frames p) (frozen_frames p) (sections p) (bookmarks p)
    (undo_stack p) v (undo_steps p).

Definition set_undo_steps (v : nat) (p : WobblyProject) : WobblyProject :=
  mkProject (num_frames_source p) (num_frames_decimated p) (is_modified p)
    (vfm_parameters_int p) (vfm_parameters_double p) (vfm_parameters_bool p)
    (vdecimate_parameters_int p) (vdecimate_parameters_double p)
    (vdecimate_parameters_bool p) (mics p) (matches p) (original_matches p)
    (decimated_frames p) (pattern_guessing p) (presets p) (custom_lists p)
    (combed_frames p) (frozen_frames p) (sections p) (bookmarks p)
    (undo_stack p) (redo_stack p) v.

(** ** Construction and the frame counters *)

(** [WobblyProject::getNumFrames]. *)
Definition getNumFrames (position : PositionInFilterChain) : Meth Z :=
  match position with
  | PostSource => gets num_frames_source
  | PostDecimate => gets num_frames_decimated
  | PostFieldMatch => throw InvalidPosition
  end.

(** [WobblyProject::setNumFrames]. *)
Definition setNumFrames (position : PositionInFilterChain) (frames : Z)
  : Meth unit :=
  match position with
  | PostSource => modify (set_num_frames_source frames)
  | PostDecimate => modify (set_num_frames_decimated frames)
  | PostFieldMatch => throw InvalidPosition
  end.

(** [WobblyProject::setModified]; the signal it emits has no listener in the
    project itself. *)
Definition setModified (modified : bool) : Meth unit :=
  fun p =>
    if bool_decide (modified ≠ is_modified p)
    then Ok tt (set_is_modified modified p)
    else Ok tt p.

(** [frame < 0 || frame >= getNumFrames(PostSource)], the test that opens
    most methods. *)
Definition frame_out_of_range (frame : Z) : Meth bool :=
  let* n := getNumFrames PostSource in
  ret (bool_decide (frame < 0 ∨ frame >= n)).

Definition check_frame (frame : Z) : Meth unit :=
  let* bad := frame_out_of_range frame in
  throw_if bad OutOfRange.

(** The pattern guessing settings of a new project. *)
Definition default_pattern_guessing : PatternGuessing :=
  mkPatternGuessing PatternGuessingFromMics 10 UseThirdNMatchNever
    DropFirstDuplicate
    (Z.lor PatternCCCNN (Z.lor PatternCCNNN PatternCCCCC)) ∅.

(** The second constructor of [WobblyProject], for a clip of [_num_frames]
    frames: no matches and no metrics yet, one empty set of dropped offsets
    per cycle, and the section that starts at frame 0.  The constructor
    throws out of [addSection(0)] when [_num_frames] is not positive, hence
    the type of the argument.  [steps] is the value of [undo_steps]. *)
Definition new_project (_num_frames : positive) (steps : nat) : WobblyProject :=
  mkProject (Z.pos _num_frames) (Z.pos _num_frames) false
    {[ "order"%string := 1 ]} ∅ ∅ ∅ ∅ ∅
    [] [] []
    (vec_resize [] ((Z.pos _num_frames - 1) `quot` 5 + 1) ∅)
    default_pattern_guessing
    ∅ [] ∅ ∅ {[ 0 := mkSection 0 [] ]} ∅ [] [] steps.

(** The first constructor of [WobblyProject], which sets the pattern guessing
    and the models and nothing else; [readProject] is called on such a
    project and sets the frame counters before it reads anything that
    depends on them.  They are 0 here. *)
Definition blank_project (steps : nat) : WobblyProject :=
  mkProject 0 0 false ∅ ∅ ∅ ∅ ∅ ∅ [] [] [] [] default_pattern_guessing
    ∅ [] ∅ ∅ ∅ ∅ [] [] steps.

(** ** Decimated frames *)

(** [decimated_frames[cycle]]. *)
Definition cycle_at (cycle : Z) : Meth (gset Z) :=
  let* df := gets decimated_frames in
  of_option (vec_at df cycle).

(** [decimated_frames[cycle] = s]. *)
Definition set_cycle (cycle : Z) (s : gset Z) : Meth unit :=
  let* df := gets decimated_frames in
  let* df' := of_option (vec_set df cycle s) in
  modify (set_decimated_frames df').

(** [WobblyProject::addDecimatedFrame]. *)
Definition addDecimatedFrame (frame : Z) : Meth unit :=
  do* check_frame frame in
  (* Don't allow decimating all the frames in a cycle. *)
  let* c := cycle_at (frame `quot` 5) in
  if decide (Z.of_nat (size c) = 5 - 1) then ret tt
  else
    let inserted := bool_decide (frame `rem` 5 ∉ c) in
    do* set_cycle (frame `quot` 5) ({[ frame `rem` 5 ]} ∪ c) in
    if inserted then
      let* nd := getNumFrames PostDecimate in
      do* setNumFrames PostDecimate (nd - 1) in
      setModified true
    else ret tt.

(** [WobblyProject::deleteDecimatedFrame]. *)
Definition deleteDecimatedFrame (frame : Z) : Meth unit :=
  do* check_frame frame in
  let* c := cycle_at (frame `quot` 5) in
  let erased := bool_decide (frame `rem` 5 ∈ c) in
  do* set_cycle (frame `quot` 5) (c ∖ {[ frame `rem` 5 ]}) in
  if erased then
    let* nd := getNumFrames PostDecimate in
    do* setNumFrames PostDecimate (nd + 1) in
    setModified true
  else ret tt.

(** [WobblyProject::isDecimatedFrame]. *)
Definition isDecimatedFrame (frame : Z) : Meth bool :=
  do* check_frame frame in
  let* c := cycle_at (frame `quot` 5) in
  ret (bool_decide (frame `rem` 5 ∈ c)).

(** [WobblyProject::clearDecimatedFramesFromCycle]. *)
Definition clearDecimatedFramesFromCycle (frame : Z) : Meth unit :=
  do* check_frame frame in
  let cycle := frame `quot` 5 in
  let* c := cycle_at cycle in
  let new_frames := Z.of_nat (size c) in
  do* set_cycle cycle ∅ in
  let* nd := getNumFrames PostDecimate in
  setNumFrames PostDecimate (nd + new_frames).

(** [pattern[i]] on a [std::string]: the character at [i], the terminating
    zero at [i = pattern.size()], undefined behaviour beyond. *)
Definition string_at (pattern : string) (i : Z) : option ascii :=
  if decide (0 <= i) then
    match String.get (Z.to_nat i) pattern with
    | Some ch => Some ch
    | None =>
        if decide (Z.to_nat i = String.length pattern) then Some zero
        else None
    end
  else None.

(** [WobblyProject::setRangeDecimationFromPattern]. *)
Definition setRangeDecimationFromPattern (range_start range_end : Z)
    (pattern : string) : Meth unit :=
  let '(range_start, range_end) :=
    if decide (range_start > range_end) then (range_end, range_start)
    else (range_start, range_end) in
  let* n := getNumFrames PostSource in
  do* throw_if (bool_decide (range_start < 0 ∨ range_end >= n)) OutOfRange in
  do* for_each (range range_start (range_end + 1)) (fun i =>
        let* ch := of_option (string_at pattern (i `rem` 5)) in
        if decide (ch = "d"%char) then addDecimatedFrame i
        else deleteDecimatedFrame i) in
  setModified true.

(** [WobblyProject::frameNumberAfterDecimation]. *)
Definition frameNumberAfterDecimation (frame : Z) : Meth Z :=
  if decide (frame < 0) then ret 0
  else
    let* n := getNumFrames PostSource in
    if decide (frame >= n) then getNumFrames PostDecimate
    else
      let cycle_number := frame `quot` 5 in
      let position_in_cycle := frame `rem` 5 in
      let out_frame := cycle_number * 5 in
      let* out_frame :=
        for_fold (range 0 cycle_number) out_frame (fun out_frame i =>
          let* c := cycle_at i in
          ret (out_frame - Z.of_nat (size c))) in
      let* out_frame :=
        for_fold (range 0 position_in_cycle) out_frame (fun out_frame i =>
          let* c := cycle_at cycle_number in
          ret (if decide (i ∈ c) then out_frame else out_frame + 1)) in
      if decide (frame = n - 1) then
        let* dropped := isDecimatedFrame frame in
        ret (if dropped then out_frame - 1 else out_frame)
      else ret out_frame.



(** ** Matches *)

(** [WobblyProject::isValidMatchChar]. *)
Definition isValidMatchChar (m : ascii) : bool :=
  bool_decide (m = "p" ∨ m = "c" ∨ m = "n" ∨ m = "b" ∨ m = "u")%char.

(** [WobblyProject::getMatch]. *)
Definition getMatch (frame : Z) : Meth ascii :=
  do* check_frame frame in
  let* ms := gets matches in
  let* oms := gets original_matches in
  if decide (vsize ms ≠ 0) then of_option (vec_at ms frame)
  else if decide (vsize oms ≠ 0) then of_option (vec_at oms frame)
  else ret "c"%char.

(** [WobblyProject::setMatch]. *)
Definition setMatch (frame : Z) (m : ascii) : Meth unit :=
  do* check_frame frame in
  do* throw_if (negb (isValidMatchChar m)) InvalidMatchChar in
  let* n := getNumFrames PostSource in
  let m :=
    if decide (frame = 0) then
      if decide (m = "b"%char) then "n"%char
      else if decide (m = "p"%char) then "u"%char
      else m
    else if decide (frame = n - 1) then
      if decide (m = "n"%char) then "b"%char
      else if decide (m = "u"%char) then "p"%char
      else m
    else m in
  let* ms := gets matches in
  let ms := if decide (vsize ms = 0) then vec_resize ms n "c"%char else ms in
  do* modify (set_matches ms) in
  let* ms' := of_option (vec_set ms frame m) in
  modify (set_matches ms').

(** [WobblyProject::setOriginalMatch]. *)
Definition setOriginalMatch (frame : Z) (m : ascii) : Meth unit :=
  do* check_frame frame in
  do* throw_if (negb (isValidMatchChar m)) InvalidMatchChar in
  let* n := getNumFrames PostSource in
  let* oms := gets original_matches in
  let oms := if decide (vsize oms = 0) then vec_resize oms n "c"%char else oms in
  do* modify (set_original_matches oms) in
  let* oms' := of_option (vec_set oms frame m) in
  modify (set_original_matches oms').

(** [memcpy(dst.data() + start, src.data() + start, len)] on two vectors of
    characters: undefined when either is shorter than [start + len]. *)
Definition vec_copy_range (dst src : list ascii) (start len : Z)
  : option (list ascii) :=
  if decide (0 <= start ∧ 0 <= len ∧ start + len <= vsize dst
             ∧ start + len <= vsize src)
  then Some (take (Z.to_nat start) dst
             ++ take (Z.to_nat len) (drop (Z.to_nat start) src)
             ++ drop (Z.to_nat (start + len)) dst)
  else None.

(** [WobblyProject::resetRangeMatches]. *)
Definition resetRangeMatches (start end_ : Z) : Meth unit :=
  let '(start, end_) :=
    if decide (start > end_) then (end_, start) else (start, end_) in
  let* n := getNumFrames PostSource in
  do* throw_if (bool_decide (start < 0 ∨ end_ >= n)) OutOfRange in
  let* ms := gets matches in
  let ms := if decide (vsize ms = 0) then vec_resize ms n "c"%char else ms in
  do* modify (set_matches ms) in
  let* oms := gets original_matches in
  let src :=
    if decide (vsize oms ≠ 0) then oms
    else replicate (Z.to_nat (end_ + 1)) "c"%char in
  let* ms' := of_option (vec_copy_range ms src start (end_ - start + 1)) in
  do* modify (set_matches ms') in
  setModified true.

(** The body of the loop of [setRangeMatchesFromPattern].  Every path
    through it reads [pattern[i % 5]], so it is read once, first. *)
Definition range_matches_step (range_end : Z) (pattern : string) (i : Z)
  : Meth unit :=
  let* ch := of_option (string_at pattern (i `rem` 5)) in
  let* n := getNumFrames PostSource in
  if decide (i = 0 ∧ (ch = "p" ∨ ch = "b"))%char then ret tt
  else if decide (i = n - 1 ∧ (ch = "n" ∨ ch = "u"))%char then
    if decide (ch = "n"%char) then setMatch i "b"%char else ret tt
  else if decide (i = range_end ∧ ch = "n"%char) then
    setMatch i "b"%char
  else setMatch i ch.

(** [WobblyProject::setRangeMatchesFromPattern]. *)
Definition setRangeMatchesFromPattern (range_start range_end : Z)
    (pattern : string) : Meth unit :=
  let '(range_start, range_end) :=
    if decide (range_start > range_end) then (range_end, range_start)
    else (range_start, range_end) in
  let* n := getNumFrames PostSource in
  do* throw_if (bool_decide (range_start < 0 ∨ range_end >= n)) OutOfRange in
  do* for_each (range range_start (range_end + 1))
        (range_matches_step range_end pattern) in
  setModified true.

(** ** Sections, presets and custom lists *)

(** The keys of an ordered map, in the order a [std::map] iterates. *)
Definition ordered_keys {A} (m : gmap Z A) : list Z :=
  merge_sort Z.le (elements (dom m)).

(** [m.upper_bound(k)]: the entry with the least key greater than [k]. *)
Definition upper_bound {A} (m : gmap Z A) (k : Z) : option (Z * A) :=
  match filter (fun i => k < i) (ordered_keys m) with
  | [] => None
  | i :: _ => (fun a => (i, a)) <$> m !! i
  end.

(** [m.insert(std::make_pair(k, v))]: nothing is inserted when the key is
    there. *)
Definition map_insert_new `{Countable K} {A} (k : K) (v : A) (m : gmap K A)
  : gmap K A :=
  match m !! k with
  | Some _ => m
  | None => <[k := v]> m
  end.

(** [WobblyProject::isNameSafeForPython]: the loop over the characters, [i]
    being the index of the first of [name]. *)
Fixpoint name_chars_safe (i : nat) (name : string) : bool :=
  match name with
  | EmptyString => true
  | String ch rest =>
      let c := Z.of_N (N_of_ascii ch) in
      if bool_decide ((97 <= c <= 122) ∨ (65 <= c <= 90)
                      ∨ (i ≠ 0%nat ∧ 48 <= c <= 57) ∨ c = 95)
      then name_chars_safe (S i) rest
      else false
  end.

Definition isNameSafeForPython (name : string) : bool :=
  name_chars_safe 0 name.

(** [WobblyProject::presetExists]. *)
Definition presetExists (preset_name : string) : Meth bool :=
  let* ps := gets presets in
  ret (bool_decide (is_Some (ps !! preset_name))).

(** [WobblyProject::addPreset(preset_name, preset_contents)]. *)
Definition addPreset (preset_name preset_contents : string) : Meth unit :=
  do* throw_if (negb (isNameSafeForPython preset_name)) InvalidName in
  let* taken := presetExists preset_name in
  do* throw_if taken NameInUse in
  let* ps := gets presets in
  do* modify (set_presets
        (map_insert_new preset_name (mkPreset preset_name preset_contents) ps)) in
  setModified true.

(** [WobblyProject::getPresetContents]. *)
Definition getPresetContents (preset_name : string) : Meth string :=
  let* ps := gets presets in
  match ps !! preset_name with
  | None => throw NoSuchPreset
  | Some preset => ret (preset_contents preset)
  end.

(** Modelled from the spec: [SectionsModel::appendSectionPreset], whose
    source is not part of the files at hand; the spec (4.C) has it append the
    name to the presets of the section, duplicates allowed. *)
Definition appendSectionPreset (section_start : Z) (preset_name : string)
  : Meth unit :=
  let* secs := gets sections in
  match secs !! section_start with
  | None => undefined
  | Some sec =>
      modify (set_sections
        (<[section_start :=
             mkSection (sec_start sec)
               (sec_presets sec ++ [preset_name])]> secs))
  end.

(** Modelled from the spec: [SectionsModel::deleteSectionPreset], whose
    source is not part of the files at hand; the spec (4.C) has it delete the
    entry at [preset_index] from the presets of the section. *)
Definition model_deleteSectionPreset (section_start : Z) (preset_index : Z)
  : Meth unit :=
  let* secs := gets sections in
  match secs !! section_start with
  | None => undefined
  | Some sec =>
      if decide (0 <= preset_index < vsize (sec_presets sec)) then
        modify (set_sections
          (<[section_start :=
               mkSection (sec_start sec)
                 (delete (Z.to_nat preset_index) (sec_presets sec))]> secs))
      else undefined
  end.

(** Modelled from the spec: [SectionsModel::setSectionPresetName], whose
    source is not part of the files at hand; it is what [rename_preset] uses
    to rewrite the entry at [preset_index] of a section (spec 4.D). *)
Definition setSectionPresetName (section_start : Z) (preset_index : Z)
    (preset_name : string) : Meth unit :=
  let* secs := gets sections in
  match secs !! section_start with
  | None => undefined
  | Some sec =>
      match vec_set (sec_presets sec) preset_index preset_name with
      | None => undefined
      | Some l =>
          modify (set_sections
            (<[section_start :=
                 mkSection (sec_start sec) l]> secs))
      end
  end.

(** Modelled from the spec: [CustomListsModel::setCustomListPreset], whose
    source is not part of the files at hand; it sets the preset reference of
    the list at [list_index] (spec 4.D, [delete_preset]: "clears the preset
    reference (leaving an empty reference)"). *)
Definition model_setCustomListPreset (list_index : Z) (preset_name : string)
  : Meth unit :=
  let* cls := gets custom_lists in
  match vec_at cls list_index with
  | None => undefined
  | Some cl =>
      let cl' := mkCustomList (cl_name cl) preset_name (cl_position cl)
                   (cl_ranges cl) in
      let* cls' := of_option (vec_set cls list_index cl') in
      modify (set_custom_lists cls')
  end.

(** [it->second.presets] for the section the iterator [it] is at. *)
Definition presets_of_section (key : Z) : Meth (list string) :=
  let* secs := gets sections in
  match secs !! key with
  | None => undefined
  | Some sec => ret (sec_presets sec)
  end.

(** [it->second.start]. *)
Definition start_of_section (key : Z) : Meth Z :=
  let* secs := gets sections in
  match secs !! key with
  | None => undefined
  | Some sec => ret (sec_start sec)
  end.

(** [for (size_t j = ...; j < it->second.presets.size(); j++) body(j)]: the
    size is read again at every test.  The bodies below never grow the
    vector, so the loop is over once [j] has passed the size the vector had
    on entry; [fuel] is that size minus the first [j]. *)
Fixpoint for_presets_of (fuel : nat) (key : Z) (j : Z)
    (body : Z -> Meth unit) : Meth unit :=
  let* ps := presets_of_section key in
  if decide (j < vsize ps) then
    match fuel with
    | O => undefined
    | S fuel' => do* body j in for_presets_of fuel' key (j + 1) body
    end
  else ret tt.

Definition for_section_presets (key : Z) (body : Z -> Meth unit) : Meth unit :=
  let* ps := presets_of_section key in
  for_presets_of (length ps) key 0 body.

(** [WobblyProject::setSectionPreset]. *)
Definition setSectionPreset (section_start : Z) (preset_name : string)
  : Meth unit :=
  do* check_frame section_start in
  let* secs := gets sections in
  do* throw_if (bool_decide (secs !! section_start = None)) NoSuchSection in
  let* ps := gets presets in
  do* throw_if (bool_decide (ps !! preset_name = None)) NoSuchPreset in
  (* The user may want to assign the same preset twice. *)
  do* appendSectionPreset section_start preset_name in
  setModified true.

(** [WobblyProject::renamePreset]. *)
Definition renamePreset (old_name new_name : string) : Meth unit :=
  if decide (old_name = new_name) then ret tt
  else
    let* ps := gets presets in
    do* throw_if (bool_decide (ps !! old_name = None)) NoSuchPreset in
    do* throw_if (negb (isNameSafeForPython new_name)) InvalidName in
    let* taken := presetExists new_name in
    do* throw_if taken NameInUse in
    let* contents := getPresetContents old_name in
    let preset := mkPreset new_name contents in
    do* modify (set_presets (delete old_name ps)) in
    let* ps := gets presets in
    do* modify (set_presets (map_insert_new new_name preset ps)) in
    let* secs := gets sections in
    do* for_each (ordered_keys secs) (fun key =>
          for_section_presets key (fun j =>
            let* l := presets_of_section key in
            let* name := of_option (vec_at l j) in
            if decide (name = old_name) then
              let* start := start_of_section key in
              setSectionPresetName start j new_name
            else ret tt)) in
    let* cls := gets custom_lists in
    do* for_each (range 0 (vsize cls)) (fun i =>
          let* cls := gets custom_lists in
          let* cl := of_option (vec_at cls i) in
          if decide (cl_preset cl = old_name) then
            model_setCustomListPreset i new_name
          else ret tt) in
    setModified true.

(** [WobblyProject::deletePreset]. *)
Definition deletePreset (preset_name : string) : Meth unit :=
  let* found := presetExists preset_name in
  do* throw_if (negb found) NoSuchPreset in
  let* ps := gets presets in
  do* modify (set_presets (delete preset_name ps)) in
  let* secs := gets sections in
  do* for_each (ordered_keys secs) (fun key =>
        for_section_presets key (fun j =>
          let* l := presets_of_section key in
          let* name := of_option (vec_at l j) in
          if decide (name = preset_name) then
            let* start := start_of_section key in
            model_deleteSectionPreset start j
          else ret tt)) in
  let* cls := gets custom_lists in
  do* for_each (range 0 (vsize cls)) (fun i =>
        let* cls := gets custom_lists in
        let* cl := of_option (vec_at cls i) in
        if decide (cl_preset cl = preset_name) then
          model_setCustomListPreset i EmptyString
        else ret tt) in
  setModified true.

(** [WobblyProject::isPresetInUse]. *)
Definition isPresetInUse (preset_name : string) : Meth bool :=
  let* ps := gets presets in
  do* throw_if (bool_decide (ps !! preset_name = None)) NoSuchPreset in
  let* secs := gets sections in
  let* cls := gets custom_lists in
  if bool_decide (Exists (fun sec => preset_name ∈ sec_presets sec)
                    (map_to_list secs).*2) then ret true
  else if bool_decide (preset_name ∈ cl_preset <$> cls) then ret true
  else ret false.

(** ** Undo and redo *)

(** [model->clear(); for (auto const &e : saved) model->insert(e);] on a
    map: the entries of [saved] inserted one by one into the emptied map.
    Their keys differ, so that the order they go in is of no account. *)
Definition refill_map `{Countable K} {A} (saved : gmap K A) : gmap K A :=
  foldl (fun m kv => map_insert_new kv.1 kv.2 m) ∅ (map_to_list saved).

(** The same on a set. *)
Definition refill_set (saved : gset Z) : gset Z :=
  foldl (fun s x => {[ x ]} ∪ s) ∅ (elements saved).

(** A custom list with a model of its own for the ranges, filled with the
    ranges of [c]. *)
Definition copy_ranges (c : CustomList) : CustomList :=
  mkCustomList (cl_name c) (cl_preset c) (cl_position c)
    (refill_map (cl_ranges c)).

(** [WobblyProject::restoreState]. *)
Definition restoreState (state : UndoStep) : Meth unit :=
  do* modify (set_matches (us_matches state)) in
  do* modify (set_decimated_frames (us_decimated_frames state)) in
  do* modify (set_pattern_guessing (us_pattern_guessing state)) in
  do* modify (set_presets (refill_map (us_presets state))) in
  do* modify (set_custom_lists (copy_ranges <$> us_custom_lists state)) in
  do* modify (set_combed_frames (refill_set (us_combed_frames state))) in
  do* modify (set_frozen_frames (refill_map (us_frozen_frames state))) in
  do* modify (set_sections (refill_map (us_sections state))) in
  modify (set_bookmarks (refill_map (us_bookmarks state))).

(** [while (undo_stack.size() > undo_steps) undo_stack.pop_front();] with the
    front of the deque at the head of the list. *)
Fixpoint pop_front_while_longer (steps : nat) (stack : list UndoStep)
  : list UndoStep :=
  match stack with
  | [] => []
  | _ :: rest =>
      if decide (steps < length stack)%nat
      then pop_front_while_longer steps rest
      else stack
  end.

(** The [UndoStep] that [commit] builds. *)
Definition snapshot (description : string) (p : WobblyProject) : UndoStep :=
  mkUndoStep description (matches p) (decimated_frames p)
    (pattern_guessing p) (presets p) (copy_ranges <$> custom_lists p)
    (combed_frames p) (frozen_frames p) (sections p) (bookmarks p).

(** [WobblyProject::commit]. *)
Definition commit (description : string) : Meth unit :=
  let* step := gets (snapshot description) in
  let* us := gets undo_stack in
  do* modify (set_undo_stack (us ++ [step])) in
  do* modify (set_redo_stack []) in
  let* us := gets undo_stack in
  let* steps := gets undo_steps in
  modify (set_undo_stack (pop_front_while_longer steps us)).

(** [stack.back()]: undefined on an empty deque. *)
Definition back (stack : list UndoStep) : option UndoStep := last stack.

(** [stack.pop_back()]. *)
Definition pop_back (stack : list UndoStep) : list UndoStep :=
  removelast stack.

(** [WobblyProject::undo]. *)
Definition undo : Meth unit :=
  let* us := gets undo_stack in
  if decide (length us <= 1)%nat then ret tt
  else
    let* top := of_option (back us) in
    let* rs := gets redo_stack in
    do* modify (set_redo_stack (rs ++ [top])) in
    do* modify (set_undo_stack (pop_back us)) in
    let* us := gets undo_stack in
    let* state := of_option (back us) in
    restoreState state.

(** [WobblyProject::redo]. *)
Definition redo : Meth unit :=
  let* rs := gets redo_stack in
  if decide (rs = []) then ret tt
  else
    let* state := of_option (back rs) in
    do* restoreState state in
    let* us := gets undo_stack in
    do* modify (set_undo_stack (us ++ [state])) in
    modify (set_redo_stack (pop_back rs)).

(** What an undo step saves, read from the project: the state that the
    undo/redo law is about. *)
Record Observable : Type := mkObservable {
  obs_matches : list ascii;
  obs_decimated_frames : list (gset Z);
  obs_pattern_guessing : PatternGuessing;
  obs_presets : gmap string Preset;
  obs_custom_lists : list CustomList;
  obs_combed_frames : gset Z;
  obs_frozen_frames : gmap Z FreezeFrame;
  obs_sections : gmap Z SectionRec;
  obs_bookmarks : gmap Z Bookmark
}.

Definition observe (p : WobblyProject) : Observable :=
  mkObservable (matches p) (decimated_frames p) (pattern_guessing p)
    (presets p) (custom_lists p) (combed_frames p) (frozen_frames p)
    (sections p) (bookmarks p).

(** The project after a method has run: a method that throws leaves the
    project as it was at the [throw]. *)
Definition project_after {A} (r : Res WobblyProject A) : option WobblyProject :=
  match r with
  | Ok _ p => Some p
  | Raise _ p => Some p
  | Undefined => None
  end.

(** Methods one after the other. *)
Definition seq_all (ms : list (Meth unit)) : Meth unit :=
  for_each ms (fun m => m).

(** ** Mics and the pattern guesser *)

(** Modelled from the spec: [matchCharToIndex] of [RandomStuff.h], which is
    not part of the files at hand; the spec (4.B) gives
    [p -> 0, c -> 1, n -> 2, b -> 3, u -> 4] and no index for any other
    character. *)
Definition matchCharToIndex (m : ascii) : option Z :=
  if decide (m = "p"%char) then Some 0
  else if decide (m = "c"%char) then Some 1
  else if decide (m = "n"%char) then Some 2
  else if decide (m = "b"%char) then Some 3
  else if decide (m = "u"%char) then Some 4
  else None.

(** [a[i]] on a [std::array<int16_t, 5>]. *)
Definition mic_index (a : MicArray) (i : Z) : option Z :=
  if decide (i = 0) then Some (mic_p a)
  else if decide (i = 1) then Some (mic_c a)
  else if decide (i = 2) then Some (mic_n a)
  else if decide (i = 3) then Some (mic_b a)
  else if decide (i = 4) then Some (mic_u a)
  else None.

(** [a[matchCharToIndex(m)]]. *)
Definition mic_of (a : MicArray) (m : ascii) : Meth Z :=
  let* i := of_option (matchCharToIndex m) in
  of_option (mic_index a i).

(** [WobblyProject::getMics]. *)
Definition getMics (frame : Z) : Meth MicArray :=
  do* check_frame frame in
  let* ms := gets mics in
  if decide (vsize ms ≠ 0) then of_option (vec_at ms frame)
  else ret (mkMics 0 0 0 0 0).

(** [WobblyProject::findNextSection]: the start of the section it returns,
    if there is one. *)
Definition findNextSection (frame : Z) : Meth (option SectionRec) :=
  do* check_frame frame in
  let* secs := gets sections in
  ret (snd <$> upper_bound secs frame).

(** [WobblyProject::getSectionEnd]. *)
Definition getSectionEnd (frame : Z) : Meth Z :=
  do* check_frame frame in
  let* next_section := findNextSection frame in
  match next_section with
  | Some sec => ret (sec_start sec)
  | None => getNumFrames PostSource
  end.

(** [WobblyProject::addSection(const Section &)]. *)
Definition addSection (section : SectionRec) : Meth unit :=
  do* check_frame (sec_start section) in
  let* secs := gets sections in
  do* modify (set_sections (map_insert_new (sec_start section) section secs)) in
  setModified true.

Definition INT_MAX : Z := 2147483647.

(** [a + b] on [int]: overflow is undefined behaviour. *)
Definition int_add {St} (a b : Z) : M St Z :=
  if decide (- INT_MAX - 1 <= a + b <= INT_MAX) then ret (a + b)
  else undefined.

(** [(size_t) v] for an [int] [v]. *)
Definition to_size_t (v : Z) : Z := v `mod` 2 ^ 64.

(** [FailedPatternGuessing failure = { section_start, reason };
    pattern_guessing.failures.erase(failure.start);
    pattern_guessing.failures.insert({ failure.start, failure });] *)
Definition record_failure (section_start reason : Z) : Meth unit :=
  let* pg := gets pattern_guessing in
  let failure := mkFailedPatternGuessing section_start reason in
  let failures := delete section_start (pg_failures pg) in
  let failures := map_insert_new section_start failure failures in
  modify (set_pattern_guessing
    (mkPatternGuessing (pg_method pg) (pg_minimum_length pg)
       (pg_third_n_match pg) (pg_decimation pg) (pg_use_patterns pg)
       failures)).

(** [pattern_guessing.failures.erase(section_start)]. *)
Definition erase_failure (section_start : Z) : Meth unit :=
  let* pg := gets pattern_guessing in
  modify (set_pattern_guessing
    (mkPatternGuessing (pg_method pg) (pg_minimum_length pg)
       (pg_third_n_match pg) (pg_decimation pg) (pg_use_patterns pg)
       (delete section_start (pg_failures pg)))).

(** The uglier of the two duplicates at [frame] and [frame + 1]:
    [getMics(frame)[n] > getMics(frame + 1)[c]]. *)
Definition first_duplicate_is_uglier (frame : Z) : Meth bool :=
  let* a := getMics frame in
  let* mic_n := mic_of a "n"%char in
  let* a' := getMics (frame + 1) in
  let* mic_c := mic_of a' "c"%char in
  ret (bool_decide (mic_n > mic_c)).

(** [for (j = lo; j < hi; j++) if (isDecimatedFrame(j)) deleteDecimatedFrame(j);] *)
Definition delete_decimated_in (lo hi : Z) : Meth unit :=
  for_each (range lo hi) (fun j =>
    let* dropped := isDecimatedFrame j in
    if dropped then deleteDecimatedFrame j else ret tt).

(** [WobblyProject::applyPatternGuessingDecimation]. *)
Definition applyPatternGuessingDecimation
    (section_start section_end first_duplicate drop_duplicate : Z)
  : Meth unit :=
  (* If the first duplicate is the last frame in the cycle, we have to drop
     the same duplicate in the entire section. *)
  let drop_duplicate :=
    if decide (drop_duplicate = DropUglierDuplicatePerCycle
               ∧ first_duplicate = 4)
    then DropUglierDuplicatePerSection else drop_duplicate in
  let drop := -1 in
  let* n := getNumFrames PostSource in
  let* drop :=
    if decide (drop_duplicate = DropUglierDuplicatePerSection) then
      (* Find the uglier duplicate. *)
      let* '(drop_n, drop_c) :=
        for_fold (range section_start (Z.min section_end (n - 1))) (0, 0)
          (fun '(drop_n, drop_c) i =>
             if decide (i `rem` 5 = first_duplicate) then
               let* uglier := first_duplicate_is_uglier i in
               ret (if uglier then (drop_n + 1, drop_c)
                    else (drop_n, drop_c + 1))
             else ret (drop_n, drop_c)) in
      ret (if decide (drop_n > drop_c) then first_duplicate
           else (first_duplicate + 1) `rem` 5)
    else if decide (drop_duplicate = DropFirstDuplicate) then
      ret first_duplicate
    else if decide (drop_duplicate = DropSecondDuplicate) then
      ret ((first_duplicate + 1) `rem` 5)
    else ret drop in
  let first_cycle := section_start `quot` 5 in
  let last_cycle := (section_end - 1) `quot` 5 in
  let* _ :=
    for_fold (range first_cycle (last_cycle + 1)) drop (fun drop i =>
      (* [None] stands for [continue]. *)
      let* choice :=
        if decide (drop_duplicate = DropUglierDuplicatePerCycle) then
          let choice :=
            if decide (i = first_cycle) then
              if decide (section_start `rem` 5 > first_duplicate + 1)
              then None
              else if decide (section_start `rem` 5 > first_duplicate)
              then Some (first_duplicate + 1)
              else Some drop
            else if decide (i = last_cycle) then
              if decide ((section_end - 1) `rem` 5 < first_duplicate)
              then None
              else if decide ((section_end - 1) `rem` 5 < first_duplicate + 1)
              then Some first_duplicate
              else Some drop
            else Some drop in
          match choice with
          | None => ret None
          | Some drop =>
              if decide (drop = -1) then
                let* uglier :=
                  first_duplicate_is_uglier (i * 5 + first_duplicate) in
                ret (Some (if uglier then first_duplicate
                           else (first_duplicate + 1) `rem` 5))
              else ret (Some drop)
          end
        else ret (Some drop) in
      match choice with
      | None => ret drop
      | Some drop =>
          (* At this point we know what frame to drop in this cycle. *)
          do* (if decide (i = first_cycle) then
                 (* Clear decimated frames in the cycle, but only from this
                    section. *)
                 delete_decimated_in section_start ((i + 1) * 5)
               else if decide (i = last_cycle) then
                 delete_decimated_in (i * 5) section_end
               else clearDecimatedFramesFromCycle (i * 5)) in
          let drop_frame := i * 5 + drop in
          do* (if decide (drop_frame >= section_start
                          ∧ drop_frame < section_end)
               then addDecimatedFrame drop_frame else ret tt) in
          ret drop
      end) in
  setModified true.

(** The local [struct Pattern] of [guessSectionPatternsFromMics]. *)
Record Pattern : Type := mkPattern {
  pattern : string;
  pattern_offset : Z;
  mic_dev : Z
}.

(** [pattern[(frame + pattern_offset) % pattern.size()]]: the sum is an
    [int], the size a [size_t]. *)
Definition pattern_char (pat : string) (frame pattern_offset : Z)
  : option ascii :=
  string_at pat (to_size_t (frame + pattern_offset)
                 `rem` Z.of_nat (String.length pat)).

(** The [mic_dev] of a pattern at an offset: the loop over the frames of the
    section but the last. *)
Definition section_mic_dev (pat : string) (pattern_offset : Z)
    (section_start section_end : Z) : Meth Z :=
  for_fold (range section_start (section_end - 1)) 0 (fun dev frame =>
    let* pattern_match := of_option (pattern_char pat frame pattern_offset) in
    let other_match :=
      if decide (pattern_match = "c"%char) then "n"%char else "c"%char in
    let* frame_mics := getMics frame in
    let* mic_pattern_match := mic_of frame_mics pattern_match in
    let* mic_other_match := mic_of frame_mics other_match in
    int_add dev (Z.max 0 (mic_pattern_match - mic_other_match))).

(** Whether [use_patterns] has the bit of the pattern. *)
Definition pattern_enabled (pat : string) (use_patterns : Z) : bool :=
  negb (bool_decide (pat = "cccnn"%string
                     ∧ Z.land use_patterns PatternCCCNN = 0)
        || bool_decide (pat = "ccnnn"%string
                        ∧ Z.land use_patterns PatternCCNNN = 0)
        || bool_decide (pat = "c"%string
                        ∧ Z.land use_patterns PatternCCCCC = 0)).

(** The search for the best pattern: the loop over [patterns] with its loop
    over the offsets.  The result is [patterns], [best_mic_dev] and
    [best_pattern] as the loop leaves them. *)
Definition search_patterns (section_start section_end use_patterns : Z)
  : Meth (list Pattern * Z * Z) :=
  let patterns :=
    [ mkPattern "cccnn" (-1) INT_MAX;
      mkPattern "ccnnn" (-1) INT_MAX;
      mkPattern "c" (-1) INT_MAX ] in
  for_fold (range 0 (vsize patterns)) (patterns, INT_MAX, -1)
    (fun '(patterns, best_mic_dev, best_pattern) p =>
       let* pat := of_option (vec_at patterns p) in
       if negb (pattern_enabled (pattern pat) use_patterns)
       then ret (patterns, best_mic_dev, best_pattern)
       else
         let* pat :=
           for_fold (range 0 (Z.of_nat (String.length (pattern pat)))) pat
             (fun pat pattern_offset =>
                let* dev :=
                  section_mic_dev (pattern pat) pattern_offset
                    section_start section_end in
                ret (if decide (dev < mic_dev pat)
                     then mkPattern (pattern pat) pattern_offset dev
                     else pat)) in
         let* patterns := of_option (vec_set patterns p pat) in
         ret (if decide (mic_dev pat < best_mic_dev)
              then (patterns, mic_dev pat, p)
              else (patterns, best_mic_dev, best_pattern))).

(** [WobblyProject::guessSectionPatternsFromMics]. *)
Definition guessSectionPatternsFromMics
    (section_start minimum_length use_patterns drop_duplicate : Z)
  : Meth bool :=
  let* ms := gets mics in
  do* throw_if (bool_decide (vsize ms = 0)) NoMics in
  do* check_frame section_start in
  let* secs := gets sections in
  do* throw_if (bool_decide (secs !! section_start = None)) NoSuchSection in
  let* section_end := getSectionEnd section_start in
  if decide (section_end - section_start - 1 < minimum_length) then
    do* record_failure section_start SectionTooShort in
    do* setModified true in
    ret false
  else
    let* '(patterns, best_mic_dev, best_pattern) :=
      search_patterns section_start section_end use_patterns in
    let* best := of_option (vec_at patterns best_pattern) in
    if decide (mic_dev best > section_end - section_start - 1) then
      do* record_failure section_start AmbiguousMatchPattern in
      do* setModified true in
      ret false
    else
      do* for_each (range section_start section_end) (fun i =>
            let* ch :=
              of_option (pattern_char (pattern best) i (pattern_offset best)) in
            setMatch i ch) in
      let* n := getNumFrames PostSource in
      do* (if decide (section_end = n) then
             let* m := getMatch (section_end - 1) in
             if decide (m = "n"%char) then setMatch (section_end - 1) "b"%char
             else ret tt
           else ret tt) in
      (* If the last frame of the section has much higher mic with n matches
         than with b match, use the b match. *)
      let* match_index := getMatch (section_end - 1) in
      do* (if decide (match_index = "n"%char) then
             let* a := getMics (section_end - 1) in
             let* mic_n := mic_of a "n"%char in
             let* a' := getMics (section_end - 1) in
             let* mic_b := mic_of a' "b"%char in
             if decide (mic_n > mic_b * 2) then
               setMatch (section_end - 1) "b"%char
             else ret tt
           else ret tt) in
      do* (if decide (pattern best = "c"%string) then
             for_each (range section_start section_end) deleteDecimatedFrame
           else
             let first_duplicate := 4 - pattern_offset best in
             applyPatternGuessingDecimation section_start section_end
               first_duplicate drop_duplicate) in
      do* erase_failure section_start in
      do* setModified true in
      ret true.

(** [WobblyProject::setMics]. *)
Definition setMics (frame : Z) (a : MicArray) : Meth unit :=
  do* check_frame frame in
  let* n := getNumFrames PostSource in
  let* ms := gets mics in
  let ms := if decide (vsize ms = 0) then vec_resize ms n (mkMics 0 0 0 0 0)
            else ms in
  do* modify (set_mics ms) in
  let* ms' := of_option (vec_set ms frame a) in
  modify (set_mics ms').

(** ** The parameters of VFM and VDecimate in a project document *)

(** A value of a parsed document ([rj::Value]).  A number that the parser
    read as an integer is [JInt]: rapidjson keeps it as an integer when it
    fits 64 bits, signed or unsigned.  Any other number is [JDouble]. *)
#[local] Set Warnings "-register-all".
Inductive JsonValue : Type :=
| JNull
| JBool (b : bool)
| JInt (z : Z)
| JDouble (d : double)
| JString (s : string)
| JArray (elements : list JsonValue)
| JObject (members : list (string * JsonValue)).
#[local] Set Warnings "+register-all".


Definition IsInt (v : JsonValue) : bool :=
  match v with
  | JInt z => bool_decide (- 2 ^ 31 <= z < 2 ^ 31)
  | _ => false
  end.



Definition IsObject (v : JsonValue) : bool :=
  match v with JObject _ => true | _ => false end.







(** [Value::FindMember] on an object: the first member of that name. *)
Fixpoint FindMember (members : list (string * JsonValue)) (name : string)
  : option JsonValue :=
  match members with
  | [] => None
  | (k, v) :: rest => if decide (k = name) then Some v else FindMember rest name
  end.

Inductive JSONParameterTypes : Type :=
| JSONParamBool | JSONParamInt | JSONParamDouble.

#[global] Instance JSONParameterTypes_eq_dec : EqDecision JSONParameterTypes.
Proof. solve_decision. Defined.



































(** ** Vocabulary of the statements *)

(** [decimated_frames] has one entry per cycle of five source frames, as the
    constructor and [readProject] size it. *)
Definition cycles_allocated (p : WobblyProject) : Prop :=
  vsize (decimated_frames p) = (num_frames_source p - 1) `quot` 5 + 1.

(** The dropped offsets of every cycle are offsets of source frames. *)
Definition drops_in_range (p : WobblyProject) : Prop :=
  ∀ (i : nat) (c : gset Z) (o : Z),
    decimated_frames p !! i = Some c → o ∈ c →
    0 <= o < 5 ∧ Z.of_nat i * 5 + o < num_frames_source p.

(** The number of dropped offsets, summed over the cycles. *)
Definition total_dropped (df : list (gset Z)) : Z :=
  foldr (fun c acc => Z.of_nat (size c) + acc) 0 df.

(** Invariant 1 of the data model. *)
Definition counter_consistent (p : WobblyProject) : Prop :=
  num_frames_decimated p
  = num_frames_source p - total_dropped (decimated_frames p).

(** The decimation state of a well-formed project. *)
Definition decimation_wf (p : WobblyProject) : Prop :=
  cycles_allocated p ∧ drops_in_range p ∧ counter_consistent p.

(** [matches] is empty or has one character per source frame (invariant 8
    of the data model). *)
Definition matches_sized (p : WobblyProject) : Prop :=
  vsize (matches p) = 0 ∨ vsize (matches p) = num_frames_source p.

(** Invariant 5 of the data model, on the [matches] vector: no [b] or [p] at
    frame 0, no [n] or [u] at the last frame. *)
Definition boundary_rule (p : WobblyProject) : Prop :=
  (∀ ch, vec_at (matches p) 0 = Some ch → ch ≠ "b"%char ∧ ch ≠ "p"%char) ∧
  (∀ ch, vec_at (matches p) (num_frames_source p - 1) = Some ch →
         ch ≠ "n"%char ∧ ch ≠ "u"%char).

(** What [set_match] writes for [m] at [frame] in a clip of [n] frames. *)
Definition coerced_match (n frame : Z) (m : ascii) : ascii :=
  if decide (frame = 0) then
    if decide (m = "b"%char) then "n"%char
    else if decide (m = "p"%char) then "u"%char
    else m
  else if decide (frame = n - 1) then
    if decide (m = "n"%char) then "b"%char
    else if decide (m = "u"%char) then "p"%char
    else m
  else m.

(** The vector that [set_match] writes into: [matches] after the lazy
    allocation. *)
Definition allocated_matches (p : WobblyProject) : list ascii :=
  if decide (vsize (matches p) = 0)
  then vec_resize (matches p) (num_frames_source p) "c"%char
  else matches p.

(** A scenario on a project of ten frames: committed, frame 1
    dropped, committed again. *)
Definition decimate_then_commit : Meth unit :=
  do* commit "baseline" in
  do* addDecimatedFrame 1 in
  commit "drop frame 1".


(** A project of five frames with the preset [A], assigned twice to the
    section that starts at frame 0. *)
Definition assign_preset_twice : Meth unit :=
  do* addPreset "A" EmptyString in
  do* setSectionPreset 0 "A" in
  setSectionPreset 0 "A".

(** The presets of the section that starts at [section_start]. *)
Definition section_presets_at (section_start : Z) (p : WobblyProject)
  : option (list string) :=
  sec_presets <$> sections p !! section_start.

(** A project of twelve frames with a second section at frame 10 and mics,
    all zero. *)
Definition short_last_section : Meth unit :=
  do* addSection (mkSection 10 []) in
  setMics 0 (mkMics 0 0 0 0 0).

(** Two projects with the same undo stack, redo stack and [undo_steps]: what
    an edit leaves alone. *)
Definition same_history (p q : WobblyProject) : Prop :=
  undo_stack q = undo_stack p ∧ redo_stack q = redo_stack p
  ∧ undo_steps q = undo_steps p.

(** An edit: a method that does not touch the history. *)
Definition is_edit (edit : Meth unit) : Prop :=
  ∀ p q, edit p = Ok tt q → same_history p q.

(** What a step holds of the project, as an [Observable]. *)
Definition saved_state (step : UndoStep) : Observable :=
  mkObservable (us_matches step) (us_decimated_frames step)
    (us_pattern_guessing step) (us_presets step) (us_custom_lists step)
    (us_combed_frames step) (us_frozen_frames step) (us_sections step)
    (us_bookmarks step).

(** [commit; edit; commit]. *)
Definition commit_edit_commit (edit : Meth unit) : Meth unit :=
  do* commit "before" in
  do* edit in
  commit "after".

(** [undo; undo; redo]. *)
Definition undo_undo_redo : Meth unit :=
  do* undo in
  do* undo in
  redo.

(** The match that [set_range_matches_from_pattern] stores at frame [i] of a
    clip of [n] frames for the candidate [ch], in a range that ends at
    [range_end]; [None] when the frame is skipped.  The character goes
    through [set_match], hence [coerced_match]. *)
Definition planned_match (n range_end i : Z) (ch : ascii) : option ascii :=
  if decide (i = 0 ∧ (ch = "p" ∨ ch = "b"))%char then None
  else if decide (i = n - 1 ∧ (ch = "n" ∨ ch = "u"))%char then
    if decide (ch = "n"%char) then Some (coerced_match n i "b"%char) else None
  else if decide (i = range_end ∧ ch = "n"%char) then
    Some (coerced_match n i "b"%char)
  else Some (coerced_match n i ch).

(** The candidate of frame [i]: the character of the pattern at [i mod 5]. *)
Definition candidate (pattern : string) (i : Z) : option ascii :=
  string_at pattern (i `mod` 5).

(** The first five characters of the pattern are match characters. *)
Definition five_match_chars (pattern : string) : Prop :=
  ∀ k, 0 <= k < 5 →
       ∃ ch, string_at pattern k = Some ch ∧ isValidMatchChar ch = true.


(** [planned_match] for the candidate of frame [i]. *)
Definition frame_plan (n range_end : Z) (pattern : string) (i : Z)
  : option ascii :=
  match candidate pattern i with
  | Some ch => planned_match n range_end i ch
  | None => None
  end.

(** Whether the source frame [x] is dropped: its offset is in the set of
    its cycle. *)
Definition is_dropped (df : list (gset Z)) (x : Z) : bool :=
  match vec_at df (x `quot` 5) with
  | Some c => bool_decide (x `rem` 5 ∈ c)
  | None => false
  end.

(** The number of frames of [frames] that are not dropped. *)
Fixpoint count_kept (df : list (gset Z)) (frames : list Z) : Z :=
  match frames with
  | [] => 0
  | x :: rest => (if is_dropped df x then 0 else 1) + count_kept df rest
  end.


(** Scenario S1 of the spec: ten frames, frames 1 and 6 dropped. *)
Definition drop_1_and_6 : Meth unit :=
  do* addDecimatedFrame 1 in
  addDecimatedFrame 6.

(** The project of scenario S1. *)
Definition s1_project : WobblyProject :=
  match drop_1_and_6 (new_project 10 10) with
  | Ok _ p => p
  | _ => new_project 10 10
  end.

(** ** Ordered lookups in maps and sets *)

(** The elements of an ordered set, in the order a [std::set] iterates. *)
Definition ordered_elements (s : gset Z) : list Z :=
  merge_sort Z.le (elements s).

(** [it = m.upper_bound(k); it--;]: the entry before the first one with a
    key greater than [k], that is the entry with the greatest key not
    greater than [k].  [None] when [it] is [m.begin()], where there is
    nothing to step back to. *)
Definition before_upper_bound {A} (m : gmap Z A) (k : Z) : option (Z * A) :=
  match last (filter (fun i => i <= k) (ordered_keys m)) with
  | None => None
  | Some i => (fun a => (i, a)) <$> m !! i
  end.

(** [s.upper_bound(k)] on a set: the least element greater than [k]. *)
Definition set_upper_bound (s : gset Z) (k : Z) : option Z :=
  head (filter (fun i => k < i) (ordered_elements s)).

(** [it = s.lower_bound(k); it--;] on a set: the greatest element less than
    [k]; [None] when [it] is [s.begin()]. *)
Definition set_before_lower_bound (s : gset Z) (k : Z) : option Z :=
  last (filter (fun i => i < k) (ordered_elements s)).

(** ** Matches, once more *)

(** [WobblyProject::getOriginalMatch]. *)
Definition getOriginalMatch (frame : Z) : Meth ascii :=
  do* check_frame frame in
  let* oms := gets original_matches in
  if decide (vsize oms ≠ 0) then of_option (vec_at oms frame)
  else ret "c"%char.

(** The [switch] of [cycleMatchCNB]: C -> N -> B. *)
Definition next_match_cnb (m : ascii) : ascii :=
  if decide (m = "c"%char) then "n"%char
  else if decide (m = "n"%char) then "b"%char
  else "c"%char.

(** The [switch] of [cycleMatch]: C -> N -> B -> P -> U. *)
Definition next_match (m : ascii) : ascii :=
  if decide (m = "c"%char) then "n"%char
  else if decide (m = "n"%char) then "b"%char
  else if decide (m = "b"%char) then "p"%char
  else if decide (m = "p"%char) then "u"%char
  else "c"%char.

(** [while (true) { match = next(match); if (skip(match)) continue; break; }]
    The loop is left at the first character that is not skipped; [fuel]
    bounds the number of rounds, and [None] is a loop that has not ended
    within it. *)
Fixpoint cycle_loop (fuel : nat) (next : ascii -> ascii)
    (skip : ascii -> bool) (m : ascii) : option ascii :=
  match fuel with
  | O => None
  | S fuel' =>
      let m := next m in
      if skip m then cycle_loop fuel' next skip m else Some m
  end.

(** [WobblyProject::cycleMatchCNB].  Three characters are in the cycle, so
    the loop has found one it keeps after three rounds if it ever does. *)
Definition cycleMatchCNB (frame : Z) : Meth unit :=
  do* check_frame frame in
  let* m := getMatch frame in
  let* n := getNumFrames PostSource in
  let skip (m : ascii) :=
    bool_decide (frame = 0 ∧ m = "b"%char)
    || bool_decide (frame = n - 1 ∧ m = "n"%char) in
  let* m := of_option (cycle_loop 3 next_match_cnb skip m) in
  do* setMatch frame m in
  setModified true.

(** [WobblyProject::cycleMatch].  Five characters are in the cycle. *)
Definition cycleMatch (frame : Z) : Meth unit :=
  do* check_frame frame in
  let* m := getMatch frame in
  let* n := getNumFrames PostSource in
  let skip (m : ascii) :=
    bool_decide (frame = 0 ∧ (m = "b"%char ∨ m = "p"%char))
    || bool_decide (frame = n - 1 ∧ (m = "n"%char ∨ m = "u"%char)) in
  let* m := of_option (cycle_loop 5 next_match skip m) in
  do* setMatch frame m in
  setModified true.

(** ** Sections, once more *)

(** [WobblyProject::addSection(int)]. *)
Definition addSection_start (section_start : Z) : Meth unit :=
  addSection (mkSection section_start []).

(** [WobblyProject::deleteSection]. *)
Definition deleteSection (section_start : Z) : Meth unit :=
  do* check_frame section_start in
  let* secs := gets sections in
  do* throw_if (bool_decide (secs !! section_start = None)) NoSuchSection in
  (* Never delete the very first section. *)
  do* (if decide (section_start > 0)
       then modify (set_sections (delete section_start secs))
       else ret tt) in
  setModified true.

(** [WobblyProject::findSection]: the iterator that [upper_bound] returns is
    stepped back without a test. *)
Definition findSection (frame : Z) : Meth SectionRec :=
  do* check_frame frame in
  let* secs := gets sections in
  of_option (snd <$> before_upper_bound secs frame).

(** [WobblyProject::setSectionDecimationFromPattern]. *)
Definition setSectionDecimationFromPattern (section_start : Z)
    (pattern : string) : Meth unit :=
  do* check_frame section_start in
  let* secs := gets sections in
  do* throw_if (bool_decide (secs !! section_start = None)) NoSuchSection in
  let* section_end := getSectionEnd section_start in
  do* setRangeDecimationFromPattern section_start (section_end - 1) pattern in
  setModified true.

(** [WobblyProject::resetSectionMatches]. *)
Definition resetSectionMatches (section_start : Z) : Meth unit :=
  do* check_frame section_start in
  let* secs := gets sections in
  do* throw_if (bool_decide (secs !! section_start = None)) NoSuchSection in
  let* section_end := getSectionEnd section_start in
  do* resetRangeMatches section_start (section_end - 1) in
  setModified true.

(** ** Presets and custom lists, once more *)

(** [WobblyProject::setPresetContents]. *)
Definition setPresetContents (preset_name contents : string) : Meth unit :=
  let* ps := gets presets in
  match ps !! preset_name with
  | None => throw NoSuchPreset
  | Some preset =>
      if decide (preset_contents preset ≠ contents) then
        let preset' :=
          match preset with mkPreset name _ => mkPreset name contents end in
        do* modify (set_presets (<[preset_name := preset']> ps)) in
        setModified true
      else ret tt
  end.

(** [WobblyProject::customListExists]. *)
Definition customListExists (list_name : string) : Meth bool :=
  let* cls := gets custom_lists in
  ret (bool_decide (list_name ∈ cl_name <$> cls)).

(** [WobblyProject::addCustomList(const CustomList &)]; [push_back] on the
    model of the custom lists is [push_back] on the vector it wraps. *)
Definition addCustomList (list : CustomList) : Meth unit :=
  do* throw_if (bool_decide (cl_position list < 0 ∨ cl_position list >= 3))
        OutOfRange in
  do* throw_if (negb (isNameSafeForPython (cl_name list))) InvalidName in
  let* ps := gets presets in
  do* throw_if (bool_decide (String.length (cl_preset list) ≠ 0%nat
                             ∧ ps !! cl_preset list = None)) NoSuchPreset in
  let* cls := gets custom_lists in
  do* throw_if (bool_decide (cl_name list ∈ cl_name <$> cls)) NameInUse in
  do* modify (set_custom_lists (cls ++ [list])) in
  setModified true.

(** [WobblyProject::addCustomList(const std::string &)]: the constructor of
    [CustomList] gives the list no preset, position 0 and no ranges. *)
Definition addCustomList_name (list_name : string) : Meth unit :=
  addCustomList (mkCustomList list_name EmptyString 0 ∅).

(** [WobblyProject::deleteCustomList(int)]; [erase] on the model erases the
    list at the index. *)
Definition deleteCustomList (list_index : Z) : Meth unit :=
  let* cls := gets custom_lists in
  do* throw_if (bool_decide (list_index < 0 ∨ list_index >= vsize cls))
        OutOfRange in
  do* modify (set_custom_lists (delete (Z.to_nat list_index) cls)) in
  setModified true.

(** [WobblyProject::setCustomListPreset]. *)
Definition setCustomListPreset (list_index : Z) (preset_name : string)
  : Meth unit :=
  let* cls := gets custom_lists in
  do* throw_if (bool_decide (list_index < 0 ∨ list_index >= vsize cls))
        OutOfRange in
  let* ps := gets presets in
  do* throw_if (bool_decide (ps !! preset_name = None)) NoSuchPreset in
  do* model_setCustomListPreset list_index preset_name in
  setModified true.

(** ** Frozen frames *)

(** [WobblyProject::findFreezeFrame]. *)
Definition findFreezeFrame (frame : Z) : Meth (option FreezeFrame) :=
  let* ffs := gets frozen_frames in
  match before_upper_bound ffs frame with
  | None => ret None
  | Some (_, ff) =>
      ret (if decide (ff_first ff <= frame ∧ frame <= ff_last ff)
           then Some ff else None)
  end.

(** The search of [addFreezeFrame] for a frozen range that the range from
    [first] to [last] would overlap. *)
Definition find_overlap (first last : Z) : Meth (option FreezeFrame) :=
  let* overlap := findFreezeFrame first in
  let* overlap :=
    match overlap with
    | Some ff => ret (Some ff)
    | None => findFreezeFrame last
    end in
  match overlap with
  | Some ff => ret (Some ff)
  | None =>
      let* ffs := gets frozen_frames in
      match upper_bound ffs first with
      | Some (_, ff) =>
          ret (if decide (ff_first ff < last) then Some ff else None)
      | None => ret None
      end
  end.

(** [WobblyProject::addFreezeFrame].  The source has two [throw]s: the
    values out of range, which is [OutOfRange], and
    ["Can't add FreezeFrame (...): overlaps (...)."], whose message names the
    frozen range that is in the way.  The second is the result [Some] of
    that range here, with the project as it was; [None] is the range
    added. *)
Definition addFreezeFrame (first last replacement : Z)
  : Meth (option FreezeFrame) :=
  let '(first, last) :=
    if decide (first > last) then (last, first) else (first, last) in
  let* n := getNumFrames PostSource in
  do* throw_if (bool_decide (first < 0 ∨ first >= n ∨ last < 0 ∨ last >= n
                             ∨ replacement < 0 ∨ replacement >= n))
        OutOfRange in
  let* overlap := find_overlap first last in
  match overlap with
  | Some ff => ret (Some ff)
  | None =>
      let ff := mkFreezeFrame first last replacement in
      let* ffs := gets frozen_frames in
      do* modify (set_frozen_frames (map_insert_new first ff ffs)) in
      do* setModified true in
      ret None
  end.


(** ** Combed frames *)

(** [WobblyProject::addCombedFrame]. *)
Definition addCombedFrame (frame : Z) : Meth unit :=
  do* check_frame frame in
  let* cf := gets combed_frames in
  do* modify (set_combed_frames ({[ frame ]} ∪ cf)) in
  setModified true.

(** [WobblyProject::deleteCombedFrame]. *)
Definition deleteCombedFrame (frame : Z) : Meth unit :=
  do* check_frame frame in
  let* cf := gets combed_frames in
  do* modify (set_combed_frames (cf ∖ {[ frame ]})) in
  setModified true.

(** [WobblyProject::isCombedFrame]. *)
Definition isCombedFrame (frame : Z) : Meth bool :=
  do* check_frame frame in
  let* cf := gets combed_frames in
  ret (bool_decide (frame ∈ cf)).

(** [WobblyProject::findNextCombedFrame]. *)
Definition findNextCombedFrame (frame : Z) : Meth Z :=
  let* cf := gets combed_frames in
  match set_upper_bound cf frame with
  | Some x => ret x
  | None => ret frame
  end.

(** [WobblyProject::findPreviousCombedFrame]. *)
Definition findPreviousCombedFrame (frame : Z) : Meth Z :=
  let* cf := gets combed_frames in
  match set_before_lower_bound cf frame with
  | Some x => ret x
  | None => ret frame
  end.

(** ** Decimation, once more *)

(** [struct DecimationRange]. *)
Record DecimationRange : Type := mkDecimationRange {
  dr_start : Z;
  dr_num_dropped : Z
}.

(** [struct DecimationPatternRange]. *)
Record DecimationPatternRange : Type := mkDecimationPatternRange {
  dpr_start : Z;
  dpr_dropped_offsets : gset Z
}.

(** The loop of [getDecimationRanges] from cycle [i] on, [num_dropped] being
    [current_range.num_dropped]; the ranges it pushes are in the order it
    pushes them. *)
Fixpoint decimation_ranges_from (i : Z) (num_dropped : Z)
    (cycles : list (gset Z)) : list DecimationRange :=
  match cycles with
  | [] => []
  | c :: rest =>
      if decide (Z.of_nat (size c) ≠ num_dropped) then
        let current_range := mkDecimationRange (i * 5) (Z.of_nat (size c)) in
        current_range
          :: decimation_ranges_from (i + 1) (dr_num_dropped current_range) rest
      else decimation_ranges_from (i + 1) num_dropped rest
  end.

(** [WobblyProject::getDecimationRanges]. *)
Definition getDecimationRanges : Meth (list DecimationRange) :=
  let* df := gets decimated_frames in
  ret (decimation_ranges_from 0 (-1) df).

(** The loop of [areDecimationPatternsEqual] over the two sets at once. *)
Fixpoint same_elements (a b : list Z) : bool :=
  match a, b with
  | x :: a', y :: b' => if decide (x ≠ y) then false else same_elements a' b'
  | _, _ => true
  end.

(** [areDecimationPatternsEqual]. *)
Definition areDecimationPatternsEqual (a b : gset Z) : bool :=
  if decide (size a ≠ size b) then false
  else same_elements (ordered_elements a) (ordered_elements b).

(** The loop of [getDecimationPatternRanges] from cycle [i] on,
    [dropped_offsets] being [current_range.dropped_offsets]. *)
Fixpoint decimation_pattern_ranges_from (i : Z) (dropped_offsets : gset Z)
    (cycles : list (gset Z)) : list DecimationPatternRange :=
  match cycles with
  | [] => []
  | c :: rest =>
      if negb (areDecimationPatternsEqual c dropped_offsets) then
        let current_range := mkDecimationPatternRange (i * 5) c in
        current_range
          :: decimation_pattern_ranges_from (i + 1)
               (dpr_dropped_offsets current_range) rest
      else decimation_pattern_ranges_from (i + 1) dropped_offsets rest
  end.

(** [WobblyProject::getDecimationPatternRanges]. *)
Definition getDecimationPatternRanges : Meth (list DecimationPatternRange) :=
  let* df := gets decimated_frames in
  ret (decimation_pattern_ranges_from 0 {[ -1 ]} df).

(** [while (isDecimatedFrame(frame)) frame--;] of [maybeTranslate].
    [isDecimatedFrame] throws below frame 0, so that the loop has ended
    after [frame + 1] rounds; [fuel] counts them. *)
Fixpoint skip_decimated (fuel : nat) (frame : Z) : Meth Z :=
  let* dropped := isDecimatedFrame frame in
  if dropped then
    match fuel with
    | O => undefined
    | S fuel' => skip_decimated fuel' (frame - 1)
    end
  else ret frame.

(** [WobblyProject::maybeTranslate]. *)
Definition maybeTranslate (frame : Z) (is_end : bool)
    (position : PositionInFilterChain) : Meth Z :=
  match position with
  | PostDecimate =>
      let* frame :=
        if is_end then skip_decimated (Z.to_nat frame + 1) frame
        else ret frame in
      frameNumberAfterDecimation frame
  | _ => ret frame
  end.

(** [Value::IsArray]. *)
Definition IsArray (v : JsonValue) : bool :=
  match v with JArray _ => true | _ => false end.

(** [(rj::SizeType) v] for an [int] [v]: [SizeType] is [unsigned]. *)
Definition to_SizeType (v : Z) : Z := v `mod` 2 ^ 32.

(** [readProject], from [decimated_frames.resize(...)] to the end of the
    block of ["decimated frames"].  A negative size is no size a vector can
    be given. *)
Definition readProject_decimated_frames
    (json_project : list (string * JsonValue)) : Meth unit :=
  let* n := getNumFrames PostSource in
  let* df := gets decimated_frames in
  let cycles := (n - 1) `quot` 5 + 1 in
  if decide (cycles < 0) then undefined
  else
    do* modify (set_decimated_frames (vec_resize df cycles ∅)) in
    match FindMember json_project "decimated frames" with
    | None => ret tt
    | Some (JArray json_decimated_frames) =>
        do* throw_if (bool_decide (vsize json_decimated_frames > to_SizeType n))
              ParseError in
        for_each json_decimated_frames (fun value =>
          if IsInt value then
            match value with
            | JInt frame => addDecimatedFrame frame
            | _ => undefined
            end
          else throw ParseError)
    | Some _ => throw ParseError
    end.

(** ** Undo and redo, once more *)

(** [while (undo_steps < undo_stack.size() + redo_stack.size())
    undo_stack.pop_front();] with [others] for [redo_stack.size()];
    [pop_front] on an empty deque is undefined. *)
Fixpoint pop_front_while_over (steps others : nat) (stack : list UndoStep)
  : option (list UndoStep) :=
  if decide (steps < length stack + others)%nat then
    match stack with
    | [] => None
    | _ :: rest => pop_front_while_over steps others rest
    end
  else Some stack.

(** [WobblyProject::setUndoSteps]. *)
Definition setUndoSteps (steps : nat) : Meth unit :=
  do* modify (set_undo_steps steps) in
  let* rs := gets redo_stack in
  do* (if decide (steps < length rs)%nat then
         do* modify (set_undo_stack []) in
         modify (set_redo_stack (pop_front_while_longer steps rs))
       else ret tt) in
  let* us := gets undo_stack in
  let* rs := gets redo_stack in
  let* us' := of_option (pop_front_while_over steps (length rs) us) in
  modify (set_undo_stack us').

(** ** Vocabulary of the further statements *)

(** The sections of a project as every method expects them: one starts at
    frame 0, and each is kept under its own start, a frame of the clip. *)
Definition sections_wf (p : WobblyProject) : Prop :=
  is_Some (sections p !! 0) ∧
  ∀ k sec, sections p !! k = Some sec →
           sec_start sec = k ∧ 0 <= k < num_frames_source p.

(** No cycle has all of its five frames dropped. *)
Definition cycles_not_full (p : WobblyProject) : Prop :=
  ∀ (i : nat) (c : gset Z), decimated_frames p !! i = Some c → (size c <= 4)%nat.

(** The frozen ranges of a project: each is kept under its first frame,
    is no shorter than one frame, and no two of them share a frame. *)
Definition frozen_wf (ffs : gmap Z FreezeFrame) : Prop :=
  (∀ k ff, ffs !! k = Some ff → ff_first ff = k ∧ ff_first ff <= ff_last ff) ∧
  (∀ k1 k2 ff1 ff2,
     ffs !! k1 = Some ff1 → ffs !! k2 = Some ff2 → k1 ≠ k2 →
     ff_last ff1 < ff_first ff2 ∨ ff_last ff2 < ff_first ff1).

(** [old_name] replaced by [new_name]. *)
Definition renamed (old_name new_name : string) (name : string) : string :=
  if decide (name = old_name) then new_name else name.

(** The range of [getDecimationRanges] that a cycle falls into: the last
    one that starts at or before the first frame of the cycle. *)
Definition range_of_cycle (ranges : list DecimationRange) (i : Z)
  : option DecimationRange :=
  last (filter (fun r => dr_start r <= i * 5) ranges).

Definition pattern_range_of_cycle (ranges : list DecimationPatternRange)
    (i : Z) : option DecimationPatternRange :=
  last (filter (fun r => dpr_start r <= i * 5) ranges).

(** [n] calls of a method, one after the other. *)
Fixpoint times (n : nat) (m : Meth unit) : Meth unit :=
  match n with
  | O => ret tt
  | S n' => do* m in times n' m
  end.

(** [original_matches] is empty or has one character per source frame. *)
Definition original_matches_sized (p : WobblyProject) : Prop :=
  vsize (original_matches p) = 0
  ∨ vsize (original_matches p) = num_frames_source p.

(** What [getOriginalMatch] reads at a frame of the clip. *)
Definition original_match_at (p : WobblyProject) (frame : Z) : option ascii :=
  if decide (vsize (original_matches p) ≠ 0)
  then vec_at (original_matches p) frame
  else Some "c"%char.

(** The project of ten frames after [decimate_then_commit]: two steps are on
    its undo stack. *)
Definition committed_twice : WobblyProject :=
  match decimate_then_commit (new_project 10 100) with
  | Ok _ p => p
  | _ => new_project 10 100
  end.

(** A section and a custom list with [old_name] replaced by [new_name]. *)
Definition renamed_section (old_name new_name : string) (sec : SectionRec)
  : SectionRec :=
  mkSection (sec_start sec) (renamed old_name new_name <$> sec_presets sec).

Definition renamed_list (old_name new_name : string) (cl : CustomList)
  : CustomList :=
  mkCustomList (cl_name cl) (renamed old_name new_name (cl_preset cl))
    (cl_position cl) (cl_ranges cl).

(** Every section is kept under its own start. *)
Definition sections_keyed (p : WobblyProject) : Prop :=
  ∀ k sec, sections p !! k = Some sec → sec_start sec = k.

(** Every preset that a section or a custom list names is a preset of the
    project; a custom list may have no preset, the empty name. *)
Definition references_exist (p : WobblyProject) : Prop :=
  (∀ k sec name, sections p !! k = Some sec → name ∈ sec_presets sec →
                 is_Some (presets p !! name)) ∧
  (∀ cl, cl ∈ custom_lists p → cl_preset cl ≠ EmptyString →
         is_Some (presets p !! cl_preset cl)).

(** No two custom lists have the same name. *)
Definition list_names_distinct (p : WobblyProject) : Prop :=
  NoDup (cl_name <$> custom_lists p).

(** The project of five frames after [assign_preset_twice]. *)
Definition preset_assigned_twice : WobblyProject :=
  match assign_preset_twice (new_project 5 10) with
  | Ok _ p => p
  | _ => new_project 5 10
  end.

(** The project of five frames after [addFreezeFrame 1 2 0]. *)
Definition frozen_once : WobblyProject :=
  match addFreezeFrame 1 2 0 (new_project 5 10) with
  | Ok _ p => p
  | _ => new_project 5 10
  end.

(** The project of ten frames after [addSection 5]: its sections start at
    frames 0 and 5. *)
Definition two_sections : WobblyProject :=
  match addSection_start 5 (new_project 10 5) with
  | Ok _ p => p
  | _ => new_project 10 5
  end.

(** * Properties *)

(** ** The method monad *)

Ltac unfold_monad :=
  unfold bind, ret, gets, modify, throw_if, throw, of_option, undefined in *.

Section Monad.

Context {St : Type}.

Lemma bind_ok {A B} (m : M St A) (k : A -> M St B) (s s' : St) (a : A) :
  m s = Ok a s' -> bind m k s = k a s'.
Proof. intros H. unfold bind. rewrite H. reflexivity. Qed.

Lemma bind_raise {A B} (m : M St A) (k : A -> M St B) (s s' : St) e :
  m s = Raise e s' -> bind m k s = Raise e s'.
Proof. intros H. unfold bind. rewrite H. reflexivity. Qed.

Lemma bind_ret {A B} (a : A) (k : A -> M St B) (s : St) :
  bind (ret a) k s = k a s.
Proof. reflexivity. Qed.

Lemma bind_gets {A B} (f : St -> A) (k : A -> M St B) (s : St) :
  bind (gets f) k s = k (f s) s.
Proof. reflexivity. Qed.

Lemma bind_modify {B} (f : St -> St) (k : unit -> M St B) (s : St) :
  bind (modify f) k s = k tt (f s).
Proof. reflexivity. Qed.

Lemma bind_throw {A B} e (k : A -> M St B) (s : St) :
  bind (throw e) k s = Raise e s.
Proof. reflexivity. Qed.

Lemma bind_undefined {A B} (k : A -> M St B) (s : St) :
  bind undefined k s = Undefined.
Proof. reflexivity. Qed.

Lemma bind_of_option_Some {A B} (a : A) (k : A -> M St B) (s : St) :
  bind (of_option (Some a)) k s = k a s.
Proof. reflexivity. Qed.

Lemma bind_throw_if_false {B} e (k : unit -> M St B) (s : St) :
  bind (throw_if false e) k s = k tt s.
Proof. reflexivity. Qed.

Lemma bind_throw_if_true {B} e (k : unit -> M St B) (s : St) :
  bind (throw_if true e) k s = Raise e s.
Proof. reflexivity. Qed.

Lemma gets_run {A} (f : St -> A) (s : St) : gets f s = Ok (f s) s.
Proof. reflexivity. Qed.

Lemma modify_run (f : St -> St) (s : St) : modify f s = Ok tt (f s).
Proof. reflexivity. Qed.

Lemma ret_run {A} (a : A) (s : St) : ret a s = Ok a s.
Proof. reflexivity. Qed.

Lemma bind_assoc {A B C} (m : M St A) (f : A -> M St B) (g : B -> M St C)
    (s : St) :
  bind (bind m f) g s = bind m (fun x => bind (f x) g) s.
Proof. unfold bind. destruct (m s); reflexivity. Qed.

Lemma for_each_cons {A} (x : A) (xs : list A) (body : A -> M St unit)
    (s : St) :
  for_each (x :: xs) body s = bind (body x) (fun _ => for_each xs body) s.
Proof. reflexivity. Qed.

Lemma for_each_nil {A} (body : A -> M St unit) (s : St) :
  for_each [] body s = Ok tt s.
Proof. reflexivity. Qed.

Lemma for_each_app {A} (xs ys : list A) (body : A -> M St unit) (s : St) :
  for_each (xs ++ ys) body s
  = bind (for_each xs body) (fun _ => for_each ys body) s.
Proof.
  revert s. induction xs as [|x xs IH]; intros s; simpl.
  - reflexivity.
  - unfold bind in *. destruct (body x s) as [[] s'| |]; try reflexivity.
    apply IH.
Qed.

End Monad.

Create Rewrite HintDb wobbly.
#[global] Hint Rewrite @bind_assoc @bind_ret @bind_gets @bind_modify @bind_throw
  @bind_undefined @bind_of_option_Some @bind_throw_if_false
  @bind_throw_if_true @gets_run @modify_run @ret_run : wobbly.

Ltac msimpl := autorewrite with wobbly.

(** ** Frames and cycles *)

Lemma check_frame_ok (frame : Z) (p : WobblyProject) :
  0 <= frame < num_frames_source p -> check_frame frame p = Ok tt p.
Proof.
  intros H. unfold check_frame, frame_out_of_range, getNumFrames.
  unfold_monad. rewrite bool_decide_eq_false_2 by lia. reflexivity.
Qed.

Lemma check_frame_bad (frame : Z) (p : WobblyProject) :
  ~ 0 <= frame < num_frames_source p ->
  check_frame frame p = Raise OutOfRange p.
Proof.
  intros H. unfold check_frame, frame_out_of_range, getNumFrames.
  unfold_monad. rewrite bool_decide_eq_true_2 by lia. reflexivity.
Qed.

Lemma cycle_exists (p : WobblyProject) (frame : Z) :
  cycles_allocated p -> 0 <= frame < num_frames_source p ->
  exists c, vec_at (decimated_frames p) (frame `quot` 5) = Some c.
Proof.
  unfold cycles_allocated, vsize, vec_at. intros Hlen Hf.
  assert (0 <= frame `quot` 5 <= (num_frames_source p - 1) `quot` 5).
  { rewrite !Z.quot_div_nonneg by lia.
    split; [apply Z.div_pos; lia | apply Z.div_le_mono; lia]. }
  rewrite decide_True by lia.
  apply lookup_lt_is_Some_2. lia.
Qed.

Lemma vec_at_set {A} (v : list A) (i : Z) (x y : A) :
  vec_at v i = Some y -> vec_set v i x = Some (<[Z.to_nat i := x]> v).
Proof.
  unfold vec_at, vec_set. intros H. case_decide; [|discriminate].
  apply lookup_lt_Some in H. rewrite decide_True by lia. reflexivity.
Qed.

(** ** Adding a decimated frame *)

(** C8.  For a frame [f] of the clip, [add_decimated_frame(f)] does nothing
    (no error, the counter and the sets as they were) when the cycle [f / 5]
    holds four dropped offsets; otherwise it inserts [f mod 5] into the set
    of the cycle and takes one off [num_frames_decimated] when the offset
    was not in the set. *)
Theorem addDecimatedFrame_spec (p : WobblyProject) (f : Z) :
  cycles_allocated p -> 0 <= f < num_frames_source p ->
  exists c,
    vec_at (decimated_frames p) (f / 5) = Some c /\
    if decide (size c = 4%nat) then addDecimatedFrame f p = Ok tt p
    else
      exists p',
        addDecimatedFrame f p = Ok tt p' /\
        decimated_frames p'
        = <[Z.to_nat (f / 5) := {[ f mod 5 ]} ∪ c]> (decimated_frames p) /\
        num_frames_decimated p'
        = (if decide (f mod 5 ∈ c) then num_frames_decimated p
           else num_frames_decimated p - 1) /\
        num_frames_source p' = num_frames_source p.
Proof.
  intros Hlen Hf.
  destruct (cycle_exists p f Hlen Hf) as [c Hc].
  rewrite <- Z.quot_div_nonneg, <- Z.rem_mod_nonneg by lia.
  exists c. split; [exact Hc|].
  unfold addDecimatedFrame.
  rewrite (bind_ok _ _ _ _ _ (check_frame_ok f p Hf)).
  unfold cycle_at, set_cycle. msimpl. rewrite Hc. msimpl.
  destruct (decide (size c = 4%nat)) as [H4|H4].
  - rewrite decide_True by lia. reflexivity.
  - rewrite decide_False by lia. msimpl.
    rewrite (vec_at_set _ _ _ _ Hc). msimpl.
    destruct (decide (f `rem` 5 ∈ c)) as [Hin|Hin].
    + rewrite bool_decide_eq_false_2 by tauto. msimpl.
      eexists. split; [reflexivity|]. simpl. auto.
    + rewrite bool_decide_eq_true_2 by assumption.
      unfold setModified, getNumFrames, setNumFrames. msimpl.
      case_bool_decide; eexists; (split; [reflexivity|]); simpl; auto.
Qed.

Lemma addDecimatedFrame_spec_witness :
  exists c,
    vec_at (decimated_frames (new_project 10 5)) (3 / 5) = Some c /\
    if decide (size c = 4%nat)
    then addDecimatedFrame 3 (new_project 10 5) = Ok tt (new_project 10 5)
    else
      exists p',
        addDecimatedFrame 3 (new_project 10 5) = Ok tt p' /\
        decimated_frames p'
        = <[Z.to_nat (3 / 5) := {[ 3 mod 5 ]} ∪ c]>
            (decimated_frames (new_project 10 5)) /\
        num_frames_decimated p'
        = (if decide (3 mod 5 ∈ c)
           then num_frames_decimated (new_project 10 5)
           else num_frames_decimated (new_project 10 5) - 1) /\
        num_frames_source p' = num_frames_source (new_project 10 5).
Proof.
  apply (addDecimatedFrame_spec (new_project 10 5) 3).
  - reflexivity.
  - simpl. lia.
Defined.

(** ** The counter of decimated frames *)

Lemma total_dropped_insert (df : list (gset Z)) (i : nat) (c c' : gset Z) :
  df !! i = Some c ->
  total_dropped (<[i := c']> df)
  = total_dropped df - Z.of_nat (size c) + Z.of_nat (size c').
Proof.
  revert i. induction df as [|d df IH]; intros [|i] H; simpl in *;
    try discriminate.
  - injection H as ->. lia.
  - rewrite (IH i H). lia.
Qed.

Lemma cycles_allocated_insert (p : WobblyProject) (i : nat) (c : gset Z) :
  cycles_allocated p ->
  cycles_allocated (set_decimated_frames (<[i := c]> (decimated_frames p)) p).
Proof.
  unfold cycles_allocated, vsize. simpl. rewrite length_insert. auto.
Qed.

(** [add_decimated_frame] keeps the counter in step with the sets. *)
Lemma addDecimatedFrame_counter (p : WobblyProject) (f : Z) :
  cycles_allocated p -> counter_consistent p ->
  exists r, project_after (addDecimatedFrame f p) = Some r
            /\ cycles_allocated r /\ counter_consistent r.
Proof.
  intros Hlen Hcnt.
  destruct (decide (0 <= f < num_frames_source p)) as [Hf|Hf].
  2:{ unfold addDecimatedFrame.
      rewrite (bind_raise _ _ _ _ _ (check_frame_bad f p Hf)).
      exists p. auto. }
  destruct (cycle_exists p f Hlen Hf) as [c Hc].
  unfold addDecimatedFrame.
  rewrite (bind_ok _ _ _ _ _ (check_frame_ok f p Hf)).
  unfold cycle_at, set_cycle. msimpl. rewrite Hc. msimpl.
  case_decide; [exists p; auto|]. msimpl.
  rewrite (vec_at_set _ _ _ _ Hc). msimpl.
  assert (Hlk : decimated_frames p !! Z.to_nat (f `quot` 5) = Some c).
  { unfold vec_at in Hc. case_decide; [assumption|discriminate]. }
  destruct (decide (f `rem` 5 ∈ c)) as [Hin|Hin].
  - rewrite bool_decide_eq_false_2 by tauto. msimpl.
    eexists; split; [reflexivity|].
    split; [apply cycles_allocated_insert; assumption|].
    unfold counter_consistent in *. simpl.
    rewrite (total_dropped_insert _ _ _ _ Hlk).
    replace ({[f `rem` 5]} ∪ c) with c by set_solver. lia.
  - rewrite bool_decide_eq_true_2 by assumption.
    unfold setModified, getNumFrames, setNumFrames. msimpl.
    assert (Hsz : size ({[f `rem` 5]} ∪ c) = S (size c)).
    { rewrite size_union by set_solver. rewrite size_singleton. lia. }
    case_bool_decide; (eexists; split; [reflexivity|]);
      (split; [apply (cycles_allocated_insert p); assumption|]);
      unfold counter_consistent in *; simpl;
      rewrite (total_dropped_insert _ _ _ _ Hlk), Hsz; lia.
Qed.

(** [delete_decimated_frame] keeps the counter in step with the sets. *)
Lemma deleteDecimatedFrame_counter (p : WobblyProject) (f : Z) :
  cycles_allocated p -> counter_consistent p ->
  exists r, project_after (deleteDecimatedFrame f p) = Some r
            /\ cycles_allocated r /\ counter_consistent r.
Proof.
  intros Hlen Hcnt.
  destruct (decide (0 <= f < num_frames_source p)) as [Hf|Hf].
  2:{ unfold deleteDecimatedFrame.
      rewrite (bind_raise _ _ _ _ _ (check_frame_bad f p Hf)).
      exists p. auto. }
  destruct (cycle_exists p f Hlen Hf) as [c Hc].
  unfold deleteDecimatedFrame.
  rewrite (bind_ok _ _ _ _ _ (check_frame_ok f p Hf)).
  unfold cycle_at, set_cycle. msimpl. rewrite Hc. msimpl.
  rewrite (vec_at_set _ _ _ _ Hc). msimpl.
  assert (Hlk : decimated_frames p !! Z.to_nat (f `quot` 5) = Some c).
  { unfold vec_at in Hc. case_decide; [assumption|discriminate]. }
  destruct (decide (f `rem` 5 ∈ c)) as [Hin|Hin].
  - rewrite bool_decide_eq_true_2 by assumption.
    unfold setModified, getNumFrames, setNumFrames. msimpl.
    assert (Hsz : size ({[f `rem` 5]} ∪ c ∖ {[f `rem` 5]})
                  = S (size (c ∖ {[f `rem` 5]}))).
    { rewrite size_union by set_solver. rewrite size_singleton. reflexivity. }
    rewrite <- (union_difference_L {[f `rem` 5]} c) in Hsz by set_solver.
    case_bool_decide; (eexists; split; [reflexivity|]);
      (split; [apply (cycles_allocated_insert p); assumption|]);
      unfold counter_consistent in *; simpl;
      rewrite (total_dropped_insert _ _ _ _ Hlk); lia.
  - rewrite bool_decide_eq_false_2 by assumption. msimpl.
    eexists; split; [reflexivity|].
    split; [apply cycles_allocated_insert; assumption|].
    unfold counter_consistent in *. simpl.
    rewrite (total_dropped_insert _ _ _ _ Hlk).
    replace (c ∖ {[f `rem` 5]}) with c by set_solver. lia.
Qed.

(** [clearDecimatedFramesFromCycle] keeps the counter in step with the
    sets. *)
Lemma clearDecimatedFramesFromCycle_counter (p : WobblyProject) (f : Z) :
  cycles_allocated p -> counter_consistent p ->
  exists r, project_after (clearDecimatedFramesFromCycle f p) = Some r
            /\ cycles_allocated r /\ counter_consistent r.
Proof.
  intros Hlen Hcnt.
  destruct (decide (0 <= f < num_frames_source p)) as [Hf|Hf].
  2:{ unfold clearDecimatedFramesFromCycle.
      rewrite (bind_raise _ _ _ _ _ (check_frame_bad f p Hf)).
      exists p. auto. }
  destruct (cycle_exists p f Hlen Hf) as [c Hc].
  unfold clearDecimatedFramesFromCycle.
  rewrite (bind_ok _ _ _ _ _ (check_frame_ok f p Hf)).
  unfold cycle_at, set_cycle. msimpl. rewrite Hc. msimpl.
  rewrite (vec_at_set _ _ _ _ Hc). msimpl.
  assert (Hlk : decimated_frames p !! Z.to_nat (f `quot` 5) = Some c).
  { unfold vec_at in Hc. case_decide; [assumption|discriminate]. }
  unfold getNumFrames, setNumFrames. msimpl.
  eexists; split; [reflexivity|].
  split; [apply (cycles_allocated_insert p); assumption|].
  unfold counter_consistent in *; simpl.
  rewrite (total_dropped_insert _ _ _ _ Hlk), size_empty. lia.
Qed.

(** C1.  Up to the second commit the counter is in step with the sets;
    [undo] then puts the empty sets of the first commit back and leaves the
    counter at 9, so that [num_frames_decimated] is no longer
    [num_frames_source] minus the number of dropped offsets. *)
Theorem undo_leaves_counter_stale :
  exists p1 p2,
    decimate_then_commit (new_project 10 100) = Ok tt p1 /\
    counter_consistent p1 /\
    undo p1 = Ok tt p2 /\
    num_frames_source p2 = 10 /\
    total_dropped (decimated_frames p2) = 0 /\
    num_frames_decimated p2 = 9 /\
    ~ counter_consistent p2.
Proof.
  eexists; eexists.
  split; [vm_compute; reflexivity|].
  split; [vm_compute; reflexivity|].
  split; [vm_compute; reflexivity|].
  split; [reflexivity|].
  split; [vm_compute; reflexivity|].
  split; [reflexivity|].
  vm_compute. discriminate.
Qed.

(** ** Renaming a preset to its own name *)

(** C10.  [rename_preset(a, a)] returns at once, whatever [a] is: no error,
    not even for a name that is no preset of the project, and the project is
    as it was. *)
Theorem renamePreset_same_name (p : WobblyProject) (a : string) :
  renamePreset a a p = Ok tt p.
Proof.
  unfold renamePreset. rewrite decide_True by reflexivity. reflexivity.
Qed.

(** With two different names the check is made. *)
Lemma renamePreset_no_such_preset (p : WobblyProject) (a b : string) :
  a <> b -> presets p !! a = None ->
  renamePreset a b p = Raise NoSuchPreset p.
Proof.
  intros Hne Hnone. unfold renamePreset. rewrite decide_False by assumption.
  msimpl. rewrite bool_decide_eq_true_2 by assumption. reflexivity.
Qed.

(** ** Setting a match *)

Lemma vec_resize_empty {A} (n : Z) (x : A) :
  vec_resize [] n x = replicate (Z.to_nat n) x.
Proof.
  unfold vec_resize. rewrite take_nil. simpl. f_equal. lia.
Qed.

Lemma vsize_0_nil {A} (v : list A) : vsize v = 0 -> v = [].
Proof. destruct v; [reflexivity|]. unfold vsize. simpl. lia. Qed.

Lemma allocated_matches_size (p : WobblyProject) :
  matches_sized p -> 0 <= num_frames_source p ->
  vsize (allocated_matches p) = num_frames_source p.
Proof.
  unfold matches_sized, allocated_matches. intros Hsz Hn.
  case_decide as H; [|tauto].
  rewrite (vsize_0_nil _ H), vec_resize_empty.
  unfold vsize. rewrite length_replicate. lia.
Qed.

(** What a call of [set_match] that passes its two checks does. *)
Lemma setMatch_ok (p : WobblyProject) (frame : Z) (m : ascii) :
  matches_sized p -> 0 <= frame < num_frames_source p ->
  isValidMatchChar m = true ->
  setMatch frame m p
  = Ok tt (set_matches
             (<[Z.to_nat frame := coerced_match (num_frames_source p) frame m]>
                (allocated_matches p)) p).
Proof.
  intros Hsz Hf Hm. unfold setMatch.
  rewrite (bind_ok _ _ _ _ _ (check_frame_ok frame p Hf)).
  rewrite Hm. simpl negb. unfold getNumFrames. msimpl.
  fold (allocated_matches p). fold (coerced_match (num_frames_source p) frame m).
  unfold vec_set. simpl matches.
  pose proof (allocated_matches_size p Hsz ltac:(lia)) as Hlen.
  unfold vsize in Hlen. rewrite decide_True by lia. msimpl.
  reflexivity.
Qed.

Lemma setMatch_invalid (p : WobblyProject) (frame : Z) (m : ascii) :
  0 <= frame < num_frames_source p -> isValidMatchChar m = false ->
  setMatch frame m p = Raise InvalidMatchChar p.
Proof.
  intros Hf Hm. unfold setMatch.
  rewrite (bind_ok _ _ _ _ _ (check_frame_ok frame p Hf)).
  rewrite Hm. reflexivity.
Qed.

Lemma setMatch_out_of_range (p : WobblyProject) (frame : Z) (m : ascii) :
  ~ 0 <= frame < num_frames_source p ->
  setMatch frame m p = Raise OutOfRange p.
Proof.
  intros Hf. unfold setMatch.
  rewrite (bind_raise _ _ _ _ _ (check_frame_bad frame p Hf)). reflexivity.
Qed.

Lemma allocated_matches_rule (p : WobblyProject) :
  matches_sized p -> boundary_rule p ->
  (forall ch, vec_at (allocated_matches p) 0 = Some ch ->
              ch <> "b"%char /\ ch <> "p"%char) /\
  (forall ch, vec_at (allocated_matches p) (num_frames_source p - 1) = Some ch ->
              ch <> "n"%char /\ ch <> "u"%char).
Proof.
  intros Hsz [H0 Hlast]. unfold allocated_matches.
  case_decide as Hempty; [|split; assumption].
  rewrite (vsize_0_nil _ Hempty), vec_resize_empty.
  unfold vec_at.
  split; intros ch; case_decide; try discriminate;
    intros H'; apply lookup_replicate in H' as [-> _]; split; discriminate.
Qed.

Lemma vec_at_insert_eq {A} (v : list A) (i : Z) (x : A) :
  0 <= i < vsize v -> vec_at (<[Z.to_nat i := x]> v) i = Some x.
Proof.
  unfold vec_at, vsize. intros H. rewrite decide_True by lia.
  apply list_lookup_insert_eq. lia.
Qed.

Lemma vec_at_insert_ne {A} (v : list A) (i j : Z) (x : A) :
  0 <= i -> i <> j -> vec_at (<[Z.to_nat i := x]> v) j = vec_at v j.
Proof.
  unfold vec_at. intros Hi Hne. case_decide; [|reflexivity].
  apply list_lookup_insert_ne. lia.
Qed.

Lemma coerced_match_first (n : Z) (m : ascii) :
  coerced_match n 0 m <> "b"%char /\ coerced_match n 0 m <> "p"%char.
Proof.
  unfold coerced_match. rewrite decide_True by reflexivity.
  repeat case_decide; subst; split; (discriminate || assumption).
Qed.

Lemma coerced_match_last (n : Z) (m : ascii) :
  2 <= n ->
  coerced_match n (n - 1) m <> "n"%char /\ coerced_match n (n - 1) m <> "u"%char.
Proof.
  intros Hn. unfold coerced_match. rewrite decide_False by lia.
  rewrite decide_True by reflexivity.
  repeat case_decide; subst; split; (discriminate || assumption).
Qed.

(** [set_match] keeps the boundary rule in a clip of two frames or more. *)
Lemma setMatch_keeps_rule (p : WobblyProject) (frame : Z) (m : ascii) :
  matches_sized p -> 2 <= num_frames_source p -> boundary_rule p ->
  exists p', project_after (setMatch frame m p) = Some p' /\ boundary_rule p'.
Proof.
  intros Hsz Hn Hrule.
  destruct (decide (0 <= frame < num_frames_source p)) as [Hf|Hf].
  2:{ rewrite setMatch_out_of_range by assumption. exists p. auto. }
  destruct (isValidMatchChar m) eqn:Hm.
  2:{ rewrite setMatch_invalid by assumption. exists p. auto. }
  rewrite setMatch_ok by assumption.
  eexists. split; [reflexivity|].
  destruct (allocated_matches_rule p Hsz Hrule) as [H0 Hlast].
  pose proof (allocated_matches_size p Hsz ltac:(lia)) as Hlen.
  unfold boundary_rule. simpl matches. simpl num_frames_source.
  split; intros ch.
  - destruct (decide (frame = 0)) as [->|Hne].
    + rewrite vec_at_insert_eq by lia. intros [= <-].
      apply coerced_match_first.
    + rewrite vec_at_insert_ne by lia. apply H0.
  - destruct (decide (frame = num_frames_source p - 1)) as [->|Hne].
    + rewrite vec_at_insert_eq by lia. intros [= <-].
      apply coerced_match_last. assumption.
    + rewrite vec_at_insert_ne by lia. apply Hlast.
Qed.

(** What [set_match] stores at the frame it is called on. *)
Lemma setMatch_stores (p : WobblyProject) (frame : Z) (m : ascii) :
  matches_sized p -> 0 <= frame < num_frames_source p ->
  isValidMatchChar m = true ->
  exists p', setMatch frame m p = Ok tt p' /\
             vec_at (matches p') frame
             = Some (coerced_match (num_frames_source p) frame m).
Proof.
  intros Hsz Hf Hm. rewrite setMatch_ok by assumption.
  eexists. split; [reflexivity|]. simpl matches.
  apply vec_at_insert_eq.
  rewrite allocated_matches_size by (assumption || lia). assumption.
Qed.

(** C3, as amended.  In a project of five frames [set_match(0, 'b')] stores
    ['n'], [set_match(0, 'p')] stores ['u'], [set_match(4, 'n')] stores
    ['b'], [set_match(4, 'u')] stores ['p'] and [set_match(2, 'x')] fails
    with [InvalidMatchChar].  In a project of two frames or more whose
    matches are empty or respect the boundary rule, the matches respect the
    rule after any call of [set_match]: [matches[0]] is not in [{b, p}] and
    [matches[num_frames_source - 1]] is not in [{n, u}]. *)
Theorem setMatch_boundary (p : WobblyProject) :
  matches_sized p ->
  (num_frames_source p = 5 ->
   (exists p', setMatch 0 "b" p = Ok tt p'
               /\ vec_at (matches p') 0 = Some "n"%char) /\
   (exists p', setMatch 0 "p" p = Ok tt p'
               /\ vec_at (matches p') 0 = Some "u"%char) /\
   (exists p', setMatch 4 "n" p = Ok tt p'
               /\ vec_at (matches p') 4 = Some "b"%char) /\
   (exists p', setMatch 4 "u" p = Ok tt p'
               /\ vec_at (matches p') 4 = Some "p"%char) /\
   setMatch 2 "x" p = Raise InvalidMatchChar p) /\
  (2 <= num_frames_source p -> boundary_rule p ->
   forall frame m,
     exists p', project_after (setMatch frame m p) = Some p'
                /\ boundary_rule p').
Proof.
  intros Hsz. split.
  - intros H5.
    repeat split.
    + destruct (setMatch_stores p 0 "b" Hsz ltac:(lia) eq_refl) as (p' & -> & H).
      exists p'. split; [reflexivity|]. rewrite H, H5. reflexivity.
    + destruct (setMatch_stores p 0 "p" Hsz ltac:(lia) eq_refl) as (p' & -> & H).
      exists p'. split; [reflexivity|]. rewrite H, H5. reflexivity.
    + destruct (setMatch_stores p 4 "n" Hsz ltac:(lia) eq_refl) as (p' & -> & H).
      exists p'. split; [reflexivity|]. rewrite H, H5. reflexivity.
    + destruct (setMatch_stores p 4 "u" Hsz ltac:(lia) eq_refl) as (p' & -> & H).
      exists p'. split; [reflexivity|]. rewrite H, H5. reflexivity.
    + apply setMatch_invalid; [lia|reflexivity].
  - intros Hn Hrule frame m. apply setMatch_keeps_rule; assumption.
Qed.

Lemma new_project_matches_sized (n : positive) (steps : nat) :
  matches_sized (new_project n steps).
Proof. left. reflexivity. Qed.

Lemma new_project_boundary_rule (n : positive) (steps : nat) :
  boundary_rule (new_project n steps).
Proof.
  split; intros ch; unfold vec_at; simpl matches; try case_decide;
    rewrite ?lookup_nil; discriminate.
Qed.

Lemma setMatch_boundary_witness :
  ((exists p', setMatch 0 "b" (new_project 5 10) = Ok tt p'
               /\ vec_at (matches p') 0 = Some "n"%char) /\
   (exists p', setMatch 0 "p" (new_project 5 10) = Ok tt p'
               /\ vec_at (matches p') 0 = Some "u"%char) /\
   (exists p', setMatch 4 "n" (new_project 5 10) = Ok tt p'
               /\ vec_at (matches p') 4 = Some "b"%char) /\
   (exists p', setMatch 4 "u" (new_project 5 10) = Ok tt p'
               /\ vec_at (matches p') 4 = Some "p"%char) /\
   setMatch 2 "x" (new_project 5 10)
   = Raise InvalidMatchChar (new_project 5 10)) /\
  (forall frame m,
     exists p', project_after (setMatch frame m (new_project 5 10)) = Some p'
                /\ boundary_rule p').
Proof.
  destruct (setMatch_boundary (new_project 5 10)
              (new_project_matches_sized 5 10)) as [Hex Hrule].
  split.
  - apply Hex. reflexivity.
  - apply Hrule.
    + simpl. lia.
    + apply new_project_boundary_rule.
Defined.

(** C3 as it is stated fails.  In a clip of one frame, frame 0 is the last
    frame as well and [set_match(0, 'n')] stores ['n'] there.  And in a
    project whose matches were reset to original matches that begin with
    ['b'] (the collector stores them without coercion), [set_match] on
    another frame leaves ['b'] at frame 0. *)
Lemma setMatch_boundary_counterexample :
  (exists p',
     setMatch 0 "n" (new_project 1 10) = Ok tt p' /\
     vec_at (matches p') (num_frames_source p' - 1) = Some "n"%char) /\
  (exists p0 p',
     (do* setOriginalMatch 0 "b" in resetRangeMatches 0 4) (new_project 5 10)
     = Ok tt p0 /\
     setMatch 2 "c" p0 = Ok tt p' /\
     vec_at (matches p') 0 = Some "b"%char).
Proof.
  split.
  - eexists. split; [vm_compute; reflexivity|]. reflexivity.
  - eexists. eexists. split; [vm_compute; reflexivity|].
    split; [vm_compute; reflexivity|]. reflexivity.
Qed.

(** ** The parameters of a project document *)

Lemma map_insert_new_fresh `{Countable K} {A} (k : K) (v : A) (m : gmap K A) :
  m !! k = None -> map_insert_new k v m !! k = Some v.
Proof.
  intros Hk. unfold map_insert_new. rewrite Hk. apply lookup_insert_eq.
Qed.

Lemma map_insert_new_keeps `{Countable K} {A} (k k' : K) (v x : A)
    (m : gmap K A) :
  m !! k' = Some x -> map_insert_new k v m !! k' = Some x.
Proof.
  intros Hk. unfold map_insert_new.
  destruct (m !! k) eqn:E; [assumption|].
  rewrite lookup_insert_ne; [assumption|]. intros ->. congruence.
Qed.

Lemma map_insert_new_lookup `{Countable K} {A} (k k' : K) (v : A)
    (m : gmap K A) :
  map_insert_new k v m !! k'
  = if decide (k' = k) then
      match m !! k with Some x => Some x | None => Some v end
    else m !! k'.
Proof.
  unfold map_insert_new.
  destruct (m !! k) eqn:E; case_decide; subst;
    rewrite ?lookup_insert_eq, ?lookup_insert_ne by congruence; auto.
Qed.



















(** *** Numbers of the document and their coercion *)























(** ** Deleting a preset *)

(** C4.  With the preset [A] twice in a row in the presets of a section,
    [delete_preset("A")] removes the preset and erases the first entry only:
    the loop over the entries steps over the entry that moved into the place
    of the erased one.  The section is left with an entry [A] that names no
    preset. *)
Theorem deletePreset_skips_next_entry :
  exists p0 p1,
    assign_preset_twice (new_project 5 10) = Ok tt p0 /\
    section_presets_at 0 p0 = Some ["A"; "A"]%string /\
    deletePreset "A" p0 = Ok tt p1 /\
    presets p1 !! "A"%string = None /\
    isPresetInUse "A" p1 = Raise NoSuchPreset p1 /\
    section_presets_at 0 p1 = Some ["A"]%string.
Proof.
  eexists. eexists.
  split; [vm_compute; reflexivity|].
  split; [vm_compute; reflexivity|].
  split; [vm_compute; reflexivity|].
  split; [vm_compute; reflexivity|].
  split; vm_compute; reflexivity.
Qed.

(** ** Guessing the pattern of a section from the mics *)

(** C9.  In a clip of twelve frames whose last section begins at frame 10,
    the guess for that section finds the pattern ([cccnn] at offset 0, with a
    [mic_dev] of 0) and writes the matches; [applyPatternGuessingDecimation]
    then asks whether frame 12 is decimated, which is past the end of the
    clip, and the call ends with an exception instead of [true]. *)
Theorem guessSectionPatternsFromMics_raises :
  exists p0 p1,
    short_last_section (new_project 12 10) = Ok tt p0 /\
    guessSectionPatternsFromMics 10 1
      (Z.lor PatternCCCNN (Z.lor PatternCCNNN PatternCCCCC))
      DropFirstDuplicate p0
    = Raise OutOfRange p1 /\
    matches p1 = replicate 12 "c"%char /\
    pg_failures (pattern_guessing p1) = ∅.
Proof.
  eexists. eexists.
  split; [vm_compute; reflexivity|].
  split; [vm_compute; reflexivity|].
  split; vm_compute; reflexivity.
Qed.

(** ** Undo and redo *)

Lemma refill_fold_lookup `{Countable K} {A} (l : list (K * A))
    (acc : gmap K A) (k : K) :
  foldl (fun m kv => map_insert_new kv.1 kv.2 m) acc l !! k
  = match acc !! k with
    | Some x => Some x
    | None => (list_to_map l : gmap K A) !! k
    end.
Proof.
  revert acc. induction l as [|[k0 v0] l IH]; intros acc; simpl.
  - destruct (acc !! k); reflexivity.
  - rewrite IH, map_insert_new_lookup.
    destruct (decide (k = k0)) as [->|Hne].
    + destruct (acc !! k0); [reflexivity|]. rewrite lookup_insert_eq.
      reflexivity.
    + rewrite lookup_insert_ne by congruence. reflexivity.
Qed.

(** Emptying a model and inserting the saved entries gives the saved map. *)
Lemma refill_map_id `{Countable K} {A} (m : gmap K A) : refill_map m = m.
Proof.
  apply map_eq. intros k. unfold refill_map.
  rewrite refill_fold_lookup, lookup_empty, list_to_map_to_list.
  reflexivity.
Qed.

Lemma refill_fold_elem_of (l : list Z) (acc : gset Z) (x : Z) :
  x ∈ foldl (fun s y => {[ y ]} ∪ s) acc l <-> x ∈ acc \/ x ∈ l.
Proof.
  revert acc. induction l as [|y l IH]; intros acc; simpl.
  - rewrite elem_of_nil. tauto.
  - rewrite IH, elem_of_union, elem_of_singleton, elem_of_cons. tauto.
Qed.

Lemma refill_set_id (s : gset Z) : refill_set s = s.
Proof.
  apply set_eq. intros x. unfold refill_set.
  rewrite refill_fold_elem_of, elem_of_elements. set_solver.
Qed.

Lemma copy_ranges_id (c : CustomList) : copy_ranges c = c.
Proof. destruct c. unfold copy_ranges. simpl. rewrite refill_map_id. auto. Qed.

Lemma copy_all_ranges_id (cls : list CustomList) : copy_ranges <$> cls = cls.
Proof.
  induction cls as [|c cls IH]; simpl; [reflexivity|].
  rewrite copy_ranges_id. f_equal. exact IH.
Qed.

(** A step holds the observable state of the project it was taken of. *)
Lemma snapshot_saved_state (description : string) (p : WobblyProject) :
  saved_state (snapshot description p) = observe p.
Proof.
  unfold saved_state, snapshot, observe. simpl.
  rewrite copy_all_ranges_id. reflexivity.
Qed.

(** [restoreState] puts the saved state back and leaves the history. *)
Lemma restoreState_run (state : UndoStep) (p : WobblyProject) :
  exists q, restoreState state p = Ok tt q
            /\ observe q = saved_state state /\ same_history p q.
Proof.
  eexists. split; [reflexivity|]. split.
  - unfold observe, saved_state. simpl.
    rewrite !refill_map_id, refill_set_id, copy_all_ranges_id. reflexivity.
  - repeat split.
Qed.

(** [commit] saves the state, empties the redo stack and keeps the undo
    stack to [undo_steps] steps. *)
Lemma commit_run (description : string) (p : WobblyProject) :
  exists q, commit description p = Ok tt q
    /\ observe q = observe p
    /\ undo_stack q
       = pop_front_while_longer (undo_steps p)
           (undo_stack p ++ [snapshot description p])
    /\ redo_stack q = [] /\ undo_steps q = undo_steps p.
Proof. eexists. split; [reflexivity|]. repeat split. Qed.

(** [undo] with at most one step on the undo stack does nothing. *)
Lemma undo_at_baseline (p : WobblyProject) :
  (length (undo_stack p) <= 1)%nat -> undo p = Ok tt p.
Proof.
  intros H. unfold undo. msimpl. rewrite decide_True by assumption.
  reflexivity.
Qed.

Lemma back_snoc (stack : list UndoStep) (step : UndoStep) :
  back (stack ++ [step]) = Some step.
Proof. unfold back. apply last_snoc. Qed.

Lemma pop_back_snoc (stack : list UndoStep) (step : UndoStep) :
  pop_back (stack ++ [step]) = stack.
Proof. unfold pop_back. apply removelast_last. Qed.

(** [undo] with two steps or more: the top step goes to the redo stack and
    the state of the step below is put back. *)
Lemma undo_run (p : WobblyProject) (stack : list UndoStep)
    (below top : UndoStep) :
  undo_stack p = stack ++ [below; top] ->
  exists q, undo p = Ok tt q
    /\ observe q = saved_state below
    /\ undo_stack q = stack ++ [below]
    /\ redo_stack q = redo_stack p ++ [top]
    /\ undo_steps q = undo_steps p.
Proof.
  intros Hus. unfold undo. msimpl. rewrite Hus.
  rewrite decide_False by (rewrite length_app; simpl; lia).
  replace (stack ++ [below; top]) with ((stack ++ [below]) ++ [top])
    by (rewrite <- app_assoc; reflexivity).
  rewrite back_snoc. msimpl. rewrite pop_back_snoc.
  cbn [undo_stack set_undo_stack set_redo_stack].
  rewrite back_snoc. msimpl.
  match goal with
  | |- context [restoreState below ?p0] =>
      destruct (restoreState_run below p0) as (q & Hrun & Hobs & Hh1 & Hh2 & Hh3)
  end.
  exists q. split; [exact Hrun|]. split; [exact Hobs|].
  simpl in Hh1, Hh2, Hh3. auto.
Qed.

(** [redo] with an empty redo stack does nothing. *)
Lemma redo_nothing (p : WobblyProject) :
  redo_stack p = [] -> redo p = Ok tt p.
Proof.
  intros H. unfold redo. msimpl. rewrite H.
  rewrite decide_True by reflexivity. reflexivity.
Qed.

(** [redo]: the state of the top step of the redo stack is put back and the
    step goes back to the undo stack. *)
Lemma redo_run (p : WobblyProject) (stack : list UndoStep) (top : UndoStep) :
  redo_stack p = stack ++ [top] ->
  exists q, redo p = Ok tt q
    /\ observe q = saved_state top
    /\ undo_stack q = undo_stack p ++ [top]
    /\ redo_stack q = stack
    /\ undo_steps q = undo_steps p.
Proof.
  intros Hrs. unfold redo. msimpl. rewrite Hrs.
  rewrite decide_False by (destruct stack; discriminate).
  rewrite back_snoc. msimpl.
  destruct (restoreState_run top p) as (q & Hrun & Hobs & Hh1 & Hh2 & Hh3).
  rewrite (bind_ok _ _ _ _ _ Hrun). msimpl. rewrite pop_back_snoc.
  eexists. split; [reflexivity|]. split; [exact Hobs|].
  simpl. rewrite Hh1. auto.
Qed.

Lemma pop_front_while_longer_short (steps : nat) (stack : list UndoStep) :
  (length stack <= steps)%nat -> pop_front_while_longer steps stack = stack.
Proof.
  intros H. destruct stack as [|s stack]; [reflexivity|].
  simpl in *. rewrite decide_False by lia. reflexivity.
Qed.

(** C6, as amended.  On a project whose undo stack is empty, for every
    edit, [commit; edit; commit; undo; undo; redo] leaves the project in the
    observable state that [commit; edit; commit] leaves it in; and [undo] is
    a no-op whenever the undo stack holds at most one step. *)
Theorem undo_redo_law (edit : Meth unit) (p p1 : WobblyProject) :
  is_edit edit ->
  undo_stack p = [] ->
  commit_edit_commit edit p = Ok tt p1 ->
  (exists p2, undo_undo_redo p1 = Ok tt p2 /\ observe p2 = observe p1) /\
  (forall q, (length (undo_stack q) <= 1)%nat -> undo q = Ok tt q).
Proof.
  intros Hedit Hempty Hrun. split; [|apply undo_at_baseline].
  unfold commit_edit_commit in Hrun.
  destruct (commit_run "before" p) as (p0 & Hc0 & _ & Hus0 & Hrs0 & Hst0).
  rewrite (bind_ok _ _ _ _ _ Hc0) in Hrun.
  unfold bind in Hrun. destruct (edit p0) as [[] pe| |] eqn:He;
    try discriminate.
  destruct (Hedit p0 pe He) as (Hus & Hrs & Hst).
  destruct (commit_run "after" pe) as (p1' & Hc1 & Hobs1 & Hus1 & Hrs1 & Hst1).
  rewrite Hc1 in Hrun. injection Hrun as <-.
  rewrite Hus, Hus0, Hempty, Hst, Hst0, app_nil_l in Hus1.
  unfold undo_undo_redo.
  destruct (decide (undo_steps p <= 1)%nat) as [Hn|Hn].
  - (* at most one step is kept: nothing to undo, nothing to redo *)
    assert (Hlen : (length (undo_stack p1') <= 1)%nat).
    { rewrite Hus1. destruct (undo_steps p) as [|[|n]]; simpl; lia. }
    rewrite (bind_ok _ _ _ _ _ (undo_at_baseline p1' Hlen)).
    rewrite (bind_ok _ _ _ _ _ (undo_at_baseline p1' Hlen)).
    rewrite (redo_nothing p1' Hrs1). eauto.
  - (* both steps are on the stack *)
    rewrite (pop_front_while_longer_short (undo_steps p) [_]) in Hus1
      by (simpl; lia).
    change ([?x] ++ [?y]) with [x; y] in Hus1.
    rewrite pop_front_while_longer_short in Hus1 by (simpl; lia).
    destruct (undo_run p1' [] _ _ Hus1)
      as (q1 & Hu1 & _ & Hq1us & Hq1rs & Hq1st).
    rewrite (bind_ok _ _ _ _ _ Hu1).
    rewrite (bind_ok _ _ _ _ _
               (undo_at_baseline q1 ltac:(rewrite Hq1us; simpl; lia))).
    rewrite Hrs1 in Hq1rs.
    destruct (redo_run q1 [] _ Hq1rs) as (q2 & Hr & Hobs2 & _).
    exists q2. split; [exact Hr|].
    rewrite Hobs2, snapshot_saved_state. symmetry. exact Hobs1.
Qed.

(** [set_match] is an edit. *)
Lemma setMatch_is_edit (frame : Z) (m : ascii) : is_edit (setMatch frame m).
Proof.
  intros p q. unfold setMatch.
  destruct (decide (0 <= frame < num_frames_source p)) as [Hf|Hf].
  2:{ rewrite (bind_raise _ _ _ _ _ (check_frame_bad frame p Hf)).
      discriminate. }
  rewrite (bind_ok _ _ _ _ _ (check_frame_ok frame p Hf)).
  destruct (isValidMatchChar m); [|discriminate].
  simpl negb. unfold getNumFrames. msimpl.
  match goal with
  | |- context [vec_set ?v ?i ?x] => destruct (vec_set v i x)
  end; [|discriminate].
  msimpl. intros [= <-]. repeat split.
Qed.

Lemma undo_redo_law_witness :
  exists p1 p2,
    commit_edit_commit (setMatch 1 "n") (new_project 10 100) = Ok tt p1 /\
    undo_undo_redo p1 = Ok tt p2 /\ observe p2 = observe p1.
Proof.
  assert (Hrun : exists p1, commit_edit_commit (setMatch 1 "n")
                              (new_project 10 100) = Ok tt p1).
  { eexists. vm_compute. reflexivity. }
  destruct Hrun as [p1 Hrun].
  destruct (undo_redo_law (setMatch 1 "n") (new_project 10 100) p1
              (setMatch_is_edit 1 "n") eq_refl Hrun) as [(p2 & Hu & Hobs) _].
  exists p1, p2. auto.
Defined.

(** C6 as it is stated fails on a project that has a step on its undo stack
    already: the second [undo] goes back beyond the first commit of the
    sequence, and [redo] returns to the state of that commit, before the
    edit. *)
Lemma undo_redo_law_counterexample :
  exists p p1 p2,
    commit "loaded" (new_project 10 100) = Ok tt p /\
    commit_edit_commit (setMatch 1 "n") p = Ok tt p1 /\
    undo_undo_redo p1 = Ok tt p2 /\
    vec_at (matches p1) 1 = Some "n"%char /\
    matches p2 = [] /\
    observe p2 <> observe p1.
Proof.
  eexists. eexists. eexists.
  split; [vm_compute; reflexivity|].
  split; [vm_compute; reflexivity|].
  split; [vm_compute; reflexivity|].
  split; [vm_compute; reflexivity|].
  split; [vm_compute; reflexivity|].
  intros H. apply (f_equal obs_matches) in H. vm_compute in H. discriminate.
Qed.

(** ** Matches of a range from a pattern *)

Lemma allocated_matches_written (p : WobblyProject) (i : Z) (c : ascii) :
  matches_sized p -> 0 <= i < num_frames_source p ->
  allocated_matches
    (set_matches (<[Z.to_nat i := c]> (allocated_matches p)) p)
  = <[Z.to_nat i := c]> (allocated_matches p).
Proof.
  intros Hsz Hi. unfold allocated_matches at 1. simpl matches.
  pose proof (allocated_matches_size p Hsz ltac:(lia)) as Hlen.
  rewrite decide_False; [reflexivity|].
  unfold vsize in *. rewrite length_insert. lia.
Qed.

Lemma written_matches_sized (p : WobblyProject) (i : Z) (c : ascii) :
  matches_sized p -> 0 <= i < num_frames_source p ->
  vsize (matches (set_matches (<[Z.to_nat i := c]> (allocated_matches p)) p))
  = num_frames_source p.
Proof.
  intros Hsz Hi. simpl matches.
  pose proof (allocated_matches_size p Hsz ltac:(lia)) as Hlen.
  unfold vsize in *. rewrite length_insert. exact Hlen.
Qed.

(** One turn of the loop on a frame of the clip whose candidate is a match
    character: the planned match is written, or the frame is skipped. *)
Lemma range_matches_step_run (p : WobblyProject) (range_end : Z)
    (pattern : string) (i : Z) (ch : ascii) :
  matches_sized p -> 0 <= i < num_frames_source p ->
  string_at pattern (i `rem` 5) = Some ch -> isValidMatchChar ch = true ->
  range_matches_step range_end pattern i p
  = Ok tt
      match planned_match (num_frames_source p) range_end i ch with
      | Some c => set_matches (<[Z.to_nat i := c]> (allocated_matches p)) p
      | None => p
      end.
Proof.
  intros Hsz Hi Hch Hvalid. unfold range_matches_step, planned_match.
  rewrite Hch. unfold getNumFrames. msimpl.
  repeat case_decide; try reflexivity;
    apply setMatch_ok; auto.
Qed.

(** The loop over frames of the clip, each met once: every frame with a plan
    holds the planned match, the other frames hold what they held, and the
    vector is allocated as soon as one frame is written. *)
Lemma range_matches_loop (range_end : Z) (pattern : string)
    (frames : list Z) (p : WobblyProject) :
  matches_sized p -> five_match_chars pattern -> NoDup frames ->
  (forall i, i ∈ frames -> 0 <= i < num_frames_source p) ->
  exists q,
    for_each frames (range_matches_step range_end pattern) p = Ok tt q /\
    num_frames_source q = num_frames_source p /\
    matches_sized q /\
    (forall j, 0 <= j ->
       vec_at (allocated_matches q) j
       = match (if decide (j ∈ frames)
                then frame_plan (num_frames_source p) range_end pattern j
                else None) with
         | Some c => Some c
         | None => vec_at (allocated_matches p) j
         end) /\
    (vsize (matches p) = num_frames_source p ->
     vsize (matches q) = num_frames_source p) /\
    (forall i, i ∈ frames ->
       frame_plan (num_frames_source p) range_end pattern i <> None ->
       vsize (matches q) = num_frames_source p).
Proof.
  intros Hsz Hpat. revert p Hsz.
  induction frames as [|i frames IH]; intros p Hsz Hnodup Hin.
  - exists p. rewrite for_each_nil.
    split; [reflexivity|]. split; [reflexivity|]. split; [exact Hsz|].
    split; [|split; [auto|]].
    + intros j Hj. rewrite decide_False by apply not_elem_of_nil. reflexivity.
    + intros i Hi. inversion Hi.
  - apply NoDup_cons in Hnodup as [Hni Hnodup].
    assert (Hi : 0 <= i < num_frames_source p) by (apply Hin; left).
    destruct (Hpat (i `rem` 5)) as (ch & Hch & Hvalid).
    { rewrite Z.rem_mod_nonneg by lia. apply Z.mod_pos_bound. lia. }
    rewrite for_each_cons.
    rewrite (bind_ok _ _ _ _ _
               (range_matches_step_run p range_end pattern i ch
                  Hsz Hi Hch Hvalid)).
    assert (Hplan : frame_plan (num_frames_source p) range_end pattern i
                    = planned_match (num_frames_source p) range_end i ch).
    { unfold frame_plan, candidate.
      rewrite <- Z.rem_mod_nonneg by lia. rewrite Hch. reflexivity. }
    destruct (planned_match (num_frames_source p) range_end i ch)
      as [c|] eqn:Hplanned.
    + (* the frame is written *)
      set (p1 := set_matches (<[Z.to_nat i := c]> (allocated_matches p)) p).
      assert (Hsz1 : matches_sized p1).
      { right. exact (written_matches_sized p i c Hsz Hi). }
      assert (Hp1n : vsize (matches p1) = num_frames_source p1).
      { exact (written_matches_sized p i c Hsz Hi). }
      destruct (IH p1 Hsz1 Hnodup)
        as (q & Hrun & Hn & Hszq & Hview & Hmono & Halloc).
      { intros j Hj. apply Hin. right. exact Hj. }
      exists q. split; [exact Hrun|]. split; [exact Hn|].
      split; [exact Hszq|]. split; [|split].
      * intros j Hj. rewrite (Hview j Hj). simpl num_frames_source.
        unfold p1 at 1. rewrite allocated_matches_written by assumption.
        destruct (decide (j = i)) as [->|Hne].
        -- rewrite (decide_False (P := i ∈ frames)) by assumption.
           rewrite decide_True by left. rewrite Hplan.
           apply vec_at_insert_eq.
           rewrite allocated_matches_size by (assumption || lia). exact Hi.
        -- rewrite vec_at_insert_ne by lia.
           destruct (decide (j ∈ frames)) as [Hjin|Hjin].
           ++ rewrite decide_True by (right; exact Hjin). reflexivity.
           ++ rewrite decide_False; [reflexivity|].
              intros [?|?]%elem_of_cons; tauto.
      * intros _. apply (Hmono Hp1n).
      * intros k Hk Hplank. apply (Hmono Hp1n).
    + (* the frame is skipped *)
      destruct (IH p Hsz Hnodup)
        as (q & Hrun & Hn & Hszq & Hview & Hmono & Halloc).
      { intros j Hj. apply Hin. right. exact Hj. }
      exists q. split; [exact Hrun|]. split; [exact Hn|].
      split; [exact Hszq|]. split; [|split; [exact Hmono|]].
      * intros j Hj. rewrite (Hview j Hj).
        destruct (decide (j = i)) as [->|Hne].
        -- rewrite (decide_False (P := i ∈ frames)) by assumption.
           rewrite decide_True by left. rewrite Hplan. reflexivity.
        -- destruct (decide (j ∈ frames)) as [Hjin|Hjin].
           ++ rewrite decide_True by (right; exact Hjin). reflexivity.
           ++ rewrite decide_False; [reflexivity|].
              intros [?|?]%elem_of_cons; tauto.
      * intros k Hk Hplank.
        apply elem_of_cons in Hk as [->|Hk]; [congruence|].
        apply (Halloc k Hk). exact Hplank.
Qed.

Lemma setModified_run (modified : bool) (p : WobblyProject) :
  exists q, setModified modified p = Ok tt q /\ matches q = matches p
            /\ num_frames_source q = num_frames_source p.
Proof.
  unfold setModified. case_bool_decide; eexists; repeat split.
Qed.

Lemma allocated_matches_ext (p q : WobblyProject) :
  matches q = matches p -> num_frames_source q = num_frames_source p ->
  allocated_matches q = allocated_matches p.
Proof. intros Hm Hn. unfold allocated_matches. rewrite Hm, Hn. reflexivity. Qed.

(** C5, as amended.  For a range [start <= end] of frames of the clip and a
    pattern whose first five characters are match characters,
    [set_range_matches_from_pattern(start, end, pattern)] ends without an
    error and has given every frame [i] of the range, through [set_match],
    the candidate [pattern[i mod 5]], except that frame 0 is skipped when
    the candidate is ['p'] or ['b'], that at the last source frame a
    candidate ['n'] is written as ['b'] and a candidate ['u'] is skipped,
    and that at [i = end] a candidate ['n'] is written as ['b']
    ([planned_match]); the frames that are skipped and the frames outside the
    range hold what they held, an unallocated vector counting as all
    ['c']. *)
Theorem setRangeMatchesFromPattern_spec (p : WobblyProject)
    (range_start range_end : Z) (pattern : string) :
  matches_sized p -> five_match_chars pattern ->
  0 <= range_start <= range_end -> range_end < num_frames_source p ->
  exists q,
    setRangeMatchesFromPattern range_start range_end pattern p = Ok tt q /\
    (forall i c,
       range_start <= i <= range_end ->
       frame_plan (num_frames_source p) range_end pattern i = Some c ->
       vec_at (matches q) i = Some c) /\
    (forall i,
       0 <= i ->
       ~ (range_start <= i <= range_end) \/
       frame_plan (num_frames_source p) range_end pattern i = None ->
       vec_at (allocated_matches q) i = vec_at (allocated_matches p) i).
Proof.
  intros Hsz Hpat Hrange Hend.
  unfold setRangeMatchesFromPattern.
  rewrite decide_False by lia. unfold getNumFrames. msimpl.
  rewrite bool_decide_eq_false_2 by lia. msimpl.
  destruct (range_matches_loop range_end pattern
              (range range_start (range_end + 1)) p Hsz Hpat)
    as (q & Hrun & Hn & Hszq & Hview & _ & Halloc).
  { apply NoDup_seqZ. }
  { intros i Hi. unfold range in Hi. apply elem_of_seqZ in Hi. lia. }
  rewrite (bind_ok _ _ _ _ _ Hrun).
  destruct (setModified_run true q) as (q' & Hmod & Hm & Hn').
  exists q'. split; [exact Hmod|].
  assert (Hmem : forall i, i ∈ range range_start (range_end + 1)
                           <-> range_start <= i <= range_end).
  { intros i. unfold range. rewrite elem_of_seqZ. lia. }
  split.
  - intros i c Hi Hplan. rewrite Hm.
    assert (Hfull : vsize (matches q) = num_frames_source p).
    { apply (Halloc i); [apply Hmem; exact Hi|congruence]. }
    specialize (Hview i ltac:(lia)).
    rewrite decide_True in Hview by (apply Hmem; exact Hi).
    rewrite Hplan in Hview. rewrite <- Hview.
    unfold allocated_matches. rewrite decide_False by lia. reflexivity.
  - intros i Hi Hout.
    rewrite (allocated_matches_ext q q' Hm Hn').
    rewrite (Hview i Hi).
    destruct (decide (i ∈ range range_start (range_end + 1))) as [Hin|Hin];
      [|reflexivity].
    destruct Hout as [Hout|Hnone].
    + exfalso. apply Hout, Hmem, Hin.
    + rewrite Hnone. reflexivity.
Qed.

Lemma cccnn_five_match_chars : five_match_chars "cccnn".
Proof.
  intros k Hk.
  assert (Hcases : k = 0 \/ k = 1 \/ k = 2 \/ k = 3 \/ k = 4) by lia.
  destruct Hcases as [-> | [-> | [-> | [-> | ->]]]];
    eexists; split; reflexivity.
Qed.

Lemma setRangeMatchesFromPattern_spec_witness :
  exists q,
    setRangeMatchesFromPattern 0 9 "cccnn" (new_project 10 10) = Ok tt q /\
    (forall i c,
       0 <= i <= 9 ->
       frame_plan (num_frames_source (new_project 10 10)) 9 "cccnn" i
       = Some c ->
       vec_at (matches q) i = Some c) /\
    (forall i,
       0 <= i ->
       ~ (0 <= i <= 9) \/
       frame_plan (num_frames_source (new_project 10 10)) 9 "cccnn" i = None ->
       vec_at (allocated_matches q) i
       = vec_at (allocated_matches (new_project 10 10)) i).
Proof.
  apply (setRangeMatchesFromPattern_spec (new_project 10 10) 0 9 "cccnn").
  - apply new_project_matches_sized.
  - apply cccnn_five_match_chars.
  - lia.
  - simpl. lia.
Defined.

(** C5 as it is stated fails for a pattern that is not five characters
    long: the code takes the candidate of frame [i] at [i % 5], not at
    [i mod pattern.len].  With the six characters [cccccu] the candidate of
    frame 5 would be ['u']; the code reads the first character and stores
    ['c'].  With the one character [c] the candidate of frame 1 would be
    ['c']; the code reads the terminating zero of the string, which
    [set_match] refuses. *)
Lemma setRangeMatchesFromPattern_counterexample :
  (exists q,
     setRangeMatchesFromPattern 5 6 "cccccu" (new_project 10 10) = Ok tt q /\
     string_at "cccccu" (5 `mod` Z.of_nat (String.length "cccccu"))
     = Some "u"%char /\
     vec_at (matches q) 5 = Some "c"%char) /\
  (exists q,
     setRangeMatchesFromPattern 1 1 "c" (new_project 10 10)
     = Raise InvalidMatchChar q /\
     string_at "c" (1 `mod` Z.of_nat (String.length "c")) = Some "c"%char).
Proof.
  split.
  - eexists. split; [vm_compute; reflexivity|].
    split; reflexivity.
  - eexists. split; [vm_compute; reflexivity|]. reflexivity.
Qed.

(** ** Frame numbers before and after decimation *)

Section Counting.

Variable df : list (gset Z).

Lemma count_kept_app (l1 l2 : list Z) :
  count_kept df (l1 ++ l2) = count_kept df l1 + count_kept df l2.
Proof. induction l1 as [|x l1 IH]; simpl; [reflexivity|]. rewrite IH. lia. Qed.

Lemma count_kept_nonneg (l : list Z) :
  0 <= count_kept df l.
Proof. induction l as [|x l IH]; simpl; [lia|]. destruct (is_dropped df x); lia. Qed.

Lemma count_kept_none_dropped (l : list Z) :
  (forall x, x ∈ l -> is_dropped df x = false) ->
  count_kept df l = Z.of_nat (length l).
Proof.
  induction l as [|x l IH]; intros H; simpl length; [reflexivity|].
  cbn [count_kept]. rewrite (H x) by left.
  rewrite IH by (intros y Hy; apply H; right; exact Hy). lia.
Qed.





End Counting.

Lemma seqZ_split (m n k : Z) :
  0 <= k <= n -> seqZ m n = seqZ m k ++ seqZ (m + k) (n - k).
Proof.
  intros H. replace n with (k + (n - k)) at 1 by lia.
  apply seqZ_app; lia.
Qed.

Lemma seqZ_split_at (m n f : Z) :
  m <= f < m + n -> seqZ m n = seqZ m (f - m) ++ f :: seqZ (f + 1) (m + n - f - 1).
Proof.
  intros H. rewrite (seqZ_split m n (f - m)) by lia. f_equal.
  replace (m + (f - m)) with f by lia.
  rewrite seqZ_cons by lia. f_equal. f_equal; lia.
Qed.


(** The size of a set of offsets of a cycle, counted offset by offset. *)
Lemma size_by_elements (c : gset Z) (l : list Z) :
  NoDup l -> (forall x, x ∈ c -> x ∈ l) ->
  size c = length (filter (fun x => x ∈ c) l).
Proof.
  intros Hnd Hsub.
  assert (Heq : c = list_to_set (filter (fun x => x ∈ c) l)).
  { apply set_eq. intros x. rewrite elem_of_list_to_set, list_elem_of_filter.
    split; [intros Hx; split; [exact Hx|apply Hsub, Hx]|tauto]. }
  rewrite Heq at 1. apply size_list_to_set. apply NoDup_filter. exact Hnd.
Qed.

Lemma cycle_of_frame (i j : Z) :
  0 <= i -> 0 <= j < 5 ->
  (i * 5 + j) `quot` 5 = i /\ (i * 5 + j) `rem` 5 = j.
Proof.
  intros Hi Hj. rewrite Z.quot_div_nonneg, Z.rem_mod_nonneg by lia.
  split.
  - rewrite Z.add_comm, Z.div_add by lia. rewrite Z.div_small by lia. lia.
  - rewrite Z.add_comm, Z.mod_add by lia. apply Z.mod_small. lia.
Qed.

Lemma vec_at_lookup {A} (v : list A) (i : Z) :
  0 <= i -> vec_at v i = v !! Z.to_nat i.
Proof. intros Hi. unfold vec_at. rewrite decide_True by lia. reflexivity. Qed.

(** Whether the frame at offset [j] of cycle [i] is dropped. *)
Lemma is_dropped_in_cycle (df : list (gset Z)) (i j : Z) (c : gset Z) :
  0 <= i -> 0 <= j < 5 -> vec_at df i = Some c ->
  is_dropped df (i * 5 + j) = bool_decide (j ∈ c).
Proof.
  intros Hi Hj Hc. unfold is_dropped.
  destruct (cycle_of_frame i j Hi Hj) as [-> ->]. rewrite Hc. reflexivity.
Qed.

Lemma cycle_at_run (p : WobblyProject) (i : Z) (c : gset Z) :
  vec_at (decimated_frames p) i = Some c -> cycle_at i p = Ok c p.
Proof. intros H. unfold cycle_at. msimpl. rewrite H. reflexivity. Qed.

Lemma for_fold_cons {St A B} (x : A) (xs : list A) (acc : B)
    (body : B -> A -> M St B) (s : St) :
  for_fold (x :: xs) acc body s
  = bind (body acc x) (fun acc' => for_fold xs acc' body) s.
Proof. reflexivity. Qed.

Lemma for_fold_nil {St A B} (acc : B) (body : B -> A -> M St B) (s : St) :
  for_fold [] acc body s = Ok acc s.
Proof. reflexivity. Qed.

(** The kept frames among offsets [js] of a cycle with the set [c]. *)
Lemma count_kept_in_cycle (df : list (gset Z)) (i : Z) (c : gset Z)
    (js : list Z) :
  0 <= i -> vec_at df i = Some c -> (forall j, j ∈ js -> 0 <= j < 5) ->
  count_kept df (Z.add (i * 5) <$> js)
  = Z.of_nat (length js) - Z.of_nat (length (filter (fun x => x ∈ c) js)).
Proof.
  intros Hi Hc. induction js as [|j js IH]; intros Hjs; [reflexivity|].
  rewrite fmap_cons. cbn [count_kept].
  rewrite (is_dropped_in_cycle df i j c Hi (Hjs j ltac:(left)) Hc).
  rewrite IH by (intros k Hk; apply Hjs; right; exact Hk).
  rewrite filter_cons. destruct (decide (j ∈ c)) as [Hin|Hin].
  - rewrite bool_decide_eq_true_2 by exact Hin. simpl length. lia.
  - rewrite bool_decide_eq_false_2 by exact Hin. simpl length. lia.
Qed.

Lemma frames_of_cycle (i : Z) : seqZ (i * 5) 5 = Z.add (i * 5) <$> seqZ 0 5.
Proof. rewrite fmap_add_seqZ. f_equal. lia. Qed.

(** A whole cycle keeps five frames less the dropped offsets. *)
Lemma count_kept_cycle (df : list (gset Z)) (i : Z) (c : gset Z) :
  0 <= i -> vec_at df i = Some c -> (forall o, o ∈ c -> 0 <= o < 5) ->
  count_kept df (seqZ (i * 5) 5) = 5 - Z.of_nat (size c).
Proof.
  intros Hi Hc Hoff. rewrite frames_of_cycle.
  rewrite (count_kept_in_cycle df i c _ Hi Hc)
    by (intros j Hj; apply elem_of_seqZ in Hj; lia).
  rewrite (size_by_elements c (seqZ 0 5)).
  - rewrite length_seqZ. lia.
  - apply NoDup_seqZ.
  - intros x Hx. apply elem_of_seqZ. specialize (Hoff x Hx). lia.
Qed.

Lemma total_dropped_app (l1 l2 : list (gset Z)) :
  total_dropped (l1 ++ l2) = total_dropped l1 + total_dropped l2.
Proof. induction l1 as [|c l1 IH]; simpl; [reflexivity|]. rewrite IH. lia. Qed.

(** The kept frames of the cycles [cs] that follow the cycles [pre]. *)
Lemma count_kept_cycles (pre cs post : list (gset Z)) :
  (forall c o, c ∈ cs -> o ∈ c -> 0 <= o < 5) ->
  count_kept (pre ++ cs ++ post)
    (seqZ (5 * Z.of_nat (length pre)) (5 * Z.of_nat (length cs)))
  = 5 * Z.of_nat (length cs) - total_dropped cs.
Proof.
  revert pre. induction cs as [|c cs IH]; intros pre Hoff.
  - simpl. reflexivity.
  - rewrite (seqZ_split _ _ 5) by (simpl length; lia).
    rewrite count_kept_app.
    replace (5 * Z.of_nat (length pre)) with (Z.of_nat (length pre) * 5) by lia.
    rewrite (count_kept_cycle _ (Z.of_nat (length pre)) c).
    + specialize (IH (pre ++ [c])).
      rewrite <- app_assoc in IH. simpl app in IH. rewrite length_app in IH.
      simpl length in IH.
      replace (Z.of_nat (length pre) * 5 + 5)
        with (5 * Z.of_nat (length pre + 1)) by lia.
      replace (5 * Z.of_nat (length (c :: cs)) - 5)
        with (5 * Z.of_nat (length cs)) by (simpl length; lia).
      change ((c :: cs) ++ post) with (c :: cs ++ post).
      rewrite IH by (intros c' o Hc'; apply Hoff; right; exact Hc').
      simpl total_dropped. simpl length. lia.
    + lia.
    + rewrite vec_at_lookup by lia. rewrite Nat2Z.id.
      apply list_lookup_middle. reflexivity.
    + intros o Ho. apply (Hoff c o); [left|exact Ho].
Qed.

(** The first loop of [frameNumberAfterDecimation], over the cycles [cs]
    that follow the cycles [pre]. *)
Lemma after_cycles_loop (p : WobblyProject) (pre cs post : list (gset Z))
    (out : Z) :
  decimated_frames p = pre ++ cs ++ post ->
  for_fold (seqZ (Z.of_nat (length pre)) (Z.of_nat (length cs))) out
    (fun out_frame i =>
       let* c := cycle_at i in ret (out_frame - Z.of_nat (size c))) p
  = Ok (out - total_dropped cs) p.
Proof.
  revert pre out. induction cs as [|c cs IH]; intros pre out Hdf.
  - simpl. unfold ret. f_equal. lia.
  - rewrite seqZ_cons by (simpl length; lia). rewrite for_fold_cons.
    assert (Hc : vec_at (decimated_frames p) (Z.of_nat (length pre)) = Some c).
    { rewrite vec_at_lookup by lia. rewrite Nat2Z.id, Hdf.
      apply list_lookup_middle. reflexivity. }
    msimpl. rewrite (bind_ok _ _ _ _ _ (cycle_at_run p _ c Hc)). msimpl.
    specialize (IH (pre ++ [c]) (out - Z.of_nat (size c))).
    rewrite length_app in IH. simpl length in IH.
    replace (Z.succ (Z.of_nat (length pre)))
      with (Z.of_nat (length pre + 1)) by lia.
    replace (Z.pred (Z.of_nat (length (c :: cs))))
      with (Z.of_nat (length cs)) by (simpl length; lia).
    rewrite IH by (rewrite Hdf, <- app_assoc; reflexivity).
    simpl total_dropped. f_equal. lia.
Qed.

(** The second loop of [frameNumberAfterDecimation], over offsets [js] of
    the cycle [i]. *)
Lemma after_offsets_loop (p : WobblyProject) (i : Z) (c : gset Z)
    (js : list Z) (out : Z) :
  0 <= i -> vec_at (decimated_frames p) i = Some c ->
  (forall j, j ∈ js -> 0 <= j < 5) ->
  for_fold js out
    (fun out_frame j =>
       let* c := cycle_at i in
       ret (if decide (j ∈ c) then out_frame else out_frame + 1)) p
  = Ok (out + count_kept (decimated_frames p) (Z.add (i * 5) <$> js)) p.
Proof.
  intros Hi Hc. revert out. induction js as [|j js IH]; intros out Hjs.
  - rewrite for_fold_nil. simpl. f_equal; lia.
  - rewrite for_fold_cons. msimpl.
    rewrite (bind_ok _ _ _ _ _ (cycle_at_run p _ c Hc)). msimpl.
    rewrite IH by (intros k Hk; apply Hjs; right; exact Hk).
    rewrite fmap_cons. cbn [count_kept].
    rewrite (is_dropped_in_cycle _ i j c Hi (Hjs j ltac:(left)) Hc).
    destruct (decide (j ∈ c)) as [Hin|Hin].
    + rewrite bool_decide_eq_true_2 by exact Hin. f_equal; lia.
    + rewrite bool_decide_eq_false_2 by exact Hin. f_equal; lia.
Qed.

Lemma isDecimatedFrame_run (p : WobblyProject) (f : Z) :
  cycles_allocated p -> 0 <= f < num_frames_source p ->
  isDecimatedFrame f p = Ok (is_dropped (decimated_frames p) f) p.
Proof.
  intros Hlen Hf. destruct (cycle_exists p f Hlen Hf) as [c Hc].
  unfold isDecimatedFrame.
  rewrite (bind_ok _ _ _ _ _ (check_frame_ok f p Hf)).
  rewrite (bind_ok _ _ _ _ _ (cycle_at_run p _ c Hc)).
  unfold is_dropped. rewrite Hc. reflexivity.
Qed.

Lemma offsets_in_cycle (p : WobblyProject) :
  drops_in_range p ->
  forall c o, c ∈ decimated_frames p -> o ∈ c -> 0 <= o < 5.
Proof.
  intros Hdrops c o Hc Ho. apply list_elem_of_lookup in Hc as [i Hi].
  apply (Hdrops i c o Hi Ho).
Qed.

(** The kept frames before the frame [f], counted cycle by cycle. *)
Lemma count_kept_before (p : WobblyProject) (f : Z) (c : gset Z) :
  drops_in_range p -> 0 <= f ->
  vec_at (decimated_frames p) (f `quot` 5) = Some c ->
  count_kept (decimated_frames p) (seqZ 0 f)
  = f `quot` 5 * 5
    - total_dropped (take (Z.to_nat (f `quot` 5)) (decimated_frames p))
    + count_kept (decimated_frames p)
        (Z.add (f `quot` 5 * 5) <$> seqZ 0 (f `rem` 5)).
Proof.
  intros Hdrops Hf Hc.
  assert (Hq : 0 <= f `quot` 5) by (apply Z.quot_pos; lia).
  assert (Hr : 0 <= f `rem` 5 < 5).
  { rewrite Z.rem_mod_nonneg by lia. apply Z.mod_pos_bound. lia. }
  assert (Hsplit : f = f `quot` 5 * 5 + f `rem` 5).
  { rewrite (Z.quot_rem' f 5) at 1. lia. }
  rewrite Hsplit at 1.
  rewrite (seqZ_split 0 _ (f `quot` 5 * 5)) by lia.
  rewrite count_kept_app. f_equal.
  - set (q := Z.to_nat (f `quot` 5)).
    assert (Hlt : (q < length (decimated_frames p))%nat).
    { rewrite vec_at_lookup in Hc by lia. apply lookup_lt_Some in Hc.
      exact Hc. }
    pose proof (count_kept_cycles [] (take q (decimated_frames p))
                  (drop q (decimated_frames p))) as H.
    simpl app in H. rewrite take_drop in H.
    rewrite length_take in H. rewrite Nat.min_l in H by lia.
    simpl length in H.
    replace (5 * Z.of_nat 0%nat) with 0 in H by lia.
    replace (5 * Z.of_nat q) with (f `quot` 5 * 5) in H by (unfold q; lia).
    apply H. intros c' o Hc' Ho.
    apply (offsets_in_cycle p Hdrops c' o); [|exact Ho].
    apply elem_of_take in Hc' as (k & Hk & _).
    apply list_elem_of_lookup. exists k. exact Hk.
  - rewrite fmap_add_seqZ, Z.add_0_l, Z.add_0_r.
    replace (f `quot` 5 * 5 + f `rem` 5 - f `quot` 5 * 5) with (f `rem` 5)
      by lia.
    reflexivity.
Qed.

(** [frame_number_after_decimation] counts the kept frames before the
    frame, and takes one off at a dropped last frame. *)
Lemma frameNumberAfterDecimation_run (p : WobblyProject) (f : Z) :
  cycles_allocated p -> drops_in_range p -> 0 <= f < num_frames_source p ->
  frameNumberAfterDecimation f p
  = Ok (count_kept (decimated_frames p) (seqZ 0 f)
        - (if decide (f = num_frames_source p - 1)
           then (if is_dropped (decimated_frames p) f then 1 else 0)
           else 0)) p.
Proof.
  intros Hlen Hdrops Hf.
  destruct (cycle_exists p f Hlen Hf) as [c Hc].
  assert (Hq : 0 <= f `quot` 5) by (apply Z.quot_pos; lia).
  unfold frameNumberAfterDecimation.
  rewrite decide_False by lia. unfold getNumFrames at 1. msimpl.
  rewrite decide_False by lia.
  (* the cycles before the one of the frame *)
  set (q := Z.to_nat (f `quot` 5)).
  assert (Hlt : (q < length (decimated_frames p))%nat).
  { rewrite vec_at_lookup in Hc by lia. apply lookup_lt_Some in Hc. exact Hc. }
  pose proof (after_cycles_loop p [] (take q (decimated_frames p))
                (drop q (decimated_frames p)) (f `quot` 5 * 5)) as Hloop1.
  simpl app in Hloop1. rewrite take_drop in Hloop1.
  rewrite length_take, Nat.min_l in Hloop1 by lia.
  simpl length in Hloop1.
  replace (Z.of_nat q) with (f `quot` 5) in Hloop1 by (unfold q; lia).
  unfold range. rewrite !Z.sub_0_r.
  rewrite (bind_ok _ _ _ _ _ (Hloop1 eq_refl)).
  (* the offsets before the one of the frame *)
  assert (Hr : 0 <= f `rem` 5 < 5).
  { rewrite Z.rem_mod_nonneg by lia. apply Z.mod_pos_bound. lia. }
  rewrite (bind_ok _ _ _ _ _
             (after_offsets_loop p (f `quot` 5) c (seqZ 0 (f `rem` 5)) _
                Hq Hc ltac:(intros j Hj; apply elem_of_seqZ in Hj; lia))).
  subst q.
  rewrite <- (count_kept_before p f c Hdrops (proj1 Hf) Hc).
  destruct (decide (f = num_frames_source p - 1)) as [Hlast|Hlast].
  - rewrite (bind_ok _ _ _ _ _ (isDecimatedFrame_run p f Hlen Hf)).
    destruct (is_dropped (decimated_frames p) f); rewrite ret_run;
      f_equal; lia.
  - rewrite ret_run. f_equal. lia.
Qed.




(** No frame at or beyond the end of the clip is dropped. *)
Lemma not_dropped_beyond (p : WobblyProject) (x : Z) :
  drops_in_range p -> num_frames_source p <= x ->
  is_dropped (decimated_frames p) x = false.
Proof.
  intros Hdrops Hx. unfold is_dropped.
  destruct (vec_at (decimated_frames p) (x `quot` 5)) as [c|] eqn:Hc;
    [|reflexivity].
  apply bool_decide_eq_false_2. intros Hin.
  unfold vec_at in Hc. case_decide as Hq; [|discriminate].
  destruct (Hdrops _ c _ Hc Hin) as [Hoff Hlt].
  rewrite Z2Nat.id in Hlt by exact Hq.
  pose proof (Z.quot_rem' x 5). lia.
Qed.

(** In a well-formed project the counter is the number of kept frames of
    the clip. *)
Lemma count_kept_clip (p : WobblyProject) :
  decimation_wf p -> 0 < num_frames_source p ->
  count_kept (decimated_frames p) (seqZ 0 (num_frames_source p))
  = num_frames_decimated p.
Proof.
  intros (Hlen & Hdrops & Hcnt) Hn.
  pose proof (count_kept_cycles [] (decimated_frames p) []) as Hall.
  simpl length in Hall. rewrite app_nil_r in Hall. simpl app in Hall.
  replace (5 * Z.of_nat 0%nat) with 0 in Hall by lia.
  specialize (Hall (offsets_in_cycle p Hdrops)).
  unfold cycles_allocated, vsize in Hlen.
  assert (Hcover : num_frames_source p
                   <= 5 * Z.of_nat (length (decimated_frames p))).
  { rewrite Hlen. rewrite Z.quot_div_nonneg by lia.
    pose proof (Z.div_mod (num_frames_source p - 1) 5 ltac:(lia)).
    pose proof (Z.mod_pos_bound (num_frames_source p - 1) 5 ltac:(lia)).
    lia. }
  rewrite (seqZ_split 0 _ (num_frames_source p)) in Hall by lia.
  rewrite count_kept_app in Hall.
  rewrite (count_kept_none_dropped _ (seqZ (0 + num_frames_source p) _))
    in Hall.
  - rewrite length_seqZ in Hall. unfold counter_consistent in Hcnt. lia.
  - intros x Hx. apply elem_of_seqZ in Hx.
    apply not_dropped_beyond; [exact Hdrops|lia].
Qed.

(** The number of a kept frame after decimation is a frame number of the
    decimated clip. *)
Lemma count_kept_below_total (p : WobblyProject) (f : Z) :
  decimation_wf p -> 0 <= f < num_frames_source p ->
  is_dropped (decimated_frames p) f = false ->
  0 <= count_kept (decimated_frames p) (seqZ 0 f) < num_frames_decimated p.
Proof.
  intros Hwf Hf Hkept.
  rewrite <- (count_kept_clip p Hwf ltac:(lia)).
  rewrite (seqZ_split_at 0 (num_frames_source p) f) by lia.
  rewrite count_kept_app. cbn [count_kept]. rewrite Hkept.
  replace (f - 0) with f by lia.
  pose proof (count_kept_nonneg (decimated_frames p) (seqZ 0 f)).
  pose proof (count_kept_nonneg (decimated_frames p)
                (seqZ (f + 1) (0 + num_frames_source p - f - 1))).
  lia.
Qed.


(** *** Well-formed decimation states are the reachable ones *)

Lemma total_dropped_replicate (n : nat) :
  total_dropped (replicate n ∅) = 0.
Proof. induction n as [|n IH]; simpl; [reflexivity|]. rewrite IH. reflexivity. Qed.

(** A new project is well formed. *)
Lemma new_project_wf (n : positive) (steps : nat) :
  decimation_wf (new_project n steps).
Proof.
  assert (Hq : 0 <= (Z.pos n - 1) `quot` 5) by (apply Z.quot_pos; lia).
  unfold decimation_wf, cycles_allocated, drops_in_range, counter_consistent.
  cbn [new_project decimated_frames num_frames_source num_frames_decimated].
  rewrite vec_resize_empty. split; [|split].
  - unfold vsize. rewrite length_replicate. lia.
  - intros i c o Hc Ho. apply lookup_replicate in Hc as [-> _].
    set_solver.
  - rewrite total_dropped_replicate. lia.
Qed.

(** What [add_decimated_frame] makes of the sets. *)
Lemma addDecimatedFrame_frames (p r : WobblyProject) (f : Z) :
  cycles_allocated p ->
  project_after (addDecimatedFrame f p) = Some r ->
  num_frames_source r = num_frames_source p /\
  (decimated_frames r = decimated_frames p \/
   (0 <= f < num_frames_source p /\
    exists c, decimated_frames p !! Z.to_nat (f `quot` 5) = Some c /\
              decimated_frames r
              = <[Z.to_nat (f `quot` 5) := {[ f `rem` 5 ]} ∪ c]>
                  (decimated_frames p))).
Proof.
  intros Hlen.
  destruct (decide (0 <= f < num_frames_source p)) as [Hf|Hf].
  2:{ unfold addDecimatedFrame.
      rewrite (bind_raise _ _ _ _ _ (check_frame_bad f p Hf)).
      intros [= <-]. auto. }
  destruct (cycle_exists p f Hlen Hf) as [c Hc].
  assert (Hlk : decimated_frames p !! Z.to_nat (f `quot` 5) = Some c).
  { unfold vec_at in Hc. case_decide; [assumption|discriminate]. }
  unfold addDecimatedFrame.
  rewrite (bind_ok _ _ _ _ _ (check_frame_ok f p Hf)).
  rewrite (bind_ok _ _ _ _ _ (cycle_at_run p _ c Hc)).
  case_decide; [intros [= <-]; auto|].
  unfold set_cycle. msimpl. rewrite (vec_at_set _ _ _ _ Hc). msimpl.
  unfold setModified, getNumFrames, setNumFrames.
  destruct (bool_decide (f `rem` 5 ∉ c)); msimpl;
    try case_bool_decide; intros [= <-]; (split; [reflexivity|]);
    right; (split; [exact Hf|]); exists c; split; auto.
Qed.

(** What [delete_decimated_frame] makes of the sets. *)
Lemma deleteDecimatedFrame_frames (p r : WobblyProject) (f : Z) :
  cycles_allocated p ->
  project_after (deleteDecimatedFrame f p) = Some r ->
  num_frames_source r = num_frames_source p /\
  (decimated_frames r = decimated_frames p \/
   exists c, decimated_frames p !! Z.to_nat (f `quot` 5) = Some c /\
             decimated_frames r
             = <[Z.to_nat (f `quot` 5) := c ∖ {[ f `rem` 5 ]}]>
                 (decimated_frames p)).
Proof.
  intros Hlen.
  destruct (decide (0 <= f < num_frames_source p)) as [Hf|Hf].
  2:{ unfold deleteDecimatedFrame.
      rewrite (bind_raise _ _ _ _ _ (check_frame_bad f p Hf)).
      intros [= <-]. auto. }
  destruct (cycle_exists p f Hlen Hf) as [c Hc].
  assert (Hlk : decimated_frames p !! Z.to_nat (f `quot` 5) = Some c).
  { unfold vec_at in Hc. case_decide; [assumption|discriminate]. }
  unfold deleteDecimatedFrame.
  rewrite (bind_ok _ _ _ _ _ (check_frame_ok f p Hf)).
  rewrite (bind_ok _ _ _ _ _ (cycle_at_run p _ c Hc)).
  unfold set_cycle. msimpl. rewrite (vec_at_set _ _ _ _ Hc). msimpl.
  unfold setModified, getNumFrames, setNumFrames.
  destruct (bool_decide (f `rem` 5 ∈ c)); msimpl;
    try case_bool_decide; intros [= <-]; (split; [reflexivity|]);
    right; exists c; split; auto.
Qed.

Lemma drops_in_range_insert (p r : WobblyProject) (q : nat) (c c' : gset Z) :
  drops_in_range p -> num_frames_source r = num_frames_source p ->
  decimated_frames p !! q = Some c ->
  decimated_frames r = <[q := c']> (decimated_frames p) ->
  (forall o, o ∈ c' ->
             o ∈ c \/ (0 <= o < 5 /\ Z.of_nat q * 5 + o < num_frames_source p)) ->
  drops_in_range r.
Proof.
  intros Hdrops Hn Hc Hdf Hnew i d o Hd Ho. rewrite Hn. rewrite Hdf in Hd.
  destruct (decide (i = q)) as [->|Hne].
  - rewrite list_lookup_insert_eq in Hd
      by (apply lookup_lt_Some in Hc; exact Hc).
    injection Hd as <-.
    destruct (Hnew o Ho) as [Hold|Hfresh]; [|exact Hfresh].
    apply (Hdrops q c o Hc Hold).
  - rewrite list_lookup_insert_ne in Hd by congruence.
    apply (Hdrops i d o Hd Ho).
Qed.

(** [add_decimated_frame] keeps the decimation state well formed. *)
Lemma addDecimatedFrame_wf (p : WobblyProject) (f : Z) :
  decimation_wf p ->
  exists r, project_after (addDecimatedFrame f p) = Some r /\ decimation_wf r.
Proof.
  intros (Hlen & Hdrops & Hcnt).
  destruct (addDecimatedFrame_counter p f Hlen Hcnt) as (r & Hr & Hlen' & Hcnt').
  exists r. split; [exact Hr|]. split; [exact Hlen'|]. split; [|exact Hcnt'].
  destruct (addDecimatedFrame_frames p r f Hlen Hr) as [Hn [Hsame|Hnew]].
  - intros i c o Hc Ho. rewrite Hn. rewrite Hsame in Hc.
    apply (Hdrops i c o Hc Ho).
  - destruct Hnew as (Hf & c & Hc & Hdf).
    apply (drops_in_range_insert p r _ c _ Hdrops Hn Hc Hdf).
    intros o [->%elem_of_singleton|Ho]%elem_of_union; [right|left; exact Ho].
    assert (Hq : 0 <= f `quot` 5) by (apply Z.quot_pos; lia).
    rewrite Z2Nat.id by exact Hq.
    pose proof (Z.quot_rem' f 5).
    rewrite Z.rem_mod_nonneg in * by lia.
    pose proof (Z.mod_pos_bound f 5 ltac:(lia)). lia.
Qed.

(** [delete_decimated_frame] keeps the decimation state well formed. *)
Lemma deleteDecimatedFrame_wf (p : WobblyProject) (f : Z) :
  decimation_wf p ->
  exists r, project_after (deleteDecimatedFrame f p) = Some r
            /\ decimation_wf r.
Proof.
  intros (Hlen & Hdrops & Hcnt).
  destruct (deleteDecimatedFrame_counter p f Hlen Hcnt)
    as (r & Hr & Hlen' & Hcnt').
  exists r. split; [exact Hr|]. split; [exact Hlen'|]. split; [|exact Hcnt'].
  destruct (deleteDecimatedFrame_frames p r f Hlen Hr) as [Hn [Hsame|Hnew]].
  - intros i c o Hc Ho. rewrite Hn. rewrite Hsame in Hc.
    apply (Hdrops i c o Hc Ho).
  - destruct Hnew as (c & Hc & Hdf).
    apply (drops_in_range_insert p r _ c _ Hdrops Hn Hc Hdf).
    intros o Ho. left. set_solver.
Qed.

(** On a frame of the clip [add_decimated_frame] returns. *)
Lemma addDecimatedFrame_returns (p : WobblyProject) (f : Z) :
  decimation_wf p -> 0 <= f < num_frames_source p ->
  exists r, addDecimatedFrame f p = Ok tt r /\ decimation_wf r.
Proof.
  intros Hwf Hf. destruct (addDecimatedFrame_wf p f Hwf) as (r & Hr & Hwf').
  exists r. split; [|exact Hwf'].
  destruct Hwf as (Hlen & _ & _).
  destruct (cycle_exists p f Hlen Hf) as [c Hc].
  revert Hr. unfold addDecimatedFrame.
  rewrite (bind_ok _ _ _ _ _ (check_frame_ok f p Hf)).
  rewrite (bind_ok _ _ _ _ _ (cycle_at_run p _ c Hc)).
  case_decide; [intros [= <-]; reflexivity|].
  unfold set_cycle. msimpl. rewrite (vec_at_set _ _ _ _ Hc). msimpl.
  unfold setModified, getNumFrames, setNumFrames.
  destruct (bool_decide (f `rem` 5 ∉ c)); msimpl;
    try case_bool_decide; intros [= <-]; reflexivity.
Qed.

(** The project of scenario S1 is well formed. *)
Lemma drop_1_and_6_wf :
  exists p, drop_1_and_6 (new_project 10 10) = Ok tt p /\ decimation_wf p
            /\ num_frames_source p = 10.
Proof.
  destruct (addDecimatedFrame_returns (new_project 10 10) 1
              (new_project_wf 10 10) ltac:(simpl; lia)) as (p1 & Hrun1 & Hwf1).
  assert (Hn1 : num_frames_source p1 = 10).
  { apply (addDecimatedFrame_frames (new_project 10 10) p1 1).
    - apply new_project_wf.
    - rewrite Hrun1. reflexivity. }
  destruct (addDecimatedFrame_returns p1 6 Hwf1 ltac:(lia))
    as (p2 & Hrun2 & Hwf2).
  exists p2. unfold drop_1_and_6.
  rewrite (bind_ok _ _ _ _ _ Hrun1). split; [exact Hrun2|].
  split; [exact Hwf2|].
  rewrite <- Hn1. apply (addDecimatedFrame_frames p1 p2 6).
  - apply Hwf1.
  - rewrite Hrun2. reflexivity.
Qed.

Lemma s1_project_wf : decimation_wf s1_project.
Proof.
  destruct drop_1_and_6_wf as (p & Hrun & Hwf & _).
  unfold s1_project. rewrite Hrun. exact Hwf.
Qed.



(** The numbers of scenario S1. *)
Example s1_frame_numbers :
  num_frames_decimated s1_project = 8 /\
  frameNumberAfterDecimation 1 s1_project = Ok 1 s1_project /\
  frameNumberAfterDecimation 2 s1_project = Ok 1 s1_project /\
  frameNumberAfterDecimation 6 s1_project = Ok 5 s1_project /\
  frameNumberAfterDecimation 9 s1_project = Ok 7 s1_project.
Proof. repeat split; vm_compute; reflexivity. Qed.

(** ** The two failures of the guess from the mics *)

Lemma record_failure_run (p : WobblyProject) (section_start reason : Z) :
  exists q,
    record_failure section_start reason p = Ok tt q /\
    pg_failures (pattern_guessing q) !! section_start
    = Some (mkFailedPatternGuessing section_start reason) /\
    matches q = matches p /\ decimated_frames q = decimated_frames p.
Proof.
  unfold record_failure. msimpl.
  eexists. split; [reflexivity|]. simpl. split; [|auto].
  apply map_insert_new_fresh. apply lookup_delete_eq.
Qed.

Lemma setModified_cases (modified : bool) (p : WobblyProject) :
  setModified modified p = Ok tt p
  \/ setModified modified p = Ok tt (set_is_modified modified p).
Proof. unfold setModified. case_bool_decide; auto. Qed.

(** The checks that open [guessSectionPatternsFromMics], passed. *)
Lemma guess_checks_pass (p : WobblyProject) (section_start : Z) :
  vsize (mics p) <> 0 -> 0 <= section_start < num_frames_source p ->
  is_Some (sections p !! section_start) ->
  forall (k : Meth bool),
    (let* ms := gets mics in
     do* throw_if (bool_decide (vsize ms = 0)) NoMics in
     do* check_frame section_start in
     let* secs := gets sections in
     do* throw_if (bool_decide (secs !! section_start = None)) NoSuchSection in
     k) p
    = k p.
Proof.
  intros Hmics Hstart [sec Hsec] k. msimpl.
  rewrite bool_decide_eq_false_2 by exact Hmics. msimpl.
  rewrite (bind_ok _ _ _ _ _ (check_frame_ok section_start p Hstart)). msimpl.
  rewrite bool_decide_eq_false_2 by congruence. msimpl. reflexivity.
Qed.

(** A section shorter than [minimum_length] is no error: the failure is
    recorded and the guess returns [false]. *)
Lemma guess_section_too_short (p : WobblyProject)
    (section_start minimum_length use_patterns drop_duplicate section_end : Z) :
  vsize (mics p) <> 0 -> 0 <= section_start < num_frames_source p ->
  is_Some (sections p !! section_start) ->
  getSectionEnd section_start p = Ok section_end p ->
  section_end - section_start - 1 < minimum_length ->
  exists q,
    guessSectionPatternsFromMics section_start minimum_length use_patterns
      drop_duplicate p = Ok false q /\
    pg_failures (pattern_guessing q) !! section_start
    = Some (mkFailedPatternGuessing section_start SectionTooShort) /\
    matches q = matches p /\ decimated_frames q = decimated_frames p.
Proof.
  intros Hmics Hstart Hsec Hend Hshort.
  unfold guessSectionPatternsFromMics.
  rewrite (guess_checks_pass p section_start Hmics Hstart Hsec).
  rewrite (bind_ok _ _ _ _ _ Hend).
  rewrite decide_True by exact Hshort.
  destruct (record_failure_run p section_start SectionTooShort)
    as (q & Hrun & Hfail & Hm & Hdf).
  rewrite (bind_ok _ _ _ _ _ Hrun).
  destruct (setModified_cases true q) as [Hmod|Hmod];
    rewrite (bind_ok _ _ _ _ _ Hmod); msimpl;
    eexists; (split; [reflexivity|]); simpl; auto.
Qed.

(** A best pattern whose [mic_dev] is above the length of the section is no
    error either: the failure is recorded and the guess returns [false]. *)
Lemma guess_ambiguous_pattern (p : WobblyProject)
    (section_start minimum_length use_patterns drop_duplicate section_end : Z)
    (patterns : list Pattern) (best_mic_dev best_pattern : Z)
    (best : Pattern) :
  vsize (mics p) <> 0 -> 0 <= section_start < num_frames_source p ->
  is_Some (sections p !! section_start) ->
  getSectionEnd section_start p = Ok section_end p ->
  ~ section_end - section_start - 1 < minimum_length ->
  search_patterns section_start section_end use_patterns p
  = Ok (patterns, best_mic_dev, best_pattern) p ->
  vec_at patterns best_pattern = Some best ->
  mic_dev best > section_end - section_start - 1 ->
  exists q,
    guessSectionPatternsFromMics section_start minimum_length use_patterns
      drop_duplicate p = Ok false q /\
    pg_failures (pattern_guessing q) !! section_start
    = Some (mkFailedPatternGuessing section_start AmbiguousMatchPattern) /\
    matches q = matches p /\ decimated_frames q = decimated_frames p.
Proof.
  intros Hmics Hstart Hsec Hend Hlong Hsearch Hbest Hdev.
  unfold guessSectionPatternsFromMics.
  rewrite (guess_checks_pass p section_start Hmics Hstart Hsec).
  rewrite (bind_ok _ _ _ _ _ Hend).
  rewrite decide_False by exact Hlong.
  rewrite (bind_ok _ _ _ _ _ Hsearch). rewrite Hbest. msimpl.
  rewrite decide_True by exact Hdev.
  destruct (record_failure_run p section_start AmbiguousMatchPattern)
    as (q & Hrun & Hfail & Hm & Hdf).
  rewrite (bind_ok _ _ _ _ _ Hrun).
  destruct (setModified_cases true q) as [Hmod|Hmod];
    rewrite (bind_ok _ _ _ _ _ Hmod); msimpl;
    eexists; (split; [reflexivity|]); simpl; auto.
Qed.

(** With no pattern enabled there is no best pattern: the guess reads
    [patterns[-1]]. *)
Example guess_without_patterns :
  exists p0,
    short_last_section (new_project 12 10) = Ok tt p0 /\
    guessSectionPatternsFromMics 0 1 0 DropFirstDuplicate p0 = Undefined.
Proof. eexists. split; vm_compute; reflexivity. Qed.

(** ** Ordered lookups *)

Lemma head_filter_sorted (P : Z -> Prop) `{!forall x, Decision (P x)}
    (l : list Z) :
  StronglySorted Z.le l ->
  match head (filter P l) with
  | Some i => i ∈ l /\ P i /\ forall j, j ∈ l -> P j -> i <= j
  | None => forall j, j ∈ l -> ~ P j
  end.
Proof.
  induction 1 as [|x l Hs IH Hall].
  - simpl. intros j Hj. inversion Hj.
  - rewrite filter_cons. destruct (decide (P x)) as [Hx|Hx].
    + simpl. split; [left|]. split; [exact Hx|].
      intros j Hj _. apply elem_of_cons in Hj as [->|Hj]; [lia|].
      rewrite Forall_forall in Hall. apply Hall, Hj.
    + destruct (head (filter P l)) as [i|].
      * destruct IH as (Hi & HPi & Hmin). split; [right; exact Hi|].
        split; [exact HPi|]. intros j Hj HPj.
        apply elem_of_cons in Hj as [->|Hj]; [contradiction|].
        apply Hmin; assumption.
      * intros j Hj. apply elem_of_cons in Hj as [->|Hj]; [exact Hx|].
        apply IH, Hj.
Qed.

Lemma last_filter_sorted (P : Z -> Prop) `{!forall x, Decision (P x)}
    (l : list Z) :
  StronglySorted Z.le l ->
  match last (filter P l) with
  | Some i => i ∈ l /\ P i /\ forall j, j ∈ l -> P j -> j <= i
  | None => forall j, j ∈ l -> ~ P j
  end.
Proof.
  induction 1 as [|x l Hs IH Hall].
  - simpl. intros j Hj. inversion Hj.
  - rewrite Forall_forall in Hall.
    rewrite filter_cons. destruct (decide (P x)) as [Hx|Hx].
    + rewrite last_cons. destruct (last (filter P l)) as [i|].
      * destruct IH as (Hi & HPi & Hmax). split; [right; exact Hi|].
        split; [exact HPi|]. intros j Hj HPj.
        apply elem_of_cons in Hj as [->|Hj]; [apply Hall, Hi|].
        apply Hmax; assumption.
      * split; [left|]. split; [exact Hx|]. intros j Hj HPj.
        apply elem_of_cons in Hj as [->|Hj]; [lia|].
        exfalso. exact (IH j Hj HPj).
    + destruct (last (filter P l)) as [i|].
      * destruct IH as (Hi & HPi & Hmax). split; [right; exact Hi|].
        split; [exact HPi|]. intros j Hj HPj.
        apply elem_of_cons in Hj as [->|Hj]; [contradiction|].
        apply Hmax; assumption.
      * intros j Hj. apply elem_of_cons in Hj as [->|Hj]; [exact Hx|].
        apply IH, Hj.
Qed.

Lemma ordered_keys_sorted {A} (m : gmap Z A) :
  StronglySorted Z.le (ordered_keys m).
Proof. apply StronglySorted_merge_sort; apply _. Qed.

Lemma elem_of_ordered_keys {A} (m : gmap Z A) (k : Z) :
  k ∈ ordered_keys m <-> is_Some (m !! k).
Proof.
  unfold ordered_keys. rewrite merge_sort_Permutation.
  rewrite elem_of_elements. apply elem_of_dom.
Qed.

Lemma ordered_keys_NoDup {A} (m : gmap Z A) : NoDup (ordered_keys m).
Proof.
  unfold ordered_keys. rewrite merge_sort_Permutation. apply NoDup_elements.
Qed.

Lemma ordered_elements_sorted (s : gset Z) :
  StronglySorted Z.le (ordered_elements s).
Proof. apply StronglySorted_merge_sort; apply _. Qed.

Lemma elem_of_ordered_elements (s : gset Z) (k : Z) :
  k ∈ ordered_elements s <-> k ∈ s.
Proof.
  unfold ordered_elements. rewrite merge_sort_Permutation.
  apply elem_of_elements.
Qed.

Lemma ordered_elements_NoDup (s : gset Z) : NoDup (ordered_elements s).
Proof.
  unfold ordered_elements. rewrite merge_sort_Permutation.
  apply NoDup_elements.
Qed.

(** [upper_bound] finds the least key above [k]. *)
Lemma upper_bound_spec {A} (m : gmap Z A) (k : Z) :
  match upper_bound m k with
  | Some (i, a) =>
      m !! i = Some a /\ k < i /\
      forall j, is_Some (m !! j) -> k < j -> i <= j
  | None => forall j, is_Some (m !! j) -> j <= k
  end.
Proof.
  unfold upper_bound.
  pose proof (head_filter_sorted (fun i => k < i) (ordered_keys m)
                (ordered_keys_sorted m)) as H.
  destruct (filter (fun i => k < i) (ordered_keys m)) as [|i rest]; simpl in H.
  - intros j Hj. specialize (H j (proj2 (elem_of_ordered_keys m j) Hj)). lia.
  - destruct H as (Hi & Hki & Hmin).
    apply elem_of_ordered_keys in Hi as [a Ha]. rewrite Ha. simpl.
    split; [first [exact Ha|reflexivity]|]. split; [exact Hki|].
    intros j Hj Hkj. apply Hmin; [apply elem_of_ordered_keys, Hj|exact Hkj].
Qed.

(** Stepping back from [upper_bound] finds the greatest key not above
    [k]. *)
Lemma before_upper_bound_spec {A} (m : gmap Z A) (k : Z) :
  match before_upper_bound m k with
  | Some (i, a) =>
      m !! i = Some a /\ i <= k /\
      forall j, is_Some (m !! j) -> j <= k -> j <= i
  | None => forall j, is_Some (m !! j) -> k < j
  end.
Proof.
  unfold before_upper_bound.
  pose proof (last_filter_sorted (fun i => i <= k) (ordered_keys m)
                (ordered_keys_sorted m)) as H.
  destruct (last (filter (fun i => i <= k) (ordered_keys m))) as [i|].
  - destruct H as (Hi & Hki & Hmax).
    apply elem_of_ordered_keys in Hi as [a Ha]. rewrite Ha. simpl.
    split; [first [exact Ha|reflexivity]|]. split; [exact Hki|].
    intros j Hj Hkj. apply Hmax; [apply elem_of_ordered_keys, Hj|exact Hkj].
  - intros j Hj. specialize (H j (proj2 (elem_of_ordered_keys m j) Hj)). lia.
Qed.

Lemma set_upper_bound_spec (s : gset Z) (k : Z) :
  match set_upper_bound s k with
  | Some i => i ∈ s /\ k < i /\ forall j, j ∈ s -> k < j -> i <= j
  | None => forall j, j ∈ s -> j <= k
  end.
Proof.
  unfold set_upper_bound.
  pose proof (head_filter_sorted (fun i => k < i) (ordered_elements s)
                (ordered_elements_sorted s)) as H.
  destruct (head (filter (fun i => k < i) (ordered_elements s))) as [i|].
  - destruct H as (Hi & Hki & Hmin). split; [apply elem_of_ordered_elements, Hi|].
    split; [exact Hki|]. intros j Hj Hkj.
    apply Hmin; [apply elem_of_ordered_elements, Hj|exact Hkj].
  - intros j Hj. specialize (H j (proj2 (elem_of_ordered_elements s j) Hj)). lia.
Qed.

Lemma set_before_lower_bound_spec (s : gset Z) (k : Z) :
  match set_before_lower_bound s k with
  | Some i => i ∈ s /\ i < k /\ forall j, j ∈ s -> j < k -> j <= i
  | None => forall j, j ∈ s -> k <= j
  end.
Proof.
  unfold set_before_lower_bound.
  pose proof (last_filter_sorted (fun i => i < k) (ordered_elements s)
                (ordered_elements_sorted s)) as H.
  destruct (last (filter (fun i => i < k) (ordered_elements s))) as [i|].
  - destruct H as (Hi & Hki & Hmax). split; [apply elem_of_ordered_elements, Hi|].
    split; [exact Hki|]. intros j Hj Hkj.
    apply Hmax; [apply elem_of_ordered_elements, Hj|exact Hkj].
  - intros j Hj. specialize (H j (proj2 (elem_of_ordered_elements s j) Hj)). lia.
Qed.

(** ** Sections *)

Lemma setModified_frames (modified : bool) (p : WobblyProject) :
  exists q, setModified modified p = Ok tt q
            /\ q = set_is_modified (is_modified q) p.
Proof.
  unfold setModified. case_bool_decide.
  - eexists. split; [reflexivity|]. reflexivity.
  - exists p. split; [reflexivity|]. destruct p; reflexivity.
Qed.

Lemma new_project_sections_wf (n : positive) (steps : nat) :
  sections_wf (new_project n steps).
Proof.
  split.
  - exists (mkSection 0 []). reflexivity.
  - intros k sec Hk. simpl in Hk.
    apply lookup_singleton_Some in Hk as [<- <-]. simpl. lia.
Qed.

(** X1.  The sections stay as every method expects them: after
    [addSection] and after [deleteSection], whether they return or throw,
    a section still starts at frame 0 (the first section is never deleted),
    and every section is kept under its own start, a frame of the clip. *)
Theorem sections_wf_kept (p : WobblyProject) :
  sections_wf p ->
  (forall section,
     exists q, project_after (addSection section p) = Some q
               /\ sections_wf q) /\
  (forall section_start,
     exists q, project_after (deleteSection section_start p) = Some q
               /\ sections_wf q).
Proof.
  intros [H0 Hkeys]. split.
  - intros section. unfold addSection.
    destruct (decide (0 <= sec_start section < num_frames_source p)) as [Hin|Hout].
    + rewrite (bind_ok _ _ _ _ _ (check_frame_ok _ p Hin)). msimpl.
      destruct (setModified_frames true
                  (set_sections
                     (map_insert_new (sec_start section) section (sections p)) p))
        as (q & Hq & Hq').
      rewrite Hq. exists q. split; [reflexivity|]. rewrite Hq'. split.
      * simpl. destruct H0 as [s0 Hs0]. exists s0.
        apply map_insert_new_keeps, Hs0.
      * intros k sec. simpl. rewrite map_insert_new_lookup.
        case_decide as Hk.
        -- subst k. destruct (sections p !! sec_start section) as [x|] eqn:Hx.
           ++ intros [= <-]. apply Hkeys, Hx.
           ++ intros [= <-]. split; [reflexivity|exact Hin].
        -- apply Hkeys.
    + rewrite (bind_raise _ _ _ _ _ (check_frame_bad _ p Hout)).
      exists p. split; [reflexivity|]. split; assumption.
  - intros section_start. unfold deleteSection.
    destruct (decide (0 <= section_start < num_frames_source p)) as [Hin|Hout].
    + rewrite (bind_ok _ _ _ _ _ (check_frame_ok _ p Hin)). msimpl.
      case_bool_decide as Hnone; msimpl.
      { exists p. split; [reflexivity|]. split; assumption. }
      destruct (decide (section_start > 0)) as [Hpos|Hzero]; msimpl.
      * destruct (setModified_frames true
                    (set_sections (delete section_start (sections p)) p))
          as (q & Hq & Hq').
        rewrite Hq. exists q. split; [reflexivity|]. rewrite Hq'. split.
        -- simpl. rewrite lookup_delete_ne by lia. exact H0.
        -- intros k sec. simpl. intros Hk.
           apply lookup_delete_Some in Hk as [_ Hk]. apply Hkeys, Hk.
      * destruct (setModified_frames true p) as (q & Hq & Hq').
        rewrite Hq. exists q. split; [reflexivity|]. rewrite Hq'.
        split; assumption.
    + rewrite (bind_raise _ _ _ _ _ (check_frame_bad _ p Hout)).
      exists p. split; [reflexivity|]. split; assumption.
Qed.

Lemma sections_wf_kept_witness :
  (forall section,
     exists q, project_after (addSection section (new_project 10 5)) = Some q
               /\ sections_wf q) /\
  (forall section_start,
     exists q, project_after (deleteSection section_start (new_project 10 5))
               = Some q
               /\ sections_wf q).
Proof. exact (sections_wf_kept (new_project 10 5) (new_project_sections_wf 10 5)). Defined.

(** The section that [findSection] returns and the end that [getSectionEnd]
    returns, for a frame of the clip. *)
Lemma findSection_run (p : WobblyProject) (frame : Z) :
  sections_wf p -> 0 <= frame < num_frames_source p ->
  exists sec section_end,
    findSection frame p = Ok sec p /\
    getSectionEnd frame p = Ok section_end p /\
    sections p !! sec_start sec = Some sec /\
    sec_start sec <= frame < section_end /\
    section_end <= num_frames_source p /\
    (section_end < num_frames_source p -> is_Some (sections p !! section_end)) /\
    (forall k, is_Some (sections p !! k) ->
               k <= sec_start sec \/ section_end <= k).
Proof.
  intros [H0 Hkeys] Hin.
  pose proof (before_upper_bound_spec (sections p) frame) as Hb.
  pose proof (upper_bound_spec (sections p) frame) as Hu.
  unfold findSection, getSectionEnd, findNextSection.
  rewrite !(bind_ok _ _ _ _ _ (check_frame_ok _ p Hin)). msimpl.
  rewrite !(bind_ok _ _ _ _ _ (check_frame_ok _ p Hin)). msimpl.
  destruct (before_upper_bound (sections p) frame) as [[i sec]|].
  2: { specialize (Hb 0 H0). lia. }
  destruct Hb as (Hsec & Hle & Hmax).
  destruct (Hkeys i sec Hsec) as [Hstart Hi]. simpl.
  destruct (upper_bound (sections p) frame) as [[e next]|]; simpl.
  - destruct Hu as (Hnext & Hlt & Hmin).
    destruct (Hkeys e next Hnext) as [Hstart' He].
    exists sec, (sec_start next). rewrite Hstart, Hstart'. msimpl.
    split; [reflexivity|]. split; [reflexivity|].
    split; [exact Hsec|]. split; [lia|]. split; [lia|].
    split; [intros _; eexists; exact Hnext|].
    intros k Hk. destruct (decide (k <= frame)); [left; apply Hmax; assumption|].
    right. apply Hmin; [exact Hk|lia].
  - exists sec, (num_frames_source p). rewrite Hstart. msimpl.
    split; [reflexivity|]. split; [reflexivity|].
    split; [exact Hsec|]. split; [lia|]. split; [lia|].
    split; [lia|].
    intros k Hk. left. apply Hmax; [exact Hk|]. apply Hu, Hk.
Qed.

(** X2.  In a project whose sections are as expected, every frame of the
    clip lies in the section that [findSection] returns and before the end
    that [getSectionEnd] returns, and no section starts in between: the
    section found starts at or before the frame, the end is after the frame
    and at most the number of frames, and is the start of the next section
    or the end of the clip. *)
Theorem findSection_brackets_frame (p : WobblyProject) (frame : Z) :
  sections_wf p -> 0 <= frame < num_frames_source p ->
  exists sec section_end,
    findSection frame p = Ok sec p /\
    getSectionEnd frame p = Ok section_end p /\
    sections p !! sec_start sec = Some sec /\
    sec_start sec <= frame < section_end /\
    section_end <= num_frames_source p /\
    (section_end < num_frames_source p -> is_Some (sections p !! section_end)) /\
    (forall k, is_Some (sections p !! k) ->
               k <= sec_start sec \/ section_end <= k).
Proof. apply findSection_run. Qed.

Lemma findSection_brackets_frame_witness :
  exists sec section_end,
    findSection 7 (new_project 10 5) = Ok sec (new_project 10 5) /\
    getSectionEnd 7 (new_project 10 5) = Ok section_end (new_project 10 5) /\
    sections (new_project 10 5) !! sec_start sec = Some sec /\
    sec_start sec <= 7 < section_end /\
    section_end <= num_frames_source (new_project 10 5) /\
    (section_end < num_frames_source (new_project 10 5) ->
     is_Some (sections (new_project 10 5) !! section_end)) /\
    (forall k, is_Some (sections (new_project 10 5) !! k) ->
               k <= sec_start sec \/ section_end <= k).
Proof.
  apply (findSection_brackets_frame (new_project 10 5) 7).
  - apply new_project_sections_wf.
  - simpl. lia.
Defined.

(** ** Cycling and resetting matches *)

Lemma getMatch_run (p : WobblyProject) (frame : Z) :
  matches_sized p -> (vsize (matches p) = 0 -> original_matches_sized p) ->
  0 <= frame < num_frames_source p ->
  exists m, getMatch frame p = Ok m p /\
            (vsize (matches p) <> 0 -> vec_at (matches p) frame = Some m) /\
            (vsize (matches p) = 0 -> original_match_at p frame = Some m).
Proof.
  intros Hm Ho Hin. unfold getMatch.
  rewrite (bind_ok _ _ _ _ _ (check_frame_ok _ p Hin)). msimpl.
  unfold original_match_at.
  destruct (decide (vsize (matches p) ≠ 0)) as [Hne|He].
  - destruct Hm as [Hm|Hm]; [contradiction|].
    destruct (vec_at (matches p) frame) as [m|] eqn:Hat.
    + exists m. split; [reflexivity|]. split; [reflexivity|]. intros; contradiction.
    + exfalso. unfold vec_at in Hat. rewrite decide_True in Hat by lia.
      apply lookup_ge_None in Hat. unfold vsize in Hm. lia.
  - destruct (decide (vsize (original_matches p) ≠ 0)) as [Hone|Hoe].
    + destruct Ho as [Ho|Ho]; [lia|contradiction|].
      destruct (vec_at (original_matches p) frame) as [m|] eqn:Hat.
      * exists m. split; [reflexivity|]. split; [intros; contradiction|].
        reflexivity.
      * exfalso. unfold vec_at in Hat. rewrite decide_True in Hat by lia.
        apply lookup_ge_None in Hat. unfold vsize in Ho. lia.
    + exists "c"%char. split; [reflexivity|]. split; [intros; contradiction|].
      reflexivity.
Qed.

Lemma cycle_loop_ext (fuel : nat) (next : ascii -> ascii)
    (skip skip' : ascii -> bool) (m : ascii) :
  (forall x, skip x = skip' x) ->
  cycle_loop fuel next skip m = cycle_loop fuel next skip' m.
Proof.
  intros H. revert m. induction fuel as [|fuel IH]; intros m; simpl.
  - reflexivity.
  - rewrite H. destruct (skip' (next m)); [apply IH|reflexivity].
Qed.

Lemma next_match_cases (m : ascii) :
  (m = "c" /\ next_match m = "n")%char \/ (m = "n" /\ next_match m = "b")%char
  \/ (m = "b" /\ next_match m = "p")%char \/ (m = "p" /\ next_match m = "u")%char
  \/ (isValidMatchChar m = true -> m = "u"%char) /\ next_match m = "c"%char.
Proof.
  unfold next_match. repeat case_decide; subst; auto 10.
  do 4 right. split; [|reflexivity]. unfold isValidMatchChar.
  intros Hv. apply bool_decide_eq_true in Hv. naive_solver.
Qed.

Lemma next_match_cnb_cases (m : ascii) :
  (m = "c" /\ next_match_cnb m = "n")%char
  \/ (m = "n" /\ next_match_cnb m = "b")%char
  \/ next_match_cnb m = "c"%char.
Proof. unfold next_match_cnb. repeat case_decide; subst; auto. Qed.

(** The loop of [cycleMatch] ends, at a match character that the frame may
    hold. *)
Lemma cycle_loop_next_match (frame n : Z) (m0 : ascii) :
  exists m,
    cycle_loop 5 next_match
      (fun m => bool_decide (frame = 0 /\ (m = "b"%char \/ m = "p"%char))
                || bool_decide (frame = n - 1 /\ (m = "n"%char \/ m = "u"%char)))
      m0 = Some m /\
    isValidMatchChar m = true /\
    (frame = 0 -> m <> "b"%char /\ m <> "p"%char) /\
    (frame = n - 1 -> m <> "n"%char /\ m <> "u"%char) /\
    (frame <> 0 -> frame <> n - 1 -> m = next_match m0).
Proof.
  rewrite (cycle_loop_ext _ _ _
             (fun m => bool_decide (frame = 0)
                         && bool_decide (m = "b"%char \/ m = "p"%char)
                       || bool_decide (frame = n - 1)
                          && bool_decide (m = "n"%char \/ m = "u"%char)))
    by (intros x; rewrite !bool_decide_and; reflexivity).
  change (cycle_loop 5 next_match ?s m0)
    with (let m := next_match m0 in
          if s m then cycle_loop 4 next_match s m else Some m).
  destruct (bool_decide_reflect (frame = 0)) as [H0|H0];
    destruct (bool_decide_reflect (frame = n - 1)) as [Hl|Hl];
    destruct (next_match_cases m0) as [[_ H]|[[_ H]|[[_ H]|[[_ H]|[_ H]]]]];
    rewrite H; eexists; (split; [vm_compute; reflexivity|]);
    (split; [reflexivity|]);
    repeat split; intros; try discriminate; try contradiction; try congruence.
Qed.

Lemma cycle_loop_next_match_cnb (frame n : Z) (m0 : ascii) :
  exists m,
    cycle_loop 3 next_match_cnb
      (fun m => bool_decide (frame = 0 /\ m = "b"%char)
                || bool_decide (frame = n - 1 /\ m = "n"%char))
      m0 = Some m /\
    (m = "c" \/ m = "n" \/ m = "b")%char /\
    (frame = 0 -> m <> "b"%char) /\
    (frame = n - 1 -> m <> "n"%char) /\
    (frame <> 0 -> frame <> n - 1 -> m = next_match_cnb m0).
Proof.
  rewrite (cycle_loop_ext _ _ _
             (fun m => bool_decide (frame = 0) && bool_decide (m = "b"%char)
                       || bool_decide (frame = n - 1)
                          && bool_decide (m = "n"%char)))
    by (intros x; rewrite !bool_decide_and; reflexivity).
  change (cycle_loop 3 next_match_cnb ?s m0)
    with (let m := next_match_cnb m0 in
          if s m then cycle_loop 2 next_match_cnb s m else Some m).
  destruct (bool_decide_reflect (frame = 0)) as [H0|H0];
    destruct (bool_decide_reflect (frame = n - 1)) as [Hl|Hl];
    destruct (next_match_cnb_cases m0) as [[_ H]|[[_ H]|H]];
    rewrite H; eexists; (split; [vm_compute; reflexivity|]);
    (split; [auto|]);
    repeat split; intros; try discriminate; try contradiction; try congruence.
Qed.

Lemma setMatch_then_modified (p : WobblyProject) (frame : Z) (m : ascii) :
  matches_sized p -> 0 <= frame < num_frames_source p ->
  isValidMatchChar m = true ->
  exists q,
    (do* setMatch frame m in setModified true) p = Ok tt q /\
    matches q
    = <[Z.to_nat frame := coerced_match (num_frames_source p) frame m]>
        (allocated_matches p) /\
    num_frames_source q = num_frames_source p /\
    original_matches q = original_matches p.
Proof.
  intros Hm Hin Hv.
  rewrite (bind_ok _ _ _ _ _ (setMatch_ok p frame m Hm Hin Hv)).
  destruct (setModified_frames true
              (set_matches
                 (<[Z.to_nat frame := coerced_match (num_frames_source p) frame m]>
                    (allocated_matches p)) p)) as (q & Hq & Hq').
  exists q. split; [exact Hq|]. rewrite Hq'. auto.
Qed.

Lemma coerced_match_id (n frame : Z) (m : ascii) :
  (frame = 0 -> m <> "b"%char /\ m <> "p"%char) ->
  (frame = n - 1 -> m <> "n"%char /\ m <> "u"%char) ->
  coerced_match n frame m = m.
Proof.
  intros H0 Hl. unfold coerced_match.
  repeat case_decide; try reflexivity; naive_solver.
Qed.

Lemma cycleMatch_run (p : WobblyProject) (frame : Z) :
  matches_sized p -> (vsize (matches p) = 0 -> original_matches_sized p) ->
  0 <= frame < num_frames_source p ->
  exists q m0 m,
    getMatch frame p = Ok m0 p /\
    (vsize (matches p) <> 0 -> vec_at (matches p) frame = Some m0) /\
    cycleMatch frame p = Ok tt q /\
    matches q = <[Z.to_nat frame := m]> (allocated_matches p) /\
    num_frames_source q = num_frames_source p /\
    isValidMatchChar m = true /\
    (frame = 0 -> m <> "b"%char /\ m <> "p"%char) /\
    (frame = num_frames_source p - 1 -> m <> "n"%char /\ m <> "u"%char) /\
    (frame <> 0 -> frame <> num_frames_source p - 1 -> m = next_match m0).
Proof.
  intros Hm Ho Hin.
  destruct (getMatch_run p frame Hm Ho Hin) as (m0 & Hget & Hread & _).
  destruct (cycle_loop_next_match frame (num_frames_source p) m0)
    as (m & Hloop & Hv & H0 & Hl & Hnext).
  destruct (setMatch_then_modified p frame m Hm Hin Hv)
    as (q & Hq & Hmq & Hn & _).
  exists q, m0, m. split; [exact Hget|]. split; [exact Hread|].
  rewrite (coerced_match_id _ _ _ H0 Hl) in Hmq.
  split; [|auto 10].
  unfold cycleMatch.
  rewrite (bind_ok _ _ _ _ _ (check_frame_ok _ p Hin)).
  rewrite (bind_ok _ _ _ _ _ Hget). unfold getNumFrames. msimpl.
  rewrite Hloop. msimpl. exact Hq.
Qed.

(** X3.  [cycleMatch] on a frame of the clip always returns (its loop
    ends), and the match it stores at the frame is a match character that
    the frame may hold: never [b] or [p] at frame 0, never [n] or [u] at the
    last frame.  At any other frame it is the successor of the match the
    frame had, in the order c, n, b, p, u, c.  No other frame of the
    vector is written. *)
Theorem cycleMatch_keeps_boundary (p : WobblyProject) (frame : Z) :
  matches_sized p -> original_matches_sized p ->
  0 <= frame < num_frames_source p ->
  exists q m0 m,
    getMatch frame p = Ok m0 p /\
    cycleMatch frame p = Ok tt q /\
    matches q = <[Z.to_nat frame := m]> (allocated_matches p) /\
    vec_at (matches q) frame = Some m /\
    isValidMatchChar m = true /\
    (frame = 0 -> m <> "b"%char /\ m <> "p"%char) /\
    (frame = num_frames_source p - 1 -> m <> "n"%char /\ m <> "u"%char) /\
    (frame <> 0 -> frame <> num_frames_source p - 1 -> m = next_match m0).
Proof.
  intros Hm Ho Hin.
  destruct (cycleMatch_run p frame Hm (fun _ => Ho) Hin)
    as (q & m0 & m & Hget & _ & Hrun & Hmq & Hn & Hrest).
  exists q, m0, m. split; [exact Hget|]. split; [exact Hrun|].
  split; [exact Hmq|]. split; [|exact Hrest].
  rewrite Hmq. apply vec_at_insert_eq.
  rewrite allocated_matches_size by (assumption || lia). exact Hin.
Qed.

Lemma new_project_original_matches_sized (n : positive) (steps : nat) :
  original_matches_sized (new_project n steps).
Proof. left. reflexivity. Qed.

Lemma cycleMatch_keeps_boundary_witness :
  exists q m0 m,
    getMatch 0 (new_project 5 10) = Ok m0 (new_project 5 10) /\
    cycleMatch 0 (new_project 5 10) = Ok tt q /\
    matches q = <[Z.to_nat 0 := m]> (allocated_matches (new_project 5 10)) /\
    vec_at (matches q) 0 = Some m /\
    isValidMatchChar m = true /\
    (0 = 0 -> m <> "b"%char /\ m <> "p"%char) /\
    (0 = num_frames_source (new_project 5 10) - 1 ->
     m <> "n"%char /\ m <> "u"%char) /\
    (0 <> 0 -> 0 <> num_frames_source (new_project 5 10) - 1 ->
     m = next_match m0).
Proof.
  apply (cycleMatch_keeps_boundary (new_project 5 10) 0).
  - apply new_project_matches_sized.
  - apply new_project_original_matches_sized.
  - simpl. lia.
Defined.

(** X4.  [cycleMatchCNB] on a frame of the clip always returns, and the
    match it stores is [c], [n] or [b]: never [b] at frame 0, never [n] at
    the last frame; at any other frame it is the successor of the match the
    frame had in the order c, n, b, c, any other match being followed by
    [c]. *)
Theorem cycleMatchCNB_keeps_boundary (p : WobblyProject) (frame : Z) :
  matches_sized p -> original_matches_sized p ->
  0 <= frame < num_frames_source p ->
  exists q m0 m,
    getMatch frame p = Ok m0 p /\
    cycleMatchCNB frame p = Ok tt q /\
    matches q = <[Z.to_nat frame := m]> (allocated_matches p) /\
    (m = "c" \/ m = "n" \/ m = "b")%char /\
    (frame = 0 -> m <> "b"%char) /\
    (frame = num_frames_source p - 1 -> m <> "n"%char) /\
    (frame <> 0 -> frame <> num_frames_source p - 1 ->
     m = next_match_cnb m0).
Proof.
  intros Hm Ho Hin.
  destruct (getMatch_run p frame Hm (fun _ => Ho) Hin) as (m0 & Hget & _).
  destruct (cycle_loop_next_match_cnb frame (num_frames_source p) m0)
    as (m & Hloop & Hcnb & H0 & Hl & Hnext).
  assert (Hv : isValidMatchChar m = true).
  { destruct Hcnb as [->|[->| ->]]; reflexivity. }
  destruct (setMatch_then_modified p frame m Hm Hin Hv)
    as (q & Hq & Hmq & Hn & _).
  exists q, m0, m. split; [exact Hget|].
  rewrite coerced_match_id in Hmq.
  2: { intros Hf. split; [apply H0, Hf|]. destruct Hcnb as [->|[->| ->]]; discriminate. }
  2: { intros Hf. split; [apply Hl, Hf|]. destruct Hcnb as [->|[->| ->]]; discriminate. }
  split.
  - unfold cycleMatchCNB.
    rewrite (bind_ok _ _ _ _ _ (check_frame_ok _ p Hin)).
    rewrite (bind_ok _ _ _ _ _ Hget). unfold getNumFrames. msimpl.
    rewrite Hloop. msimpl. exact Hq.
  - auto.
Qed.

Lemma cycleMatchCNB_keeps_boundary_witness :
  exists q m0 m,
    getMatch 4 (new_project 5 10) = Ok m0 (new_project 5 10) /\
    cycleMatchCNB 4 (new_project 5 10) = Ok tt q /\
    matches q = <[Z.to_nat 4 := m]> (allocated_matches (new_project 5 10)) /\
    (m = "c" \/ m = "n" \/ m = "b")%char /\
    (4 = 0 -> m <> "b"%char) /\
    (4 = num_frames_source (new_project 5 10) - 1 -> m <> "n"%char) /\
    (4 <> 0 -> 4 <> num_frames_source (new_project 5 10) - 1 ->
     m = next_match_cnb m0).
Proof.
  apply (cycleMatchCNB_keeps_boundary (new_project 5 10) 4).
  - apply new_project_matches_sized.
  - apply new_project_original_matches_sized.
  - simpl. lia.
Defined.

Lemma next_match_five_times (m : ascii) :
  isValidMatchChar m = true -> Nat.iter 5 next_match m = m.
Proof.
  unfold isValidMatchChar. intros Hv. apply bool_decide_eq_true in Hv.
  destruct Hv as [->|[->|[->|[->| ->]]]]; reflexivity.
Qed.

Lemma cycleMatch_iter (k : nat) (p : WobblyProject) (frame : Z) (m0 : ascii) :
  vsize (matches p) = num_frames_source p ->
  0 < frame < num_frames_source p - 1 ->
  vec_at (matches p) frame = Some m0 ->
  exists q,
    times k (cycleMatch frame) p = Ok tt q /\
    matches q = <[Z.to_nat frame := Nat.iter k next_match m0]> (matches p) /\
    num_frames_source q = num_frames_source p.
Proof.
  revert p m0. induction k as [|k IH]; intros p m0 Hsize Hin Hat.
  - exists p. split; [reflexivity|]. split; [|reflexivity].
    simpl. symmetry. apply list_insert_id.
    unfold vec_at in Hat. rewrite decide_True in Hat by lia. exact Hat.
  - assert (Hne : vsize (matches p) <> 0) by lia.
    destruct (cycleMatch_run p frame) as
      (q & m0' & m & _ & Hread & Hrun & Hmq & Hn & _ & _ & _ & Hnext);
      [right; exact Hsize|intros; contradiction|lia|].
    specialize (Hread Hne). rewrite Hat in Hread. injection Hread as <-.
    rewrite Hnext in Hmq by lia.
    assert (Halloc : allocated_matches p = matches p).
    { unfold allocated_matches. rewrite decide_False by exact Hne. reflexivity. }
    rewrite Halloc in Hmq.
    assert (Hlen : vsize (matches q) = num_frames_source q).
    { rewrite Hmq, Hn. unfold vsize in *. rewrite length_insert. exact Hsize. }
    destruct (IH q (next_match m0) Hlen) as (r & Hr & Hmr & Hnr).
    + rewrite Hn. exact Hin.
    + rewrite Hmq. apply vec_at_insert_eq. lia.
    + exists r. split.
      * simpl. rewrite (bind_ok _ _ _ _ _ Hrun). exact Hr.
      * split; [|congruence].
        rewrite Hmr, Hmq, list_insert_insert_eq.
        rewrite Nat.iter_succ_r. reflexivity.
Qed.

(** X5.  On a frame that is neither the first nor the last of the clip and
    holds a match character, five calls of [cycleMatch] bring the matches
    back to what they were: the frame has gone through the five match
    characters once. *)
Theorem cycleMatch_five_times (p : WobblyProject) (frame : Z) (m0 : ascii) :
  vsize (matches p) = num_frames_source p ->
  0 < frame < num_frames_source p - 1 ->
  vec_at (matches p) frame = Some m0 -> isValidMatchChar m0 = true ->
  exists q, times 5 (cycleMatch frame) p = Ok tt q /\ matches q = matches p.
Proof.
  intros Hsize Hin Hat Hv.
  destruct (cycleMatch_iter 5 p frame m0 Hsize Hin Hat) as (q & Hq & Hmq & _).
  exists q. split; [exact Hq|]. rewrite Hmq, (next_match_five_times _ Hv).
  apply list_insert_id.
  unfold vec_at in Hat. rewrite decide_True in Hat by lia. exact Hat.
Qed.

Lemma cycleMatch_five_times_witness :
  exists p q,
    setMatch 2 "n" (new_project 5 10) = Ok tt p /\
    times 5 (cycleMatch 2) p = Ok tt q /\ matches q = matches p.
Proof.
  eexists. 
  assert (H : setMatch 2 "n" (new_project 5 10)
              = Ok tt (set_matches (<[2%nat := "n"%char]> (replicate 5 "c"%char))
                         (new_project 5 10))) by reflexivity.
  destruct (cycleMatch_five_times
              (set_matches (<[2%nat := "n"%char]> (replicate 5 "c"%char))
                 (new_project 5 10)) 2 "n"%char) as (q & Hq & Hmq);
    [reflexivity|simpl; lia|reflexivity|reflexivity|].
  exists q. split; [exact H|]. split; [exact Hq|exact Hmq].
Defined.

(** ** Resetting matches and the original matches *)

Lemma vec_at_app_take_drop (ms src : list ascii) (a len j : nat) :
  (a + len <= length ms)%nat -> (a + len <= length src)%nat ->
  (take a ms ++ take len (drop a src) ++ drop (a + len) ms) !! j
  = if decide (a <= j < a + len)%nat then src !! j else ms !! j.
Proof.
  intros Hms Hsrc.
  destruct (decide (j < a)%nat) as [Hlt|Hge].
  - rewrite lookup_app_l by (rewrite length_take; lia).
    rewrite lookup_take_lt by lia. rewrite decide_False by lia. reflexivity.
  - rewrite lookup_app_r by (rewrite length_take; lia).
    rewrite length_take, Nat.min_l by lia.
    destruct (decide (j < a + len)%nat) as [Hin|Hout].
    + rewrite lookup_app_l by (rewrite length_take, length_drop; lia).
      rewrite lookup_take_lt by lia. rewrite lookup_drop.
      rewrite decide_True by lia. f_equal. lia.
    + rewrite lookup_app_r by (rewrite length_take, length_drop; lia).
      rewrite length_take, length_drop, Nat.min_l by lia.
      rewrite lookup_drop. rewrite decide_False by lia. f_equal. lia.
Qed.

Lemma resetRangeMatches_swap (start end_ : Z) (p : WobblyProject) :
  resetRangeMatches end_ start p = resetRangeMatches start end_ p.
Proof.
  unfold resetRangeMatches.
  destruct (decide (end_ > start)), (decide (start > end_)); try lia;
    try reflexivity.
  assert (start = end_) by lia. subst. reflexivity.
Qed.

(** What [resetRangeMatches] leaves in the match vector. *)
Lemma resetRangeMatches_run (p : WobblyProject) (start end_ : Z) :
  matches_sized p -> original_matches_sized p ->
  0 <= start <= end_ -> end_ < num_frames_source p ->
  exists q,
    resetRangeMatches start end_ p = Ok tt q /\
    resetRangeMatches end_ start p = Ok tt q /\
    vsize (matches q) = num_frames_source p /\
    forall j, 0 <= j < num_frames_source p ->
      vec_at (matches q) j
      = if decide (start <= j <= end_) then original_match_at p j
        else vec_at (allocated_matches p) j.
Proof.
  intros Hm Ho Hrange Hend.
  rewrite (resetRangeMatches_swap start end_).
  unfold resetRangeMatches. rewrite (decide_False (P := start > end_)) by lia.
  unfold getNumFrames. msimpl.
  rewrite bool_decide_eq_false_2 by lia. msimpl.
  fold (allocated_matches p). cbn [original_matches set_matches].
  assert (Hsize : vsize (allocated_matches p) = num_frames_source p)
    by (apply allocated_matches_size; [exact Hm|lia]).
  set (src := if decide (vsize (original_matches p) ≠ 0)
              then original_matches p
              else replicate (Z.to_nat (end_ + 1)) "c"%char).
  assert (Hsrc : end_ + 1 <= vsize src).
  { unfold src. case_decide as Hne.
    - destruct Ho as [Ho|Ho]; [contradiction|]. lia.
    - unfold vsize. rewrite length_replicate. lia. }
  unfold vec_copy_range. rewrite decide_True by lia. msimpl.
  destruct (setModified_frames true
              (set_matches
                 (take (Z.to_nat start) (allocated_matches p) ++
                  take (Z.to_nat (end_ - start + 1)) (drop (Z.to_nat start) src) ++
                  drop (Z.to_nat (start + (end_ - start + 1))) (allocated_matches p))
                 p)) as (q & Hq & Hq').
  exists q.
  assert (Hnat : Z.to_nat (start + (end_ - start + 1))
                 = (Z.to_nat start + Z.to_nat (end_ - start + 1))%nat) by lia.
  split; [exact Hq|]. split; [exact Hq|]. rewrite Hq'. simpl. split.
  - unfold vsize in *. rewrite !length_app, !length_take, !length_drop. lia.
  - intros j Hj. unfold vec_at at 1. rewrite decide_True by lia.
    rewrite Hnat, vec_at_app_take_drop by (unfold vsize in *; lia).
    destruct (decide (start <= j <= end_)) as [Hin|Hout].
    + rewrite decide_True by lia. unfold original_match_at, src.
      case_decide as Hne.
      * unfold vec_at. rewrite decide_True by lia. reflexivity.
      * apply lookup_replicate_2. lia.
    + rewrite decide_False by lia. unfold vec_at.
      rewrite decide_True by lia. reflexivity.
Qed.

(** X6.  [resetRangeMatches] on a range of the clip, given in either order,
    leaves every frame of the range with its original match ([c] when the
    project has no original matches) and no boundary coercion, and every
    other frame with what the match vector held, the vector being filled
    with [c] first when it was empty. *)
Theorem resetRangeMatches_spec (p : WobblyProject) (start end_ : Z) :
  matches_sized p -> original_matches_sized p ->
  0 <= start <= end_ -> end_ < num_frames_source p ->
  exists q,
    resetRangeMatches start end_ p = Ok tt q /\
    resetRangeMatches end_ start p = Ok tt q /\
    vsize (matches q) = num_frames_source p /\
    forall j, 0 <= j < num_frames_source p ->
      vec_at (matches q) j
      = if decide (start <= j <= end_) then original_match_at p j
        else vec_at (allocated_matches p) j.
Proof. apply resetRangeMatches_run. Qed.

Lemma resetRangeMatches_spec_witness :
  exists q,
    resetRangeMatches 1 3 (new_project 5 10) = Ok tt q /\
    resetRangeMatches 3 1 (new_project 5 10) = Ok tt q /\
    vsize (matches q) = num_frames_source (new_project 5 10) /\
    forall j, 0 <= j < num_frames_source (new_project 5 10) ->
      vec_at (matches q) j
      = if decide (1 <= j <= 3) then original_match_at (new_project 5 10) j
        else vec_at (allocated_matches (new_project 5 10)) j.
Proof.
  apply (resetRangeMatches_spec (new_project 5 10) 1 3).
  - apply new_project_matches_sized.
  - apply new_project_original_matches_sized.
  - lia.
  - simpl. lia.
Defined.

(** X7.  [setOriginalMatch] stores a match character as it is given, with
    no coercion at the first or the last frame; [getOriginalMatch] reads it
    back, and so does [getMatch] as long as the project has no matches of
    its own.  The matches are not touched. *)
Theorem setOriginalMatch_read_back (p : WobblyProject) (frame : Z) (m : ascii) :
  original_matches_sized p -> 0 <= frame < num_frames_source p ->
  isValidMatchChar m = true ->
  exists q,
    setOriginalMatch frame m p = Ok tt q /\
    getOriginalMatch frame q = Ok m q /\
    matches q = matches p /\
    (vsize (matches p) = 0 -> getMatch frame q = Ok m q).
Proof.
  intros Ho Hin Hv. unfold setOriginalMatch.
  rewrite (bind_ok _ _ _ _ _ (check_frame_ok _ p Hin)). rewrite Hv.
  unfold getNumFrames. msimpl.
  set (oms := if decide (vsize (original_matches p) = 0)
              then vec_resize (original_matches p) (num_frames_source p) "c"%char
              else original_matches p).
  assert (Hsize : vsize oms = num_frames_source p).
  { unfold oms. case_decide as He.
    - rewrite (vsize_0_nil _ He), vec_resize_empty. unfold vsize.
      rewrite length_replicate. lia.
    - destruct Ho; [contradiction|assumption]. }
  unfold vec_set. rewrite decide_True by (unfold vsize in Hsize; lia). msimpl.
  eexists. split; [reflexivity|].
  assert (Hread : vec_at (<[Z.to_nat frame := m]> oms) frame = Some m)
    by (apply vec_at_insert_eq; lia).
  assert (Hne : vsize (<[Z.to_nat frame := m]> oms) <> 0)
    by (unfold vsize in *; rewrite length_insert; lia).
  match goal with
  | |- context [getOriginalMatch frame ?q] =>
      pose proof (check_frame_ok frame q Hin) as Hc
  end.
  split; [|split; [reflexivity|]].
  - unfold getOriginalMatch.
    rewrite (bind_ok _ _ _ _ _ Hc). msimpl. cbn [original_matches set_original_matches].
    rewrite decide_True by exact Hne. rewrite Hread. reflexivity.
  - intros He. unfold getMatch.
    rewrite (bind_ok _ _ _ _ _ Hc). msimpl.
    cbn [original_matches matches set_original_matches].
    rewrite decide_False by lia. rewrite decide_True by exact Hne.
    rewrite Hread. reflexivity.
Qed.

Lemma setOriginalMatch_read_back_witness :
  exists q,
    setOriginalMatch 0 "b" (new_project 5 10) = Ok tt q /\
    getOriginalMatch 0 q = Ok "b"%char q /\
    matches q = matches (new_project 5 10) /\
    (vsize (matches (new_project 5 10)) = 0 -> getMatch 0 q = Ok "b"%char q).
Proof.
  apply (setOriginalMatch_read_back (new_project 5 10) 0 "b").
  - apply new_project_original_matches_sized.
  - simpl. lia.
  - reflexivity.
Defined.

(** ** Decimation: what the methods make of the sets *)

Lemma frame_by_quot_rem (x f : Z) :
  x `quot` 5 = f `quot` 5 -> x `rem` 5 = f `rem` 5 -> x = f.
Proof.
  intros Hq Hr. pose proof (Z.quot_rem' x 5). pose proof (Z.quot_rem' f 5). lia.
Qed.

Lemma is_dropped_insert (df : list (gset Z)) (i : Z) (c c' : gset Z) (x : Z) :
  0 <= i -> vec_at df i = Some c ->
  is_dropped (<[Z.to_nat i := c']> df) x
  = if decide (x `quot` 5 = i) then bool_decide (x `rem` 5 ∈ c')
    else is_dropped df x.
Proof.
  intros Hi Hc. unfold is_dropped.
  assert (Hlen : 0 <= i < vsize df).
  { unfold vec_at in Hc. rewrite decide_True in Hc by lia.
    apply lookup_lt_Some in Hc. unfold vsize. lia. }
  case_decide as Hx.
  - subst i. rewrite vec_at_insert_eq by exact Hlen. reflexivity.
  - rewrite vec_at_insert_ne by (lia || congruence). reflexivity.
Qed.

Lemma frame_offset_bounds (f : Z) :
  0 <= f -> 0 <= f `quot` 5 /\ 0 <= f `rem` 5 < 5 /\ f = f `quot` 5 * 5 + f `rem` 5.
Proof.
  intros Hf. pose proof (Z.quot_rem' f 5).
  assert (0 <= f `quot` 5) by (apply Z.quot_pos; lia).
  pose proof (Z.rem_bound_pos f 5 Hf ltac:(lia)). lia.
Qed.

(** A project whose sets of dropped offsets are [df'] in place of the sets
    of a well-formed project. *)
Lemma decimation_wf_insert (p q : WobblyProject) (f : Z) (c c' : gset Z) :
  decimation_wf p -> 0 <= f < num_frames_source p ->
  vec_at (decimated_frames p) (f `quot` 5) = Some c ->
  num_frames_source q = num_frames_source p ->
  decimated_frames q = <[Z.to_nat (f `quot` 5) := c']> (decimated_frames p) ->
  num_frames_decimated q
  = num_frames_decimated p + Z.of_nat (size c) - Z.of_nat (size c') ->
  (forall o, o ∈ c' -> o ∈ c \/ o = f `rem` 5) ->
  decimation_wf q.
Proof.
  intros (Hlen & Hdrops & Hcnt) Hf Hc Hn Hdf Hnd Hsub.
  destruct (frame_offset_bounds f ltac:(lia)) as (Hq & Hr & Hfr).
  assert (Hlk : decimated_frames p !! Z.to_nat (f `quot` 5) = Some c).
  { unfold vec_at in Hc. rewrite decide_True in Hc by lia. exact Hc. }
  split; [|split].
  - unfold cycles_allocated, vsize in *. rewrite Hdf, Hn, length_insert.
    exact Hlen.
  - apply (drops_in_range_insert p q _ c c' Hdrops Hn Hlk Hdf).
    intros o Ho. destruct (Hsub o Ho) as [Hold| ->]; [left; exact Hold|].
    right. rewrite Z2Nat.id by lia. lia.
  - unfold counter_consistent in *.
    rewrite Hdf, Hn, Hnd, (total_dropped_insert _ _ c c' Hlk). lia.
Qed.

Lemma cycles_not_full_insert (p q : WobblyProject) (i : nat) (c' : gset Z) :
  cycles_not_full p -> (size c' <= 4)%nat ->
  decimated_frames q = <[i := c']> (decimated_frames p) ->
  cycles_not_full q.
Proof.
  intros Hnf Hsize Hdf j d Hd. rewrite Hdf in Hd.
  destruct (decide (j = i)) as [->|Hne].
  - apply list_lookup_insert_Some in Hd as [(_ & <- & _)|[Hne _]];
      [exact Hsize|congruence].
  - rewrite list_lookup_insert_ne in Hd by congruence. apply (Hnf j d Hd).
Qed.

(** [addDecimatedFrame] on a frame of the clip. *)
Lemma addDecimatedFrame_exact (p : WobblyProject) (f : Z) (c : gset Z) :
  0 <= f < num_frames_source p ->
  vec_at (decimated_frames p) (f `quot` 5) = Some c ->
  exists q,
    addDecimatedFrame f p = Ok tt q /\
    num_frames_source q = num_frames_source p /\
    decimated_frames q
    = (if decide (size c = 4%nat) then decimated_frames p
       else <[Z.to_nat (f `quot` 5) := {[ f `rem` 5 ]} ∪ c]> (decimated_frames p)) /\
    num_frames_decimated q
    = (if decide (size c = 4%nat \/ f `rem` 5 ∈ c) then num_frames_decimated p
       else num_frames_decimated p - 1).
Proof.
  intros Hf Hc. unfold addDecimatedFrame.
  rewrite (bind_ok _ _ _ _ _ (check_frame_ok f p Hf)).
  rewrite (bind_ok _ _ _ _ _ (cycle_at_run p _ c Hc)).
  destruct (decide (Z.of_nat (size c) = 5 - 1)) as [H4|H4].
  - exists p. rewrite !decide_True by lia. auto.
  - rewrite (decide_False (P := size c = 4%nat)) by lia.
    unfold set_cycle. msimpl. rewrite (vec_at_set _ _ _ _ Hc). msimpl.
    case_bool_decide as Hin.
    + unfold getNumFrames, setNumFrames. msimpl.
      match goal with
      | |- context [setModified true ?s] =>
          destruct (setModified_frames true s) as (q & Hq & Hq')
      end.
      exists q. split; [exact Hq|]. rewrite Hq'.
      rewrite (decide_False (P := size c = 4%nat \/ f `rem` 5 ∈ c))
        by (intros [?|?]; [lia|contradiction]).
      auto.
    + eexists. split; [reflexivity|]. split; [reflexivity|].
      split; [reflexivity|]. rewrite decide_True; [reflexivity|].
      right. destruct (decide (f `rem` 5 ∈ c)); tauto.
Qed.

(** [deleteDecimatedFrame] on a frame of the clip. *)
Lemma deleteDecimatedFrame_exact (p : WobblyProject) (f : Z) (c : gset Z) :
  0 <= f < num_frames_source p ->
  vec_at (decimated_frames p) (f `quot` 5) = Some c ->
  exists q,
    deleteDecimatedFrame f p = Ok tt q /\
    num_frames_source q = num_frames_source p /\
    decimated_frames q
    = <[Z.to_nat (f `quot` 5) := c ∖ {[ f `rem` 5 ]}]> (decimated_frames p) /\
    num_frames_decimated q
    = (if decide (f `rem` 5 ∈ c) then num_frames_decimated p + 1
       else num_frames_decimated p).
Proof.
  intros Hf Hc. unfold deleteDecimatedFrame.
  rewrite (bind_ok _ _ _ _ _ (check_frame_ok f p Hf)).
  rewrite (bind_ok _ _ _ _ _ (cycle_at_run p _ c Hc)).
  unfold set_cycle. msimpl. rewrite (vec_at_set _ _ _ _ Hc). msimpl.
  case_bool_decide as Hin.
  - unfold getNumFrames, setNumFrames. msimpl.
    match goal with
    | |- context [setModified true ?s] =>
        destruct (setModified_frames true s) as (q & Hq & Hq')
    end.
    exists q. split; [exact Hq|]. rewrite Hq'.
    rewrite decide_True by exact Hin. auto.
  - eexists. split; [reflexivity|]. split; [reflexivity|].
    split; [reflexivity|]. rewrite decide_False by exact Hin. reflexivity.
Qed.

Lemma size_add_fresh (c : gset Z) (x : Z) :
  x ∉ c -> size ({[ x ]} ∪ c) = S (size c).
Proof.
  intros Hx. rewrite size_union by set_solver. rewrite size_singleton. lia.
Qed.

Lemma size_remove (c : gset Z) (x : Z) :
  x ∈ c -> S (size (c ∖ {[ x ]})) = size c.
Proof.
  intros Hx.
  assert (Hc : c = {[ x ]} ∪ c ∖ {[ x ]}).
  { apply set_eq. intros y. destruct (decide (y = x)); set_solver. }
  rewrite Hc at 2. rewrite size_add_fresh by set_solver. reflexivity.
Qed.

(** One call of [addDecimatedFrame], whatever the frame: the decimation
    state stays well formed, no cycle gets a fifth drop, and no frame but
    [f] changes. *)
Lemma addDecimatedFrame_step (p : WobblyProject) (f : Z) :
  decimation_wf p ->
  exists q,
    project_after (addDecimatedFrame f p) = Some q /\
    (0 <= f < num_frames_source p -> addDecimatedFrame f p = Ok tt q) /\
    decimation_wf q /\
    num_frames_source q = num_frames_source p /\
    (cycles_not_full p -> cycles_not_full q) /\
    (forall x, x <> f ->
       is_dropped (decimated_frames q) x = is_dropped (decimated_frames p) x) /\
    (is_dropped (decimated_frames p) f = true ->
     is_dropped (decimated_frames q) f = true).
Proof.
  intros Hwf.
  destruct (decide (0 <= f < num_frames_source p)) as [Hf|Hf].
  2: { exists p. unfold addDecimatedFrame.
       rewrite (bind_raise _ _ _ _ _ (check_frame_bad f p Hf)).
       split; [reflexivity|]. split; [intros; contradiction|]. auto 10. }
  destruct (cycle_exists p f (proj1 Hwf) Hf) as [c Hc].
  destruct (frame_offset_bounds f ltac:(lia)) as (Hq & Hr & Hfr).
  destruct (addDecimatedFrame_exact p f c Hf Hc) as (q & Hrun & Hn & Hdf & Hnd).
  exists q. rewrite Hrun. split; [reflexivity|]. split; [reflexivity|].
  destruct (decide (size c = 4%nat)) as [H4|H4].
  - rewrite decide_True in Hnd by tauto.
    assert (Hq' : decimation_wf q).
    { destruct Hwf as (Hlen & Hdrops & Hcnt). split; [|split].
      - unfold cycles_allocated. rewrite Hdf, Hn. exact Hlen.
      - intros i d o. rewrite Hdf, Hn. apply Hdrops.
      - unfold counter_consistent. rewrite Hdf, Hn, Hnd. exact Hcnt. }
    split; [exact Hq'|]. split; [exact Hn|].
    split; [intros Hnf i d Hd; apply (Hnf i d); rewrite <- Hdf; exact Hd|].
    rewrite Hdf. auto.
  - split.
    + apply (decimation_wf_insert p q f c _ Hwf Hf Hc Hn Hdf).
      * destruct (decide (f `rem` 5 ∈ c)) as [Hin|Hout].
        -- rewrite decide_True in Hnd by tauto.
           replace ({[f `rem` 5]} ∪ c) with c by set_solver. lia.
        -- rewrite decide_False in Hnd by tauto.
           rewrite size_add_fresh by exact Hout. lia.
      * set_solver.
    + split; [exact Hn|]. split; [|split].
      * intros Hnf.
        apply (cycles_not_full_insert p q (Z.to_nat (f `quot` 5))
                 ({[f `rem` 5]} ∪ c) Hnf); [|exact Hdf].
        assert (Hlk : decimated_frames p !! Z.to_nat (f `quot` 5) = Some c).
        { unfold vec_at in Hc. rewrite decide_True in Hc by lia. exact Hc. }
        pose proof (Hnf _ _ Hlk).
        destruct (decide (f `rem` 5 ∈ c)) as [Hin|Hout].
        -- replace ({[f `rem` 5]} ∪ c) with c by set_solver. lia.
        -- rewrite size_add_fresh by exact Hout. lia.
      * intros x Hx. rewrite Hdf, (is_dropped_insert _ _ c) by assumption.
        destruct (decide (x `quot` 5 = f `quot` 5)) as [Hxq|Hxq]; [|reflexivity].
        unfold is_dropped. rewrite Hxq, Hc.
        apply bool_decide_ext.
        assert (x `rem` 5 <> f `rem` 5)
          by (intros Hxr; apply Hx, frame_by_quot_rem; assumption).
        set_solver.
      * intros _. rewrite Hdf, (is_dropped_insert _ _ c) by assumption.
        rewrite decide_True by reflexivity. apply bool_decide_eq_true.
        set_solver.
Qed.

(** One call of [deleteDecimatedFrame], whatever the frame. *)
Lemma deleteDecimatedFrame_step (p : WobblyProject) (f : Z) :
  decimation_wf p ->
  exists q,
    project_after (deleteDecimatedFrame f p) = Some q /\
    (0 <= f < num_frames_source p ->
     deleteDecimatedFrame f p = Ok tt q /\
     is_dropped (decimated_frames q) f = false) /\
    decimation_wf q /\
    num_frames_source q = num_frames_source p /\
    (cycles_not_full p -> cycles_not_full q) /\
    (forall x, x <> f ->
       is_dropped (decimated_frames q) x = is_dropped (decimated_frames p) x).
Proof.
  intros Hwf.
  destruct (decide (0 <= f < num_frames_source p)) as [Hf|Hf].
  2: { exists p. unfold deleteDecimatedFrame.
       rewrite (bind_raise _ _ _ _ _ (check_frame_bad f p Hf)).
       split; [reflexivity|]. split; [intros; contradiction|]. auto 10. }
  destruct (cycle_exists p f (proj1 Hwf) Hf) as [c Hc].
  destruct (frame_offset_bounds f ltac:(lia)) as (Hq & Hr & Hfr).
  destruct (deleteDecimatedFrame_exact p f c Hf Hc)
    as (q & Hrun & Hn & Hdf & Hnd).
  assert (Hlk : decimated_frames p !! Z.to_nat (f `quot` 5) = Some c).
  { unfold vec_at in Hc. rewrite decide_True in Hc by lia. exact Hc. }
  exists q. rewrite Hrun. split; [reflexivity|]. split.
  { intros _. split; [reflexivity|].
    rewrite Hdf, (is_dropped_insert _ _ c) by assumption.
    rewrite decide_True by reflexivity. apply bool_decide_eq_false.
    set_solver. }
  split.
  - apply (decimation_wf_insert p q f c _ Hwf Hf Hc Hn Hdf).
    + destruct (decide (f `rem` 5 ∈ c)) as [Hin|Hout].
      * pose proof (size_remove c _ Hin). lia.
      * replace (c ∖ {[f `rem` 5]}) with c by set_solver. lia.
    + set_solver.
  - split; [exact Hn|]. split.
    + intros Hnf.
      apply (cycles_not_full_insert p q (Z.to_nat (f `quot` 5))
               (c ∖ {[f `rem` 5]}) Hnf); [|exact Hdf].
      pose proof (Hnf _ _ Hlk).
      assert (size (c ∖ {[f `rem` 5]}) <= size c)%nat
        by (apply subseteq_size; set_solver).
      lia.
    + intros x Hx. rewrite Hdf, (is_dropped_insert _ _ c) by assumption.
      destruct (decide (x `quot` 5 = f `quot` 5)) as [Hxq|Hxq]; [|reflexivity].
      unfold is_dropped. rewrite Hxq, Hc.
      apply bool_decide_ext.
      assert (x `rem` 5 <> f `rem` 5)
        by (intros Hxr; apply Hx, frame_by_quot_rem; assumption).
      set_solver.
Qed.

(** X8.  Dropping a frame that was kept, in a cycle with room for it, and
    deleting the drop again brings the sets of dropped offsets and the
    counter of the decimated frames back to what they were; in between the
    frame is decimated and the counter one lower. *)
Theorem deleteDecimatedFrame_undoes_add (p : WobblyProject) (f : Z)
    (c : gset Z) :
  0 <= f < num_frames_source p ->
  vec_at (decimated_frames p) (f `quot` 5) = Some c ->
  f `rem` 5 ∉ c -> size c <> 4%nat ->
  exists q r,
    addDecimatedFrame f p = Ok tt q /\
    isDecimatedFrame f q = Ok true q /\
    num_frames_decimated q = num_frames_decimated p - 1 /\
    deleteDecimatedFrame f q = Ok tt r /\
    decimated_frames r = decimated_frames p /\
    num_frames_decimated r = num_frames_decimated p /\
    num_frames_source r = num_frames_source p.
Proof.
  intros Hf Hc Hout H4.
  destruct (frame_offset_bounds f ltac:(lia)) as (Hq & Hr & Hfr).
  assert (Hlen : 0 <= f `quot` 5 < vsize (decimated_frames p)).
  { unfold vec_at in Hc. rewrite decide_True in Hc by lia.
    apply lookup_lt_Some in Hc. unfold vsize. lia. }
  destruct (addDecimatedFrame_exact p f c Hf Hc) as (q & Hrun & Hn & Hdf & Hnd).
  rewrite decide_False in Hdf by exact H4.
  rewrite decide_False in Hnd by tauto.
  assert (Hc' : vec_at (decimated_frames q) (f `quot` 5)
                = Some ({[f `rem` 5]} ∪ c)).
  { rewrite Hdf. apply vec_at_insert_eq. exact Hlen. }
  assert (Hf' : 0 <= f < num_frames_source q) by (rewrite Hn; exact Hf).
  destruct (deleteDecimatedFrame_exact q f _ Hf' Hc')
    as (r & Hrun' & Hn' & Hdf' & Hnd').
  rewrite decide_True in Hnd' by set_solver.
  exists q, r. split; [exact Hrun|]. split.
  { unfold isDecimatedFrame.
    rewrite (bind_ok _ _ _ _ _ (check_frame_ok f q Hf')).
    rewrite (bind_ok _ _ _ _ _ (cycle_at_run q _ _ Hc')). msimpl.
    rewrite bool_decide_eq_true_2 by set_solver. reflexivity. }
  split; [exact Hnd|]. split; [exact Hrun'|].
  split; [|split; [lia|congruence]].
  rewrite Hdf', Hdf, list_insert_insert_eq.
  replace (({[f `rem` 5]} ∪ c) ∖ {[f `rem` 5]}) with c by set_solver.
  apply list_insert_id.
  unfold vec_at in Hc. rewrite decide_True in Hc by lia. exact Hc.
Qed.

Lemma deleteDecimatedFrame_undoes_add_witness :
  exists q r,
    addDecimatedFrame 7 (new_project 10 5) = Ok tt q /\
    isDecimatedFrame 7 q = Ok true q /\
    num_frames_decimated q = num_frames_decimated (new_project 10 5) - 1 /\
    deleteDecimatedFrame 7 q = Ok tt r /\
    decimated_frames r = decimated_frames (new_project 10 5) /\
    num_frames_decimated r = num_frames_decimated (new_project 10 5) /\
    num_frames_source r = num_frames_source (new_project 10 5).
Proof.
  apply (deleteDecimatedFrame_undoes_add (new_project 10 5) 7 ∅).
  - simpl. lia.
  - reflexivity.
  - set_solver.
  - rewrite size_empty. lia.
Defined.

(** [clearDecimatedFramesFromCycle], whatever the frame. *)
Lemma clearDecimatedFramesFromCycle_step (p : WobblyProject) (f : Z) :
  decimation_wf p ->
  exists q,
    project_after (clearDecimatedFramesFromCycle f p) = Some q /\
    (0 <= f < num_frames_source p ->
     clearDecimatedFramesFromCycle f p = Ok tt q /\
     forall x, x `quot` 5 = f `quot` 5 ->
               is_dropped (decimated_frames q) x = false) /\
    decimation_wf q /\
    num_frames_source q = num_frames_source p /\
    (cycles_not_full p -> cycles_not_full q) /\
    (forall x, x `quot` 5 <> f `quot` 5 ->
       is_dropped (decimated_frames q) x = is_dropped (decimated_frames p) x) /\
    is_modified q = is_modified p.
Proof.
  intros Hwf.
  destruct (decide (0 <= f < num_frames_source p)) as [Hf|Hf].
  2: { exists p. unfold clearDecimatedFramesFromCycle.
       rewrite (bind_raise _ _ _ _ _ (check_frame_bad f p Hf)).
       split; [reflexivity|]. split; [intros; contradiction|]. auto 10. }
  destruct (cycle_exists p f (proj1 Hwf) Hf) as [c Hc].
  destruct (frame_offset_bounds f ltac:(lia)) as (Hq & Hr & Hfr).
  unfold clearDecimatedFramesFromCycle.
  rewrite (bind_ok _ _ _ _ _ (check_frame_ok f p Hf)).
  rewrite (bind_ok _ _ _ _ _ (cycle_at_run p _ c Hc)).
  unfold set_cycle, getNumFrames, setNumFrames. msimpl.
  rewrite (vec_at_set _ _ _ _ Hc). msimpl.
  eexists. split; [reflexivity|].
  cbn [decimated_frames num_frames_source is_modified
       set_decimated_frames set_num_frames_decimated].
  split.
  { intros _. split; [reflexivity|]. intros x Hx.
    rewrite (is_dropped_insert _ _ c) by assumption.
    rewrite decide_True by exact Hx. apply bool_decide_eq_false. set_solver. }
  split.
  { eapply (decimation_wf_insert p _ f c ∅ Hwf Hf Hc); try reflexivity.
    - cbn [num_frames_decimated set_decimated_frames set_num_frames_decimated].
      rewrite size_empty. lia.
    - set_solver. }
  split; [reflexivity|]. split; [|split; [|reflexivity]].
  - intros Hnf.
    eapply (cycles_not_full_insert p _ (Z.to_nat (f `quot` 5)) ∅ Hnf);
      [rewrite size_empty; lia|reflexivity].
  - intros x Hx. rewrite (is_dropped_insert _ _ c) by assumption.
    rewrite decide_False by exact Hx. reflexivity.
Qed.

(** X9.  [addDecimatedFrame], [deleteDecimatedFrame] and
    [clearDecimatedFramesFromCycle] keep the decimation state well formed
    (one set per cycle, dropped offsets that are frames of the clip, the
    counter in step with the sets) and never give a cycle a fifth dropped
    offset, whether they return or throw. *)
Theorem decimation_invariants_kept (p : WobblyProject) (f : Z) :
  decimation_wf p -> cycles_not_full p ->
  (exists q, project_after (addDecimatedFrame f p) = Some q
             /\ decimation_wf q /\ cycles_not_full q) /\
  (exists q, project_after (deleteDecimatedFrame f p) = Some q
             /\ decimation_wf q /\ cycles_not_full q) /\
  (exists q, project_after (clearDecimatedFramesFromCycle f p) = Some q
             /\ decimation_wf q /\ cycles_not_full q).
Proof.
  intros Hwf Hnf. split; [|split].
  - destruct (addDecimatedFrame_step p f Hwf) as (q & Hq & _ & Hwf' & _ & Hnf' & _).
    exists q. auto.
  - destruct (deleteDecimatedFrame_step p f Hwf)
      as (q & Hq & _ & Hwf' & _ & Hnf' & _).
    exists q. auto.
  - destruct (clearDecimatedFramesFromCycle_step p f Hwf)
      as (q & Hq & _ & Hwf' & _ & Hnf' & _).
    exists q. auto.
Qed.

Lemma new_project_cycles_not_full (n : positive) (steps : nat) :
  cycles_not_full (new_project n steps).
Proof.
  intros i c. cbn [new_project decimated_frames].
  rewrite vec_resize_empty. intros Hc.
  apply lookup_replicate in Hc as [-> _]. rewrite size_empty. lia.
Qed.

Lemma decimation_invariants_kept_witness :
  (exists q, project_after (addDecimatedFrame 3 (new_project 10 5)) = Some q
             /\ decimation_wf q /\ cycles_not_full q) /\
  (exists q, project_after (deleteDecimatedFrame 3 (new_project 10 5)) = Some q
             /\ decimation_wf q /\ cycles_not_full q) /\
  (exists q, project_after (clearDecimatedFramesFromCycle 3 (new_project 10 5))
             = Some q
             /\ decimation_wf q /\ cycles_not_full q).
Proof.
  apply (decimation_invariants_kept (new_project 10 5) 3).
  - apply new_project_wf.
  - apply new_project_cycles_not_full.
Defined.

(** X10.  [clearDecimatedFramesFromCycle] on a frame of a well-formed
    project returns; afterwards no frame of the cycle of that frame is
    dropped, the frames of the other cycles are as they were, the counter is
    in step again, and the project is not marked as modified by the call. *)
Theorem clearDecimatedFramesFromCycle_spec (p : WobblyProject) (f : Z) :
  decimation_wf p -> 0 <= f < num_frames_source p ->
  exists q,
    clearDecimatedFramesFromCycle f p = Ok tt q /\
    decimation_wf q /\
    (forall x, is_dropped (decimated_frames q) x
               = if decide (x `quot` 5 = f `quot` 5) then false
                 else is_dropped (decimated_frames p) x) /\
    is_modified q = is_modified p.
Proof.
  intros Hwf Hf.
  destruct (clearDecimatedFramesFromCycle_step p f Hwf)
    as (q & _ & Hrun & Hwf' & _ & _ & Hother & Hmod).
  destruct (Hrun Hf) as [Hok Hcycle].
  exists q. split; [exact Hok|]. split; [exact Hwf'|]. split; [|exact Hmod].
  intros x. case_decide; auto.
Qed.

Lemma clearDecimatedFramesFromCycle_spec_witness :
  exists q,
    clearDecimatedFramesFromCycle 6 s1_project = Ok tt q /\
    decimation_wf q /\
    (forall x, is_dropped (decimated_frames q) x
               = if decide (x `quot` 5 = 6 `quot` 5) then false
                 else is_dropped (decimated_frames s1_project) x) /\
    is_modified q = is_modified s1_project.
Proof.
  apply (clearDecimatedFramesFromCycle_spec s1_project 6).
  - apply s1_project_wf.
  - vm_compute. split; [discriminate|reflexivity].
Defined.

(** ** Decimation from a pattern *)

Lemma string_get_None (pattern : string) (n : nat) :
  String.get n pattern = None -> (String.length pattern <= n)%nat.
Proof.
  revert n. induction pattern as [|ch rest IH]; intros n Hget; simpl.
  - lia.
  - destruct n as [|n]; [discriminate|]. simpl in Hget.
    specialize (IH n Hget). lia.
Qed.

Lemma string_at_defined (pattern : string) (k : Z) :
  0 <= k <= Z.of_nat (String.length pattern) ->
  is_Some (string_at pattern k).
Proof.
  intros Hk. unfold string_at. rewrite decide_True by lia.
  destruct (String.get (Z.to_nat k) pattern) as [ch|] eqn:Hget; [eauto|].
  apply string_get_None in Hget. rewrite decide_True by lia. eauto.
Qed.

(** The loop of [setRangeDecimationFromPattern] over frames of the clip. *)
Lemma decimation_pattern_loop (pattern : string) (frames : list Z)
    (p : WobblyProject) :
  decimation_wf p -> (4 <= String.length pattern)%nat -> NoDup frames ->
  (forall i, i ∈ frames -> 0 <= i < num_frames_source p) ->
  exists q,
    for_each frames (fun i =>
      let* ch := of_option (string_at pattern (i `rem` 5)) in
      if decide (ch = "d"%char) then addDecimatedFrame i
      else deleteDecimatedFrame i) p = Ok tt q /\
    decimation_wf q /\
    num_frames_source q = num_frames_source p /\
    (cycles_not_full p -> cycles_not_full q) /\
    (forall x, x ∉ frames ->
       is_dropped (decimated_frames q) x = is_dropped (decimated_frames p) x) /\
    (forall i, i ∈ frames -> string_at pattern (i `rem` 5) <> Some "d"%char ->
       is_dropped (decimated_frames q) i = false).
Proof.
  intros Hwf Hlen. revert p Hwf.
  induction frames as [|i rest IH]; intros p Hwf Hnd Hin.
  - exists p. split; [reflexivity|]. split; [exact Hwf|]. split; [reflexivity|].
    split; [auto|]. split; [auto|]. intros i Hi. inversion Hi.
  - apply NoDup_cons in Hnd as [Hi Hnd].
    assert (Hf : 0 <= i < num_frames_source p) by (apply Hin; left).
    destruct (frame_offset_bounds i ltac:(lia)) as (_ & Hr & _).
    destruct (string_at_defined pattern (i `rem` 5) ltac:(lia)) as [ch Hch].
    rewrite for_each_cons. rewrite Hch. msimpl.
    assert (Hstep : exists q1,
      (if decide (ch = "d"%char) then addDecimatedFrame i
       else deleteDecimatedFrame i) p = Ok tt q1 /\
      decimation_wf q1 /\ num_frames_source q1 = num_frames_source p /\
      (cycles_not_full p -> cycles_not_full q1) /\
      (forall x, x <> i ->
         is_dropped (decimated_frames q1) x
         = is_dropped (decimated_frames p) x) /\
      (ch <> "d"%char -> is_dropped (decimated_frames q1) i = false)).
    { case_decide as Hd.
      - destruct (addDecimatedFrame_step p i Hwf)
          as (q1 & _ & Hok & Hwf1 & Hn1 & Hnf1 & Hsame & _).
        exists q1. split; [exact (Hok Hf)|]. split; [exact Hwf1|].
        split; [exact Hn1|]. split; [exact Hnf1|]. split; [exact Hsame|].
        intros Hne. contradiction.
      - destruct (deleteDecimatedFrame_step p i Hwf)
          as (q1 & _ & Hok & Hwf1 & Hn1 & Hnf1 & Hsame).
        destruct (Hok Hf) as [Hrun Hgone].
        exists q1. split; [exact Hrun|]. split; [exact Hwf1|].
        split; [exact Hn1|]. split; [exact Hnf1|]. split; [exact Hsame|].
        intros _. exact Hgone. }
    destruct Hstep as (q1 & Hrun1 & Hwf1 & Hn1 & Hnf1 & Hsame1 & Hgone1).
    rewrite (bind_ok _ _ _ _ _ Hrun1).
    destruct (IH q1 Hwf1 Hnd) as (q & Hrun & Hwf' & Hn' & Hnf' & Hsame & Hgone).
    { intros j Hj. rewrite Hn1. apply Hin. right. exact Hj. }
    exists q. split; [exact Hrun|]. split; [exact Hwf'|].
    split; [congruence|]. split; [auto|]. split.
    + intros x Hx. apply not_elem_of_cons in Hx as [Hxi Hxr].
      rewrite (Hsame x Hxr). apply Hsame1, Hxi.
    + intros j Hj Hnotd. apply elem_of_cons in Hj as [->|Hj].
      * rewrite (Hsame i Hi). apply Hgone1. congruence.
      * apply Hgone; assumption.
Qed.

(** What [setRangeDecimationFromPattern] leaves dropped. *)
Lemma setRangeDecimationFromPattern_run (p : WobblyProject)
    (range_start range_end : Z) (pattern : string) :
  decimation_wf p -> cycles_not_full p ->
  (4 <= String.length pattern)%nat ->
  0 <= range_start <= range_end -> range_end < num_frames_source p ->
  exists q,
    setRangeDecimationFromPattern range_start range_end pattern p = Ok tt q /\
    decimation_wf q /\ cycles_not_full q /\
    (forall i, range_start <= i <= range_end ->
       is_dropped (decimated_frames q) i = true ->
       string_at pattern (i `rem` 5) = Some "d"%char) /\
    (forall x, ~ range_start <= x <= range_end ->
       is_dropped (decimated_frames q) x = is_dropped (decimated_frames p) x).
Proof.
  intros Hwf Hnf Hlen Hrange Hend.
  unfold setRangeDecimationFromPattern.
  rewrite (decide_False (P := range_start > range_end)) by lia.
  unfold getNumFrames. msimpl.
  rewrite bool_decide_eq_false_2 by lia. msimpl.
  destruct (decimation_pattern_loop pattern
              (range range_start (range_end + 1)) p Hwf Hlen)
    as (q & Hrun & Hwf' & Hn & Hnf' & Hsame & Hgone).
  { apply NoDup_seqZ. }
  { intros i Hi. apply elem_of_seqZ in Hi. lia. }
  rewrite (bind_ok _ _ _ _ _ Hrun).
  destruct (setModified_frames true q) as (r & Hr & Hr').
  exists r. split; [exact Hr|]. rewrite Hr'.
  split; [exact Hwf'|]. split; [exact (Hnf' Hnf)|].
  cbn [decimated_frames set_is_modified]. split.
  - intros i Hi Hdropped.
    destruct (decide (string_at pattern (i `rem` 5) = Some "d"%char))
      as [Hd|Hd]; [exact Hd|].
    rewrite Hgone in Hdropped; [discriminate| |exact Hd].
    apply elem_of_seqZ. lia.
  - intros x Hx. apply Hsame. unfold range. rewrite elem_of_seqZ. lia.
Qed.

(** X11.  [setRangeDecimationFromPattern] on a range of the clip, with a
    pattern of at least four characters, returns and keeps the decimation
    state well formed, with no cycle fully dropped.  Afterwards a frame of
    the range is dropped only if the character of the pattern at
    [frame % 5] is [d], and the frames outside the range are dropped or kept
    as they were. *)
Theorem setRangeDecimationFromPattern_spec (p : WobblyProject)
    (range_start range_end : Z) (pattern : string) :
  decimation_wf p -> cycles_not_full p ->
  (4 <= String.length pattern)%nat ->
  0 <= range_start <= range_end -> range_end < num_frames_source p ->
  exists q,
    setRangeDecimationFromPattern range_start range_end pattern p = Ok tt q /\
    decimation_wf q /\ cycles_not_full q /\
    (forall i, range_start <= i <= range_end ->
       is_dropped (decimated_frames q) i = true ->
       string_at pattern (i `rem` 5) = Some "d"%char) /\
    (forall x, ~ range_start <= x <= range_end ->
       is_dropped (decimated_frames q) x = is_dropped (decimated_frames p) x).
Proof. apply setRangeDecimationFromPattern_run. Qed.

Lemma setRangeDecimationFromPattern_spec_witness :
  exists q,
    setRangeDecimationFromPattern 0 9 "kkkdk" (new_project 10 5) = Ok tt q /\
    decimation_wf q /\ cycles_not_full q /\
    (forall i, 0 <= i <= 9 ->
       is_dropped (decimated_frames q) i = true ->
       string_at "kkkdk" (i `rem` 5) = Some "d"%char) /\
    (forall x, ~ 0 <= x <= 9 ->
       is_dropped (decimated_frames q) x
       = is_dropped (decimated_frames (new_project 10 5)) x).
Proof.
  apply (setRangeDecimationFromPattern_spec (new_project 10 5) 0 9 "kkkdk").
  - apply new_project_wf.
  - apply new_project_cycles_not_full.
  - simpl. lia.
  - lia.
  - simpl. lia.
Defined.

(** ** Frame numbers of kept frames *)

(** X12.  In a well-formed project [frameNumberAfterDecimation] numbers
    the kept frames in their order and within the decimated clip: of two
    kept frames the later one gets the greater number, and both numbers
    are at least 0 and less than [num_frames_decimated]. *)
Theorem frameNumberAfterDecimation_increasing (p : WobblyProject) (f f' : Z) :
  decimation_wf p -> 0 <= f -> f < f' -> f' < num_frames_source p ->
  isDecimatedFrame f p = Ok false p -> isDecimatedFrame f' p = Ok false p ->
  exists g g',
    frameNumberAfterDecimation f p = Ok g p /\
    frameNumberAfterDecimation f' p = Ok g' p /\
    0 <= g /\ g < g' /\ g' < num_frames_decimated p.
Proof.
  intros Hwf Hf Hlt Hf' Hkept Hkept'.
  destruct Hwf as (Hlen & Hdrops & Hcnt).
  rewrite isDecimatedFrame_run in Hkept by (assumption || lia).
  rewrite isDecimatedFrame_run in Hkept' by (assumption || lia).
  injection Hkept as Hkept. injection Hkept' as Hkept'.
  rewrite !frameNumberAfterDecimation_run by (assumption || lia).
  rewrite Hkept, Hkept'.
  eexists. eexists. split; [reflexivity|]. split; [reflexivity|].
  replace (if decide (f = num_frames_source p - 1) then 0 else 0) with 0
    by (case_decide; reflexivity).
  replace (if decide (f' = num_frames_source p - 1) then 0 else 0) with 0
    by (case_decide; reflexivity).
  pose proof (count_kept_below_total p f' (conj Hlen (conj Hdrops Hcnt))
                ltac:(lia) Hkept') as Hb'.
  pose proof (count_kept_nonneg (decimated_frames p) (seqZ 0 f)) as Hnn.
  rewrite (seqZ_split_at 0 f' f) by lia.
  rewrite count_kept_app. cbn [count_kept]. rewrite Hkept.
  rewrite (seqZ_split_at 0 f' f) in Hb' by lia.
  rewrite count_kept_app in Hb'. cbn [count_kept] in Hb'. rewrite Hkept in Hb'.
  pose proof (count_kept_nonneg (decimated_frames p)
                (seqZ (f + 1) (0 + f' - f - 1))).
  replace (f - 0) with f in * by lia.
  lia.
Qed.

Lemma frameNumberAfterDecimation_increasing_witness :
  exists g g',
    frameNumberAfterDecimation 2 s1_project = Ok g s1_project /\
    frameNumberAfterDecimation 7 s1_project = Ok g' s1_project /\
    0 <= g /\ g < g' /\ g' < num_frames_decimated s1_project.
Proof.
  apply (frameNumberAfterDecimation_increasing s1_project 2 7).
  - apply s1_project_wf.
  - lia.
  - lia.
  - vm_compute. reflexivity.
  - vm_compute. reflexivity.
  - vm_compute. reflexivity.
Defined.

(** ** Translating the end of a range to the decimated clip *)

Lemma skip_decimated_to_kept (p : WobblyProject) (fuel : nat) (frame g : Z) :
  cycles_allocated p -> 0 <= g <= frame -> frame < num_frames_source p ->
  is_dropped (decimated_frames p) g = false ->
  (forall x, g < x <= frame -> is_dropped (decimated_frames p) x = true) ->
  (Z.to_nat (frame - g) <= fuel)%nat ->
  skip_decimated fuel frame p = Ok g p.
Proof.
  intros Hlen. revert frame.
  induction fuel as [|fuel IH]; intros frame Hg Hf Hkept Hdropped Hfuel.
  - assert (frame = g) by lia. subst frame. simpl.
    rewrite (bind_ok _ _ _ _ _ (isDecimatedFrame_run p g Hlen ltac:(lia))).
    rewrite Hkept. reflexivity.
  - destruct (decide (frame = g)) as [->|Hne].
    + simpl.
      rewrite (bind_ok _ _ _ _ _ (isDecimatedFrame_run p g Hlen ltac:(lia))).
      rewrite Hkept. reflexivity.
    + simpl.
      rewrite (bind_ok _ _ _ _ _ (isDecimatedFrame_run p frame Hlen ltac:(lia))).
      rewrite (Hdropped frame) by lia.
      apply IH; try lia; [exact Hkept|].
      intros x Hx. apply Hdropped. lia.
Qed.

Lemma skip_decimated_all_dropped (p : WobblyProject) (fuel : nat) (frame : Z) :
  cycles_allocated p -> -1 <= frame < num_frames_source p ->
  (forall x, 0 <= x <= frame -> is_dropped (decimated_frames p) x = true) ->
  (Z.to_nat (frame + 1) <= fuel)%nat ->
  skip_decimated fuel frame p = Raise OutOfRange p.
Proof.
  intros Hlen. revert frame.
  assert (Hout : forall fuel, skip_decimated fuel (-1) p = Raise OutOfRange p).
  { assert (Hd : isDecimatedFrame (-1) p = Raise OutOfRange p).
    { unfold isDecimatedFrame.
      rewrite (bind_raise _ _ _ _ _ (check_frame_bad (-1) p ltac:(lia))).
      reflexivity. }
    intros fuel'. destruct fuel'; simpl;
      rewrite (bind_raise _ _ _ _ _ Hd); reflexivity. }
  induction fuel as [|fuel IH]; intros frame Hf Hdropped Hfuel.
  - assert (frame = -1) by lia. subst frame. apply Hout.
  - destruct (decide (frame = -1)) as [->|Hne]; [apply Hout|].
    simpl.
    rewrite (bind_ok _ _ _ _ _ (isDecimatedFrame_run p frame Hlen ltac:(lia))).
    rewrite (Hdropped frame) by lia.
    replace (frame - 1) with (frame - 1) by reflexivity.
    apply IH; try lia. intros x Hx. apply Hdropped. lia.
Qed.

(** X13.  [maybeTranslate] of the end of a range, after decimation, in a
    well-formed project: the loop steps back over the dropped frames.  When
    [g] is the last kept frame at or before [frame], the result is the
    number of [g] in the decimated clip, which is the number of kept frames
    before it.  When every frame from 0 to [frame] is dropped, the loop asks
    about frame -1 and the call ends with the out-of-range exception. *)
Theorem maybeTranslate_end (p : WobblyProject) (frame : Z) :
  decimation_wf p -> 0 <= frame < num_frames_source p ->
  (forall g, 0 <= g <= frame ->
     is_dropped (decimated_frames p) g = false ->
     (forall x, g < x <= frame -> is_dropped (decimated_frames p) x = true) ->
     maybeTranslate frame true PostDecimate p
     = Ok (count_kept (decimated_frames p) (seqZ 0 g)) p /\
     frameNumberAfterDecimation g p
     = Ok (count_kept (decimated_frames p) (seqZ 0 g)) p) /\
  ((forall x, 0 <= x <= frame -> is_dropped (decimated_frames p) x = true) ->
   maybeTranslate frame true PostDecimate p = Raise OutOfRange p).
Proof.
  intros (Hlen & Hdrops & Hcnt) Hf. split.
  - intros g Hg Hkept Hdropped.
    assert (Hafter : frameNumberAfterDecimation g p
                     = Ok (count_kept (decimated_frames p) (seqZ 0 g)) p).
    { rewrite frameNumberAfterDecimation_run by (assumption || lia).
      rewrite Hkept. f_equal. case_decide; lia. }
    split; [|exact Hafter].
    unfold maybeTranslate.
    rewrite (bind_ok _ _ _ _ _
               (skip_decimated_to_kept p (Z.to_nat frame + 1) frame g Hlen Hg
                  ltac:(lia) Hkept
                  Hdropped ltac:(lia))).
    exact Hafter.
  - intros Hdropped. unfold maybeTranslate.
    rewrite (bind_raise _ _ _ _ _
               (skip_decimated_all_dropped p (Z.to_nat frame + 1) frame Hlen
                  ltac:(lia) Hdropped
                  ltac:(lia))).
    reflexivity.
Qed.

Lemma maybeTranslate_end_witness :
  (forall g, 0 <= g <= 6 ->
     is_dropped (decimated_frames s1_project) g = false ->
     (forall x, g < x <= 6 ->
        is_dropped (decimated_frames s1_project) x = true) ->
     maybeTranslate 6 true PostDecimate s1_project
     = Ok (count_kept (decimated_frames s1_project) (seqZ 0 g)) s1_project /\
     frameNumberAfterDecimation g s1_project
     = Ok (count_kept (decimated_frames s1_project) (seqZ 0 g)) s1_project) /\
  ((forall x, 0 <= x <= 6 ->
      is_dropped (decimated_frames s1_project) x = true) ->
   maybeTranslate 6 true PostDecimate s1_project = Raise OutOfRange s1_project).
Proof.
  apply (maybeTranslate_end s1_project 6).
  - apply s1_project_wf.
  - vm_compute. split; [discriminate|reflexivity].
Defined.

(** The end of a range on a dropped frame: frame 6 of scenario S1 is
    dropped, and the end is moved back to frame 5, which is frame 4 of the
    decimated clip.  A range that ends on frame 0 of a clip whose frame 0
    is dropped has no end. *)
Example maybeTranslate_end_examples :
  maybeTranslate 6 true PostDecimate s1_project = Ok 4 s1_project /\
  maybeTranslate 6 false PostDecimate s1_project = Ok 5 s1_project /\
  (exists p, addDecimatedFrame 0 (new_project 10 5) = Ok tt p /\
             maybeTranslate 0 true PostDecimate p = Raise OutOfRange p).
Proof.
  split; [vm_compute; reflexivity|]. split; [vm_compute; reflexivity|].
  eexists. split; vm_compute; reflexivity.
Qed.

(** ** Reading the decimated frames of a project document *)

Lemma decimated_frames_loop (elements : list JsonValue) (p : WobblyProject) :
  decimation_wf p -> cycles_not_full p ->
  exists q,
    project_after
      (for_each elements (fun value =>
         if IsInt value then
           match value with
           | JInt frame => addDecimatedFrame frame
           | _ => undefined
           end
         else throw ParseError) p) = Some q /\
    decimation_wf q /\ cycles_not_full q /\
    num_frames_source q = num_frames_source p /\
    (forall x, is_dropped (decimated_frames q) x = true ->
       is_dropped (decimated_frames p) x = true \/ JInt x ∈ elements) /\
    ((forall value, value ∈ elements ->
        exists frame, value = JInt frame /\ IsInt value = true
                      /\ 0 <= frame < num_frames_source p) ->
     for_each elements (fun value =>
         if IsInt value then
           match value with
           | JInt frame => addDecimatedFrame frame
           | _ => undefined
           end
         else throw ParseError) p = Ok tt q).
Proof.
  revert p. induction elements as [|value rest IH]; intros p Hwf Hnf.
  - exists p. split; [reflexivity|]. auto 10.
  - rewrite for_each_cons.
    destruct (IsInt value) eqn:Hint.
    2: { exists p. rewrite bind_throw. split; [reflexivity|].
         split; [exact Hwf|]. split; [exact Hnf|]. split; [reflexivity|].
         split; [auto|]. intros Hall.
         destruct (Hall value ltac:(left)) as (frame & _ & Hint' & _).
         congruence. }
    destruct value as [| |frame| | | |]; try discriminate.
    destruct (addDecimatedFrame_step p frame Hwf)
      as (q1 & Hafter & Hok & Hwf1 & Hn1 & Hnf1 & Hsame & _).
    destruct (addDecimatedFrame frame p) as [[] s| e s|] eqn:Hadd;
      try discriminate; injection Hafter as ->.
    + rewrite (bind_ok _ _ _ _ _ Hadd).
      destruct (IH q1 Hwf1 (Hnf1 Hnf))
        as (q & Hq & Hwf' & Hnf' & Hn' & Hdropped & Hall).
      exists q. split; [exact Hq|]. split; [exact Hwf'|]. split; [exact Hnf'|].
      split; [congruence|]. split.
      * intros x Hx. destruct (Hdropped x Hx) as [Hx1|Hx1].
        -- destruct (decide (x = frame)) as [->|Hne]; [right; left|].
           left. rewrite <- (Hsame x Hne). exact Hx1.
        -- right. right. exact Hx1.
      * intros Hvalid. apply Hall. intros v Hv.
        destruct (Hvalid v ltac:(right; exact Hv)) as (fr & Hfr & Hi & Hin).
        exists fr. rewrite Hn1. auto.
    + rewrite (bind_raise _ _ _ _ _ Hadd).
      exists q1. split; [reflexivity|]. split; [exact Hwf1|].
      split; [exact (Hnf1 Hnf)|]. split; [exact Hn1|]. split.
      * intros x Hx. destruct (decide (x = frame)) as [->|Hne]; [right; left|].
        left. rewrite <- (Hsame x Hne). exact Hx.
      * intros Hvalid.
        destruct (Hvalid (JInt frame) ltac:(left)) as (fr & [= <-] & _ & Hin).
        pose proof (Hok Hin) as Hcontra. discriminate Hcontra.
Qed.

(** The decimation state that [readProject] starts the block with. *)
Lemma resized_frames_wf (p : WobblyProject) :
  decimated_frames p = [] ->
  num_frames_decimated p = num_frames_source p ->
  0 < num_frames_source p ->
  let q := set_decimated_frames
             (vec_resize (decimated_frames p)
                ((num_frames_source p - 1) `quot` 5 + 1) ∅) p in
  decimation_wf q /\ cycles_not_full q
  /\ forall x, is_dropped (decimated_frames q) x = false.
Proof.
  intros Hdf Hnd Hn. cbn zeta. rewrite Hdf, vec_resize_empty.
  assert (Hq : 0 <= (num_frames_source p - 1) `quot` 5)
    by (apply Z.quot_pos; lia).
  split; [split; [|split]|split].
  - unfold cycles_allocated, vsize.
    cbn [decimated_frames num_frames_source set_decimated_frames].
    rewrite length_replicate. lia.
  - intros i c o. cbn [decimated_frames set_decimated_frames].
    intros Hc Ho. apply lookup_replicate in Hc as [-> _]. set_solver.
  - unfold counter_consistent.
    cbn [decimated_frames num_frames_source num_frames_decimated
         set_decimated_frames].
    rewrite total_dropped_replicate. lia.
  - intros i c. cbn [decimated_frames set_decimated_frames].
    intros Hc. apply lookup_replicate in Hc as [-> _]. rewrite size_empty. lia.
  - intros x. unfold is_dropped, vec_at.
    cbn [decimated_frames set_decimated_frames].
    case_decide; [|reflexivity].
    destruct (replicate _ _ !! _) as [c|] eqn:Hc; [|reflexivity].
    apply lookup_replicate in Hc as [-> _]. apply bool_decide_eq_false.
    set_solver.
Qed.

(** X14.  The block of [readProject] that reads the decimated frames, on
    the project as [readProject] has it there (no sets yet, the counter of
    the decimated frames equal to the number of source frames, which is
    positive): whatever the document holds, the block leaves a well-formed
    decimation state with no cycle fully dropped, in which only frames that
    the document lists are dropped; and it returns when the key holds an
    array of no more elements than the clip has frames, all of them
    integers that are frames of the clip. *)
Theorem readProject_decimated_frames_wf (p : WobblyProject)
    (json_project : list (string * JsonValue)) :
  decimated_frames p = [] ->
  num_frames_decimated p = num_frames_source p ->
  0 < num_frames_source p <= INT_MAX ->
  (exists q,
     project_after (readProject_decimated_frames json_project p) = Some q /\
     decimation_wf q /\ cycles_not_full q /\
     forall x,
       is_dropped (decimated_frames q) x = true ->
       exists elements,
         FindMember json_project "decimated frames" = Some (JArray elements)
         /\ JInt x ∈ elements) /\
  (forall elements,
     FindMember json_project "decimated frames" = Some (JArray elements) ->
     vsize elements <= num_frames_source p ->
     (forall value, value ∈ elements ->
        exists frame, value = JInt frame /\ 0 <= frame < num_frames_source p) ->
     exists q, readProject_decimated_frames json_project p = Ok tt q).
Proof.
  intros Hdf Hnd Hn.
  destruct (resized_frames_wf p Hdf Hnd ltac:(lia)) as (Hwf0 & Hnf0 & Hnone).
  cbn zeta in *.
  assert (Hq : 0 <= (num_frames_source p - 1) `quot` 5)
    by (apply Z.quot_pos; lia).
  assert (Hsz : to_SizeType (num_frames_source p) = num_frames_source p).
  { unfold to_SizeType, INT_MAX in *. apply Z.mod_small. lia. }
  unfold readProject_decimated_frames, getNumFrames. msimpl.
  rewrite decide_False by lia. msimpl. rewrite Hsz.
  set (q0 := set_decimated_frames
               (vec_resize (decimated_frames p)
                  ((num_frames_source p - 1) `quot` 5 + 1) ∅) p) in *.
  assert (Hblank : forall x, is_dropped (decimated_frames q0) x = true ->
            exists elements,
              FindMember json_project "decimated frames"
              = Some (JArray elements) /\ JInt x ∈ elements).
  { intros x Hx. rewrite Hnone in Hx. discriminate. }
  destruct (FindMember json_project "decimated frames") as [value|] eqn:Hfind.
  2: { split; [|intros; discriminate]. exists q0. split; [reflexivity|]. auto. }
  destruct value as [| | | | |elements|];
    try (split; [|intros; discriminate]; exists q0; split; [reflexivity|]; auto).
  destruct (decimated_frames_loop elements q0 Hwf0 Hnf0)
    as (q & Hq' & Hwf' & Hnf' & Hn' & Hdropped & Hok).
  split.
  - case_bool_decide as Hlong; msimpl.
    + exists q0. split; [reflexivity|]. auto.
    + exists q. split; [exact Hq'|]. split; [exact Hwf'|]. split; [exact Hnf'|].
      intros x Hx. exists elements. split; [reflexivity|].
      destruct (Hdropped x Hx) as [Hx0|Hx0]; [|exact Hx0].
      rewrite Hnone in Hx0. discriminate.
  - intros els [= <-] Hshort Hvalid.
    rewrite bool_decide_eq_false_2 by lia. msimpl.
    exists q. apply Hok. intros value Hv.
    destruct (Hvalid value Hv) as (frame & -> & Hframe).
    exists frame. split; [reflexivity|]. split; [|exact Hframe].
    unfold IsInt. apply bool_decide_eq_true. unfold INT_MAX in *.
    change (num_frames_source q0) with (num_frames_source p) in *. lia.
Qed.

(** A document that lists the frames 1, 6 and 1 again, read into a project
    of ten frames. *)
Lemma readProject_decimated_frames_wf_witness :
  (exists q,
     project_after
       (readProject_decimated_frames
          [("decimated frames", JArray [JInt 1; JInt 6; JInt 1])]%string
          (set_num_frames_decimated 10 (set_num_frames_source 10 (blank_project 5))))
     = Some q /\
     decimation_wf q /\ cycles_not_full q /\
     forall x,
       is_dropped (decimated_frames q) x = true ->
       exists elements,
         FindMember [("decimated frames", JArray [JInt 1; JInt 6; JInt 1])]%string
           "decimated frames" = Some (JArray elements)
         /\ JInt x ∈ elements) /\
  (exists q,
     readProject_decimated_frames
       [("decimated frames", JArray [JInt 1; JInt 6; JInt 1])]%string
       (set_num_frames_decimated 10 (set_num_frames_source 10 (blank_project 5)))
     = Ok tt q).
Proof.
  destruct (readProject_decimated_frames_wf
              (set_num_frames_decimated 10
                 (set_num_frames_source 10 (blank_project 5)))
              [("decimated frames", JArray [JInt 1; JInt 6; JInt 1])]%string
              eq_refl eq_refl) as [Hany Hok].
  - unfold INT_MAX. simpl. lia.
  - split; [exact Hany|].
    apply (Hok [JInt 1; JInt 6; JInt 1] eq_refl).
    + unfold vsize. simpl. lia.
    + intros value Hv.
      repeat (apply elem_of_cons in Hv as [->|Hv]; [eexists; split; [reflexivity|simpl; lia]|]).
      inversion Hv.
Defined.

(** ** The ranges of equal decimation *)

Lemma filter_none {A} (P : A -> Prop) `{!forall x, Decision (P x)}
    (l : list A) :
  (forall x, x ∈ l -> ~ P x) -> filter P l = [].
Proof.
  induction l as [|x l IH]; intros Hnone; [reflexivity|].
  rewrite filter_cons_False by (apply Hnone; left).
  apply IH. intros y Hy. apply Hnone. right. exact Hy.
Qed.

Lemma decimation_ranges_starts (cycles : list (gset Z)) (i0 cur : Z)
    (r : DecimationRange) :
  r ∈ decimation_ranges_from i0 cur cycles ->
  exists k c, cycles !! k = Some c /\ dr_start r = (i0 + Z.of_nat k) * 5
              /\ dr_num_dropped r = Z.of_nat (size c).
Proof.
  revert i0 cur. induction cycles as [|c rest IH]; intros i0 cur Hr.
  - inversion Hr.
  - simpl in Hr. case_decide as Hne.
    + apply elem_of_cons in Hr as [->|Hr].
      * exists 0%nat, c. simpl. split; [reflexivity|]. split; [lia|reflexivity].
      * destruct (IH _ _ Hr) as (k & c' & Hk & Hs & Hn).
        exists (S k), c'. split; [exact Hk|]. split; [lia|exact Hn].
    + destruct (IH _ _ Hr) as (k & c' & Hk & Hs & Hn).
      exists (S k), c'. split; [exact Hk|]. split; [lia|exact Hn].
Qed.

Lemma decimation_ranges_adjacent (cycles : list (gset Z)) (i0 cur : Z) :
  (forall r, head (decimation_ranges_from i0 cur cycles) = Some r ->
             dr_num_dropped r <> cur /\ i0 * 5 <= dr_start r) /\
  (forall k r r',
     decimation_ranges_from i0 cur cycles !! k = Some r ->
     decimation_ranges_from i0 cur cycles !! S k = Some r' ->
     dr_start r < dr_start r' /\ dr_num_dropped r <> dr_num_dropped r').
Proof.
  revert i0 cur. induction cycles as [|c rest IH]; intros i0 cur.
  - split; [discriminate|]. intros k r r' Hr. destruct k; discriminate.
  - simpl. case_decide as Hne.
    + destruct (IH (i0 + 1) (Z.of_nat (size c))) as [Hhead Hadj]. split.
      * intros r [= <-]. simpl. split; [exact Hne|lia].
      * intros k r r' Hr Hr'. destruct k as [|k].
        -- injection Hr as <-. simpl in Hr'. rewrite <- head_lookup in Hr'.
           destruct (Hhead r' Hr') as [Hd Hs]. simpl. split; [lia|congruence].
        -- apply (Hadj k r r' Hr Hr').
    + destruct (IH (i0 + 1) cur) as [Hhead Hadj]. split; [|exact Hadj].
      intros r Hr. destruct (Hhead r Hr). split; [assumption|lia].
Qed.

Lemma decimation_ranges_cover (cycles : list (gset Z)) (i0 cur : Z) (k : nat)
    (c : gset Z) :
  cycles !! k = Some c ->
  default cur
    (dr_num_dropped <$>
       last (filter (fun r => dr_start r <= (i0 + Z.of_nat k) * 5)
               (decimation_ranges_from i0 cur cycles)))
  = Z.of_nat (size c).
Proof.
  revert i0 cur k. induction cycles as [|c0 rest IH]; intros i0 cur k Hk.
  - discriminate.
  - assert (Hlater : forall (cur' : Z) (r : DecimationRange),
              r ∈ decimation_ranges_from (i0 + 1) cur' rest ->
              (i0 + 1) * 5 <= dr_start r).
    { intros cur' r Hr.
      destruct (decimation_ranges_starts _ _ _ _ Hr) as (j & _ & _ & Hs & _).
      lia. }
    simpl. destruct k as [|k].
    + injection Hk as ->.
      assert (Hnone : forall cur',
                filter (fun r => dr_start r <= (i0 + Z.of_nat 0) * 5)
                  (decimation_ranges_from (i0 + 1) cur' rest) = []).
      { intros cur'. apply filter_none.
        intros r Hr. specialize (Hlater cur' r Hr). lia. }
      case_decide as Hne.
      * rewrite filter_cons_True by (simpl; lia). rewrite Hnone. reflexivity.
      * rewrite Hnone. simpl. lia.
    + simpl in Hk.
      replace (i0 + Z.of_nat (S k)) with (i0 + 1 + Z.of_nat k) by lia.
      case_decide as Hne.
      * rewrite filter_cons_True by (simpl; lia). rewrite last_cons.
        specialize (IH (i0 + 1) (Z.of_nat (size c0)) k Hk).
        destruct (last _) as [r|]; simpl in *; exact IH.
      * apply IH, Hk.
Qed.

(** X15.  [getDecimationRanges] splits the cycles of the clip into ranges
    of equal numbers of dropped frames: every cycle falls into the last
    range that starts at or before it, and that range has the number of
    drops of the cycle; the ranges start at first frames of cycles, in
    increasing order, and two neighbours never have the same number of
    drops. *)
Theorem getDecimationRanges_spec (p : WobblyProject) :
  exists ranges,
    getDecimationRanges p = Ok ranges p /\
    (forall i c, 0 <= i -> vec_at (decimated_frames p) i = Some c ->
       exists r, range_of_cycle ranges i = Some r
                 /\ dr_num_dropped r = Z.of_nat (size c)) /\
    (forall r, r ∈ ranges ->
       exists i c, 0 <= i /\ vec_at (decimated_frames p) i = Some c
                   /\ dr_start r = i * 5
                   /\ dr_num_dropped r = Z.of_nat (size c)) /\
    (forall k r r', ranges !! k = Some r -> ranges !! S k = Some r' ->
       dr_start r < dr_start r' /\ dr_num_dropped r <> dr_num_dropped r').
Proof.
  exists (decimation_ranges_from 0 (-1) (decimated_frames p)).
  split; [reflexivity|]. split; [|split].
  - intros i c Hi Hc. unfold vec_at in Hc. rewrite decide_True in Hc by lia.
    pose proof (decimation_ranges_cover _ 0 (-1) _ _ Hc) as Hcover.
    unfold range_of_cycle. rewrite Z2Nat.id in Hcover by lia.
    replace (0 + i) with i in Hcover by lia.
    destruct (last _) as [r|]; simpl in Hcover; [eauto|lia].
  - intros r Hr.
    destruct (decimation_ranges_starts _ _ _ _ Hr) as (k & c & Hk & Hs & Hn).
    exists (Z.of_nat k), c. split; [lia|]. split; [|split; [lia|exact Hn]].
    unfold vec_at. rewrite decide_True by lia. rewrite Nat2Z.id. exact Hk.
  - apply decimation_ranges_adjacent.
Qed.

(** ** Equal decimation patterns *)

Lemma same_elements_eq (a b : list Z) :
  length a = length b -> same_elements a b = true -> a = b.
Proof.
  revert b. induction a as [|x a IH]; intros [|y b] Hlen Hsame;
    try discriminate; [reflexivity|].
  simpl in Hsame. case_decide as Hxy; [discriminate|].
  f_equal; [destruct (decide (x = y)); [assumption|contradiction]|].
  apply IH; [simpl in Hlen; lia|exact Hsame].
Qed.

Lemma same_elements_refl (a : list Z) : same_elements a a = true.
Proof.
  induction a as [|x a IH]; [reflexivity|]. simpl.
  rewrite decide_False by auto. exact IH.
Qed.

Lemma ordered_elements_length (s : gset Z) :
  length (ordered_elements s) = size s.
Proof.
  unfold ordered_elements. rewrite merge_sort_Permutation. reflexivity.
Qed.

(** [areDecimationPatternsEqual] decides equality. *)
Lemma areDecimationPatternsEqual_iff (a b : gset Z) :
  areDecimationPatternsEqual a b = true <-> a = b.
Proof.
  unfold areDecimationPatternsEqual. split.
  - case_decide as Hsize; [discriminate|]. intros Hsame.
    apply same_elements_eq in Hsame.
    + apply set_eq. intros x.
      rewrite <- !elem_of_ordered_elements, Hsame. reflexivity.
    + rewrite !ordered_elements_length.
      destruct (decide (size a = size b)); [assumption|contradiction].
  - intros ->. rewrite decide_False by auto. apply same_elements_refl.
Qed.

(** X16.  [areDecimationPatternsEqual] is equality of the two sets of
    dropped offsets: walking the two ordered sets side by side, after the
    sizes are found equal, finds a difference exactly when the sets
    differ. *)
Theorem areDecimationPatternsEqual_spec (a b : gset Z) :
  areDecimationPatternsEqual a b = true <-> a = b.
Proof. apply areDecimationPatternsEqual_iff. Qed.

Lemma decimation_pattern_ranges_starts (cycles : list (gset Z)) (i0 : Z)
    (cur : gset Z) (r : DecimationPatternRange) :
  r ∈ decimation_pattern_ranges_from i0 cur cycles ->
  exists k, cycles !! k = Some (dpr_dropped_offsets r)
            /\ dpr_start r = (i0 + Z.of_nat k) * 5.
Proof.
  revert i0 cur. induction cycles as [|c rest IH]; intros i0 cur Hr.
  - inversion Hr.
  - simpl in Hr. destruct (areDecimationPatternsEqual c cur).
    + destruct (IH _ _ Hr) as (k & Hk & Hs).
      exists (S k). split; [exact Hk|lia].
    + apply elem_of_cons in Hr as [->|Hr].
      * exists 0%nat. simpl. split; [reflexivity|lia].
      * destruct (IH _ _ Hr) as (k & Hk & Hs).
        exists (S k). split; [exact Hk|lia].
Qed.

Lemma decimation_pattern_ranges_adjacent (cycles : list (gset Z)) (i0 : Z)
    (cur : gset Z) :
  (forall r, head (decimation_pattern_ranges_from i0 cur cycles) = Some r ->
             dpr_dropped_offsets r <> cur /\ i0 * 5 <= dpr_start r) /\
  (forall k r r',
     decimation_pattern_ranges_from i0 cur cycles !! k = Some r ->
     decimation_pattern_ranges_from i0 cur cycles !! S k = Some r' ->
     dpr_start r < dpr_start r'
     /\ dpr_dropped_offsets r <> dpr_dropped_offsets r').
Proof.
  revert i0 cur. induction cycles as [|c rest IH]; intros i0 cur.
  - split; [discriminate|]. intros k r r' Hr. destruct k; discriminate.
  - simpl. destruct (areDecimationPatternsEqual c cur) eqn:Heq.
    + destruct (IH (i0 + 1) cur) as [Hhead Hadj]. split; [|exact Hadj].
      intros r Hr. destruct (Hhead r Hr). split; [assumption|lia].
    + assert (Hne : c <> cur).
      { intros ->. rewrite (proj2 (areDecimationPatternsEqual_iff cur cur))
          in Heq by reflexivity. discriminate. }
      destruct (IH (i0 + 1) c) as [Hhead Hadj]. split.
      * intros r [= <-]. simpl. split; [exact Hne|lia].
      * intros k r r' Hr Hr'. destruct k as [|k].
        -- injection Hr as <-. simpl in Hr'. rewrite <- head_lookup in Hr'.
           destruct (Hhead r' Hr') as [Hd Hs]. simpl. split; [lia|congruence].
        -- apply (Hadj k r r' Hr Hr').
Qed.

Lemma decimation_pattern_ranges_cover (cycles : list (gset Z)) (i0 : Z)
    (cur : gset Z) (k : nat) (c : gset Z) :
  cycles !! k = Some c ->
  default cur
    (dpr_dropped_offsets <$>
       last (filter (fun r => dpr_start r <= (i0 + Z.of_nat k) * 5)
               (decimation_pattern_ranges_from i0 cur cycles)))
  = c.
Proof.
  revert i0 cur k. induction cycles as [|c0 rest IH]; intros i0 cur k Hk.
  - discriminate.
  - assert (Hlater : forall (cur' : gset Z) (r : DecimationPatternRange),
              r ∈ decimation_pattern_ranges_from (i0 + 1) cur' rest ->
              (i0 + 1) * 5 <= dpr_start r).
    { intros cur' r Hr.
      destruct (decimation_pattern_ranges_starts _ _ _ _ Hr) as (j & _ & Hs).
      lia. }
    simpl. destruct k as [|k].
    + injection Hk as ->.
      assert (Hnone : forall cur',
                filter (fun r => dpr_start r <= (i0 + Z.of_nat 0) * 5)
                  (decimation_pattern_ranges_from (i0 + 1) cur' rest) = []).
      { intros cur'. apply filter_none.
        intros r Hr. specialize (Hlater cur' r Hr). lia. }
      destruct (areDecimationPatternsEqual c cur) eqn:Heq; cbn [negb].
      * rewrite Hnone. simpl. symmetry.
        apply areDecimationPatternsEqual_iff, Heq.
      * simpl. rewrite filter_cons_True by (simpl; lia). rewrite Hnone.
        reflexivity.
    + simpl in Hk.
      replace (i0 + Z.of_nat (S k)) with (i0 + 1 + Z.of_nat k) by lia.
      destruct (areDecimationPatternsEqual c0 cur) eqn:Heq; cbn [negb].
      * apply IH, Hk.
      * simpl. rewrite filter_cons_True by (simpl; lia). rewrite last_cons.
        specialize (IH (i0 + 1) c0 k Hk).
        destruct (last _) as [r|]; simpl in *; exact IH.
Qed.

(** X17.  [getDecimationPatternRanges], in a project whose dropped offsets
    are offsets of frames, splits the cycles into ranges of equal sets of
    dropped offsets: every cycle falls into the last range that starts at
    or before it, and that range has the set of the cycle; the ranges start
    at first frames of cycles, in increasing order, and two neighbours never
    have the same set. *)
Theorem getDecimationPatternRanges_spec (p : WobblyProject) :
  drops_in_range p ->
  exists ranges,
    getDecimationPatternRanges p = Ok ranges p /\
    (forall i c, 0 <= i -> vec_at (decimated_frames p) i = Some c ->
       exists r, pattern_range_of_cycle ranges i = Some r
                 /\ dpr_dropped_offsets r = c) /\
    (forall r, r ∈ ranges ->
       exists i, 0 <= i
                 /\ vec_at (decimated_frames p) i = Some (dpr_dropped_offsets r)
                 /\ dpr_start r = i * 5) /\
    (forall k r r', ranges !! k = Some r -> ranges !! S k = Some r' ->
       dpr_start r < dpr_start r'
       /\ dpr_dropped_offsets r <> dpr_dropped_offsets r').
Proof.
  intros Hdrops.
  exists (decimation_pattern_ranges_from 0 {[ -1 ]} (decimated_frames p)).
  split; [reflexivity|]. split; [|split].
  - intros i c Hi Hc. unfold vec_at in Hc. rewrite decide_True in Hc by lia.
    pose proof (decimation_pattern_ranges_cover _ 0 {[ -1 ]} _ _ Hc) as Hcover.
    unfold pattern_range_of_cycle. rewrite Z2Nat.id in Hcover by lia.
    replace (0 + i) with i in Hcover by lia.
    destruct (last _) as [r|]; simpl in Hcover; [eauto|].
    exfalso. assert (Hin : -1 ∈ c) by (rewrite <- Hcover; set_solver).
    destruct (Hdrops _ _ _ Hc Hin). lia.
  - intros r Hr.
    destruct (decimation_pattern_ranges_starts _ _ _ _ Hr) as (k & Hk & Hs).
    exists (Z.of_nat k). split; [lia|]. split; [|lia].
    unfold vec_at. rewrite decide_True by lia. rewrite Nat2Z.id. exact Hk.
  - apply decimation_pattern_ranges_adjacent.
Qed.

Lemma getDecimationPatternRanges_spec_witness :
  exists ranges,
    getDecimationPatternRanges s1_project = Ok ranges s1_project /\
    (forall i c, 0 <= i -> vec_at (decimated_frames s1_project) i = Some c ->
       exists r, pattern_range_of_cycle ranges i = Some r
                 /\ dpr_dropped_offsets r = c) /\
    (forall r, r ∈ ranges ->
       exists i, 0 <= i
                 /\ vec_at (decimated_frames s1_project) i
                    = Some (dpr_dropped_offsets r)
                 /\ dpr_start r = i * 5) /\
    (forall k r r', ranges !! k = Some r -> ranges !! S k = Some r' ->
       dpr_start r < dpr_start r'
       /\ dpr_dropped_offsets r <> dpr_dropped_offsets r').
Proof.
  apply (getDecimationPatternRanges_spec s1_project).
  apply s1_project_wf.
Defined.

(** ** The history *)

Lemma pop_front_while_longer_drop (steps : nat) (stack : list UndoStep) :
  pop_front_while_longer steps stack = drop (length stack - steps) stack.
Proof.
  induction stack as [|step rest IH]; [reflexivity|].
  cbn [pop_front_while_longer]. case_decide as Hlong; simpl length in *.
  - rewrite IH.
    replace (S (length rest) - steps)%nat with (S (length rest - steps)) by lia.
    reflexivity.
  - simpl length in *.
    replace (S (length rest) - steps)%nat with 0%nat by lia. reflexivity.
Qed.

Lemma pop_front_while_over_drop (steps others : nat) (stack : list UndoStep) :
  (others <= steps)%nat ->
  pop_front_while_over steps others stack
  = Some (drop (length stack + others - steps) stack).
Proof.
  intros Hothers. induction stack as [|step rest IH].
  - simpl. rewrite decide_False by lia. rewrite drop_nil. reflexivity.
  - cbn [pop_front_while_over]. case_decide as Hlong; simpl length in *.
    + rewrite IH.
      replace (S (length rest) + others - steps)%nat
        with (S (length rest + others - steps)) by lia.
      reflexivity.
    + simpl length in *.
      replace (S (length rest) + others - steps)%nat with 0%nat by lia.
      reflexivity.
Qed.

Lemma two_at_the_back (stack : list UndoStep) :
  (1 < length stack)%nat ->
  exists rest below top, stack = rest ++ [below; top].
Proof.
  intros Hlen.
  destruct (decide (stack = [])) as [->|Hne]; [simpl in Hlen; lia|].
  destruct (exists_last Hne) as (front & top & ->).
  rewrite length_app in Hlen. simpl in Hlen.
  destruct (decide (front = [])) as [->|Hne']; [simpl in Hlen; lia|].
  destruct (exists_last Hne') as (rest & below & ->).
  exists rest, below, top. rewrite <- app_assoc. reflexivity.
Qed.

(** X18.  When there is a step to undo, [undo] followed by [redo] brings
    back both stacks as they were, and the project is in the state that the
    step on top of the undo stack had saved: what was edited after the last
    [commit] is gone. *)
Theorem redo_after_undo (p : WobblyProject) :
  (1 < length (undo_stack p))%nat ->
  exists top q r,
    back (undo_stack p) = Some top /\
    undo p = Ok tt q /\ redo q = Ok tt r /\
    undo_stack r = undo_stack p /\ redo_stack r = redo_stack p /\
    undo_steps r = undo_steps p /\
    observe r = saved_state top.
Proof.
  intros Hlen.
  destruct (two_at_the_back _ Hlen) as (rest & below & top & Hstack).
  destruct (undo_run p rest below top Hstack)
    as (q & Hundo & _ & Hus & Hrs & Hsteps).
  destruct (redo_run q (redo_stack p) top Hrs)
    as (r & Hredo & Hobs & Hus' & Hrs' & Hsteps').
  exists top, q, r. split.
  { rewrite Hstack. change [below; top] with ([below] ++ [top]).
    rewrite app_assoc. apply back_snoc. }
  split; [exact Hundo|]. split; [exact Hredo|]. split.
  { rewrite Hus', Hus, Hstack, <- app_assoc. reflexivity. }
  split; [exact Hrs'|]. split; [congruence|exact Hobs].
Qed.

Lemma redo_after_undo_witness :
  exists top q r,
    back (undo_stack committed_twice) = Some top /\
    undo committed_twice = Ok tt q /\ redo q = Ok tt r /\
    undo_stack r = undo_stack committed_twice /\
    redo_stack r = redo_stack committed_twice /\
    undo_steps r = undo_steps committed_twice /\
    observe r = saved_state top.
Proof.
  apply (redo_after_undo committed_twice). vm_compute. lia.
Defined.

(** X19.  [commit] never lets the undo stack grow beyond [undo_steps], and
    it empties the redo stack; the project itself is as it was.  With
    [undo_steps] at least 1 the step on top is the one just saved; with
    [undo_steps] 0 the undo stack is left empty, and nothing can be
    undone. *)
Theorem commit_bounds_history (description : string) (p : WobblyProject) :
  exists q,
    commit description p = Ok tt q /\
    (length (undo_stack q) <= undo_steps p)%nat /\
    redo_stack q = [] /\ observe q = observe p /\
    undo_steps q = undo_steps p /\
    ((1 <= undo_steps p)%nat ->
     back (undo_stack q) = Some (snapshot description p)) /\
    (undo_steps p = 0%nat -> undo_stack q = [] /\ undo q = Ok tt q).
Proof.
  destruct (commit_run description p) as (q & Hrun & Hobs & Hus & Hrs & Hsteps).
  exists q. split; [exact Hrun|].
  rewrite pop_front_while_longer_drop in Hus.
  rewrite length_app in Hus. simpl length in Hus.
  split; [rewrite Hus, length_drop, length_app; simpl; lia|].
  split; [exact Hrs|]. split; [exact Hobs|]. split; [exact Hsteps|]. split.
  - intros Hsome. rewrite Hus.
    rewrite drop_app_le by lia. apply back_snoc.
  - intros Hzero.
    assert (Hempty : undo_stack q = []).
    { rewrite Hus. apply drop_ge. rewrite length_app. simpl. lia. }
    split; [exact Hempty|]. apply undo_at_baseline. rewrite Hempty. simpl. lia.
Qed.

(** X20.  [setUndoSteps] always returns (it never pops from an empty
    stack) and leaves no more steps on the two stacks together than the new
    limit: the redo stack keeps its newest [steps] steps, the undo stack
    the newest steps that still fit beside them, and the undo stack is
    emptied whenever the redo stack had to be cut.  The project itself is
    as it was. *)
Theorem setUndoSteps_bounds (steps : nat) (p : WobblyProject) :
  exists q,
    setUndoSteps steps p = Ok tt q /\
    undo_steps q = steps /\
    redo_stack q = drop (length (redo_stack p) - steps) (redo_stack p) /\
    undo_stack q
    = drop (length (undo_stack p) + length (redo_stack p) - steps)
        (undo_stack p) /\
    (length (undo_stack q) + length (redo_stack q) <= steps)%nat /\
    observe q = observe p.
Proof.
  unfold setUndoSteps. msimpl.
  cbn [redo_stack undo_stack set_undo_steps].
  destruct (decide (steps < length (redo_stack p))%nat) as [Hcut|Hfit]; msimpl;
    cbn [redo_stack undo_stack set_undo_steps set_undo_stack set_redo_stack].
  - rewrite pop_front_while_longer_drop.
    rewrite pop_front_while_over_drop by (rewrite length_drop; lia).
    msimpl. eexists. split; [reflexivity|].
    cbn [redo_stack undo_stack undo_steps set_undo_steps set_undo_stack
         set_redo_stack].
    split; [reflexivity|]. split; [reflexivity|]. split.
    + rewrite drop_nil. symmetry. apply drop_ge. lia.
    + split; [rewrite drop_nil, length_drop; simpl; lia|reflexivity].
  - rewrite pop_front_while_over_drop by lia.
    msimpl. eexists. split; [reflexivity|].
    cbn [redo_stack undo_stack undo_steps set_undo_steps set_undo_stack
         set_redo_stack].
    split; [reflexivity|]. split.
    + replace (length (redo_stack p) - steps)%nat with 0%nat by lia.
      reflexivity.
    + split; [reflexivity|]. split; [rewrite length_drop; lia|reflexivity].
Qed.

(** ** Renaming a preset *)

Lemma set_sections_id (p : WobblyProject) : set_sections (sections p) p = p.
Proof. destruct p; reflexivity. Qed.

Lemma set_custom_lists_id (p : WobblyProject) :
  set_custom_lists (custom_lists p) p = p.
Proof. destruct p; reflexivity. Qed.

Lemma take_drop_renamed_step {A} (f : A -> A) (l : list A) (j : nat) (x : A) :
  l !! j = Some x ->
  take (S j) (<[j := f x]> l) ++ (f <$> drop (S j) (<[j := f x]> l))
  = take j l ++ (f <$> drop j l).
Proof.
  intros Hx. pose proof (lookup_lt_Some _ _ _ Hx) as Hlt.
  rewrite (take_S_r _ _ (f x))
    by (apply list_lookup_insert_eq; exact Hlt).
  rewrite take_insert_ge by lia.
  rewrite drop_insert_lt by lia.
  rewrite (drop_S _ _ _ Hx). rewrite fmap_cons, <- app_assoc. reflexivity.
Qed.

(** The loop of [renamePreset] over the presets of one section, from index
    [j] on. *)
Lemma rename_section_loop (old_name new_name : string) (key : Z) (n : nat) :
  forall (fuel : nat) (j : nat) (p : WobblyProject) (l : list string),
    sections p !! key = Some (mkSection key l) ->
    (j + n)%nat = length l -> (n <= fuel)%nat ->
    for_presets_of fuel key (Z.of_nat j) (fun j =>
      let* l := presets_of_section key in
      let* name := of_option (vec_at l j) in
      if decide (name = old_name) then
        let* start := start_of_section key in
        setSectionPresetName start j new_name
      else ret tt) p
    = Ok tt (set_sections
               (<[key := mkSection key
                           (take j l ++ (renamed old_name new_name <$> drop j l))]>
                  (sections p)) p).
Proof.
  induction n as [|n IH]; intros fuel j p l Hsec Hlen Hfuel.
  - assert (Hj : j = length l) by lia. subst j.
    rewrite firstn_all, drop_all, app_nil_r.
    rewrite insert_id by exact Hsec. rewrite set_sections_id.
    destruct fuel; cbn [for_presets_of]; unfold presets_of_section; msimpl;
      rewrite Hsec; msimpl; cbn [sec_presets]; unfold vsize;
      rewrite decide_False by lia; reflexivity.
  - destruct fuel as [|fuel]; [lia|].
    destruct (lookup_lt_is_Some_2 l j ltac:(lia)) as [name Hname].
    cbn [for_presets_of]. unfold presets_of_section at 1. msimpl.
    rewrite Hsec. msimpl. cbn [sec_presets]. unfold vsize.
    rewrite decide_True by lia.
    unfold presets_of_section at 1. msimpl. rewrite Hsec. msimpl.
    cbn [sec_presets]. unfold vec_at at 1. rewrite decide_True by lia.
    rewrite Nat2Z.id, Hname. msimpl.
    set (l1 := <[j := renamed old_name new_name name]> l).
    set (p1 := set_sections (<[key := mkSection key l1]> (sections p)) p).
    assert (Hstep :
      (if decide (name = old_name) then
         let* start := start_of_section key in
         setSectionPresetName start (Z.of_nat j) new_name
       else ret tt) p = Ok tt p1).
    { unfold p1, l1, renamed. case_decide as Hold.
      - unfold start_of_section. msimpl. rewrite Hsec. msimpl.
        cbn [sec_start]. unfold setSectionPresetName. msimpl. rewrite Hsec.
        cbn [sec_presets sec_start]. unfold vec_set.
        rewrite decide_True by lia. rewrite Nat2Z.id. reflexivity.
      - rewrite list_insert_id by exact Hname.
        rewrite insert_id by exact Hsec. rewrite set_sections_id. reflexivity. }
    rewrite (bind_ok _ _ _ _ _ Hstep).
    replace (Z.of_nat j + 1) with (Z.of_nat (S j)) by lia.
    rewrite (IH fuel (S j) p1 l1).
    + unfold p1. cbn [sections set_sections]. rewrite insert_insert_eq.
      unfold l1. rewrite (take_drop_renamed_step _ _ _ _ Hname).
      destruct p; reflexivity.
    + unfold p1. cbn [sections set_sections]. apply lookup_insert_eq.
    + unfold l1. rewrite length_insert. lia.
    + lia.
Qed.

Lemma rename_one_section (old_name new_name : string) (key : Z)
    (p : WobblyProject) (sec : SectionRec) :
  sections p !! key = Some sec -> sec_start sec = key ->
  for_section_presets key (fun j =>
      let* l := presets_of_section key in
      let* name := of_option (vec_at l j) in
      if decide (name = old_name) then
        let* start := start_of_section key in
        setSectionPresetName start j new_name
      else ret tt) p
  = Ok tt (set_sections
             (<[key := renamed_section old_name new_name sec]> (sections p)) p).
Proof.
  intros Hsec Hstart. destruct sec as [start l]. cbn [sec_start] in Hstart.
  subst start. unfold for_section_presets, presets_of_section at 1. msimpl.
  rewrite Hsec. msimpl. cbn [sec_presets].
  rewrite (rename_section_loop old_name new_name key (length l) _ 0 p l Hsec)
    by lia.
  reflexivity.
Qed.

(** The loop of [renamePreset] over the sections. *)
Lemma rename_sections_loop (old_name new_name : string) (keys : list Z) :
  forall p : WobblyProject,
    NoDup keys -> sections_keyed p ->
    (forall k, k ∈ keys -> is_Some (sections p !! k)) ->
    exists sections',
      for_each keys (fun key =>
        for_section_presets key (fun j =>
          let* l := presets_of_section key in
          let* name := of_option (vec_at l j) in
          if decide (name = old_name) then
            let* start := start_of_section key in
            setSectionPresetName start j new_name
          else ret tt)) p
      = Ok tt (set_sections sections' p) /\
      forall k, sections' !! k
                = if decide (k ∈ keys)
                  then renamed_section old_name new_name <$> sections p !! k
                  else sections p !! k.
Proof.
  induction keys as [|key keys IH]; intros p Hnd Hkeyed Hin.
  - exists (sections p). rewrite set_sections_id. split; [reflexivity|].
    intros k. rewrite decide_False by set_solver. reflexivity.
  - apply NoDup_cons in Hnd as [Hkey Hnd].
    destruct (Hin key ltac:(left)) as [sec Hsec].
    rewrite for_each_cons.
    rewrite (bind_ok _ _ _ _ _
               (rename_one_section old_name new_name key p sec Hsec
                  (Hkeyed _ _ Hsec))).
    set (p1 := set_sections
                 (<[key := renamed_section old_name new_name sec]> (sections p))
                 p).
    destruct (IH p1 Hnd) as (sections' & Hrun & Hlook).
    + intros k s. unfold p1. cbn [sections set_sections].
      rewrite lookup_insert. case_decide as Hk.
      * intros [= <-]. cbn [renamed_section sec_start]. subst k.
        apply (Hkeyed _ _ Hsec).
      * apply Hkeyed.
    + intros k Hk. unfold p1. cbn [sections set_sections].
      rewrite lookup_insert. case_decide; [eauto|]. apply Hin. right. exact Hk.
    + exists sections'. split.
      * rewrite Hrun. unfold p1. destruct p; reflexivity.
      * intros k. rewrite Hlook. unfold p1. cbn [sections set_sections].
        rewrite lookup_insert.
        destruct (decide (key = k)) as [<-|Hne].
        -- rewrite decide_False by exact Hkey. rewrite decide_True by left.
           rewrite Hsec. reflexivity.
        -- destruct (decide (k ∈ keys)) as [Hk|Hk].
           ++ rewrite decide_True by (right; exact Hk). reflexivity.
           ++ rewrite decide_False; [reflexivity|].
              intros [Heq|Hk']%elem_of_cons; [congruence|contradiction].
Qed.

(** The loop of [renamePreset] over the custom lists, from index [a] on. *)
Lemma rename_lists_loop (old_name new_name : string) (n : nat) :
  forall (a : nat) (p : WobblyProject),
    (a + n)%nat = length (custom_lists p) ->
    for_each (seqZ (Z.of_nat a) (Z.of_nat n)) (fun i =>
      let* cls := gets custom_lists in
      let* cl := of_option (vec_at cls i) in
      if decide (cl_preset cl = old_name) then
        model_setCustomListPreset i new_name
      else ret tt) p
    = Ok tt (set_custom_lists
               (take a (custom_lists p)
                ++ (renamed_list old_name new_name <$> drop a (custom_lists p)))
               p).
Proof.
  induction n as [|n IH]; intros a p Hlen.
  - assert (Ha : a = length (custom_lists p)) by lia.
    rewrite Ha, firstn_all, drop_all, app_nil_r, set_custom_lists_id.
    reflexivity.
  - destruct (lookup_lt_is_Some_2 (custom_lists p) a ltac:(lia)) as [cl Hcl].
    rewrite Nat2Z.inj_succ, seqZ_cons by lia. rewrite for_each_cons.
    replace (Z.pred (Z.succ (Z.of_nat n))) with (Z.of_nat n) by lia.
    replace (Z.succ (Z.of_nat a)) with (Z.of_nat (S a)) by lia.
    msimpl. unfold vec_at at 1. rewrite decide_True by lia.
    rewrite Nat2Z.id, Hcl. msimpl.
    set (cls1 := <[a := renamed_list old_name new_name cl]> (custom_lists p)).
    assert (Hstep :
      (if decide (cl_preset cl = old_name) then
         model_setCustomListPreset (Z.of_nat a) new_name
       else ret tt) p = Ok tt (set_custom_lists cls1 p)).
    { unfold cls1, renamed_list, renamed. case_decide as Hold.
      - unfold model_setCustomListPreset. msimpl. unfold vec_at.
        rewrite decide_True by lia. rewrite Nat2Z.id, Hcl. msimpl.
        unfold vec_set. rewrite decide_True by lia. rewrite Nat2Z.id.
        reflexivity.
      - replace (mkCustomList (cl_name cl) (cl_preset cl) (cl_position cl)
                   (cl_ranges cl)) with cl by (destruct cl; reflexivity).
        rewrite list_insert_id by exact Hcl.
        rewrite set_custom_lists_id. reflexivity. }
    rewrite (bind_ok _ _ _ _ _ Hstep).
    rewrite (IH (S a) (set_custom_lists cls1 p)).
    + cbn [custom_lists set_custom_lists]. unfold cls1.
      rewrite (take_drop_renamed_step _ _ _ _ Hcl).
      destruct p; reflexivity.
    + cbn [custom_lists set_custom_lists]. unfold cls1.
      rewrite length_insert. lia.
Qed.

(** What [renamePreset] does when it goes through. *)
Lemma renamePreset_run (p : WobblyProject) (old_name new_name : string)
    (preset : Preset) :
  old_name <> new_name -> presets p !! old_name = Some preset ->
  isNameSafeForPython new_name = true -> presets p !! new_name = None ->
  sections_keyed p ->
  exists q,
    renamePreset old_name new_name p = Ok tt q /\
    presets q
    = <[new_name := mkPreset new_name (preset_contents preset)]>
        (delete old_name (presets p)) /\
    sections q = (renamed_section old_name new_name <$> sections p) /\
    custom_lists q = (renamed_list old_name new_name <$> custom_lists p).
Proof.
  intros Hne Hold Hsafe Hnew Hkeyed.
  unfold renamePreset. rewrite decide_False by exact Hne. msimpl.
  rewrite bool_decide_eq_false_2 by congruence. msimpl. rewrite Hsafe.
  cbn [negb]. msimpl. unfold presetExists. msimpl.
  rewrite bool_decide_eq_false_2 by (rewrite Hnew; intros [? ?]; discriminate).
  msimpl. unfold getPresetContents. msimpl. rewrite Hold. msimpl.
  cbn [presets set_presets sections custom_lists].
  unfold map_insert_new. rewrite lookup_delete_ne by exact Hne. rewrite Hnew.
  set (ps' := <[new_name := mkPreset new_name (preset_contents preset)]>
                (delete old_name (presets p))).
  set (p0 := set_presets ps' (set_presets (delete old_name (presets p)) p)).
  destruct (rename_sections_loop old_name new_name (ordered_keys (sections p))
              p0 (ordered_keys_NoDup _))
    as (sections' & Hsecs & Hlook).
  { exact Hkeyed. }
  { intros k Hk. apply elem_of_ordered_keys in Hk. exact Hk. }
  change (sections p) with (sections p0) at 1.
  rewrite (bind_ok _ _ _ _ _ Hsecs). rewrite bind_gets.
  pose proof (rename_lists_loop old_name new_name (length (custom_lists p)) 0
                (set_sections sections' p0) eq_refl) as Hlists.
  change (Z.of_nat 0) with 0 in Hlists.
  change (custom_lists (set_sections sections' p0)) with (custom_lists p)
    in Hlists |- *.
  unfold range, vsize. rewrite Z.sub_0_r.
  rewrite (bind_ok _ _ _ _ _ Hlists).
  match goal with
  | |- context [setModified true ?s] =>
      destruct (setModified_frames true s) as (q & Hq & Hq')
  end.
  exists q. split; [exact Hq|]. rewrite Hq'.
  cbn [presets sections custom_lists set_is_modified set_custom_lists
       set_sections set_presets p0].
  split; [reflexivity|]. split.
  - apply map_eq. intros k. rewrite Hlook, lookup_fmap.
    cbn [sections set_presets p0].
    destruct (decide (k ∈ ordered_keys (sections p))) as [Hk|Hk];
      [reflexivity|].
    destruct (sections p !! k) as [sec|] eqn:Hsec; [|reflexivity].
    exfalso. apply Hk, elem_of_ordered_keys. eauto.
  - rewrite take_0, drop_0. reflexivity.
Qed.

(** X21.  [renamePreset] to a new name that is valid and free, in a project
    whose sections are kept under their starts: the preset is kept under
    the new name with the contents it had, and the old name is replaced by
    the new one in the presets of every section, at every place it occurs,
    and in every custom list that named it.  Nothing else changes in
    them. *)
Theorem renamePreset_renames (p : WobblyProject) (old_name new_name : string)
    (preset : Preset) :
  old_name <> new_name -> presets p !! old_name = Some preset ->
  isNameSafeForPython new_name = true -> presets p !! new_name = None ->
  sections_keyed p ->
  exists q,
    renamePreset old_name new_name p = Ok tt q /\
    presets q
    = <[new_name := mkPreset new_name (preset_contents preset)]>
        (delete old_name (presets p)) /\
    sections q = (renamed_section old_name new_name <$> sections p) /\
    custom_lists q = (renamed_list old_name new_name <$> custom_lists p).
Proof. apply renamePreset_run. Qed.

Lemma preset_assigned_twice_sections :
  sections preset_assigned_twice
  = {[ 0 := mkSection 0 ["A"; "A"]%string ]}.
Proof. vm_compute. reflexivity. Qed.

Lemma preset_assigned_twice_keyed : sections_keyed preset_assigned_twice.
Proof.
  intros k sec. rewrite preset_assigned_twice_sections.
  intros [<- <-]%lookup_singleton_Some. reflexivity.
Qed.

Lemma renamePreset_renames_witness :
  exists q,
    renamePreset "A" "B" preset_assigned_twice = Ok tt q /\
    presets q
    = <["B"%string := mkPreset "B" (preset_contents (mkPreset "A" EmptyString))]>
        (delete "A"%string (presets preset_assigned_twice)) /\
    sections q = (renamed_section "A" "B" <$> sections preset_assigned_twice) /\
    custom_lists q = (renamed_list "A" "B" <$> custom_lists preset_assigned_twice).
Proof.
  apply (renamePreset_renames preset_assigned_twice "A" "B"
           (mkPreset "A" EmptyString)).
  - discriminate.
  - vm_compute. reflexivity.
  - vm_compute. reflexivity.
  - vm_compute. reflexivity.
  - apply preset_assigned_twice_keyed.
Defined.

(** ** References to presets *)

Lemma string_length_0 (s : string) : String.length s = 0%nat <-> s = EmptyString.
Proof. destruct s; simpl; split; intros H; (reflexivity || discriminate). Qed.

Lemma references_exist_presets (p : WobblyProject) (ps : gmap string Preset) :
  references_exist p ->
  (forall name, is_Some (presets p !! name) -> is_Some (ps !! name)) ->
  references_exist (set_presets ps p).
Proof.
  intros [Hsecs Hlists] Hmore. split.
  - intros k sec name Hsec Hname. apply Hmore. apply (Hsecs k sec name Hsec Hname).
  - intros cl Hcl Hne. apply Hmore. apply (Hlists cl Hcl Hne).
Qed.

Lemma references_exist_modified (p q : WobblyProject) :
  q = set_is_modified (is_modified q) p -> references_exist p ->
  references_exist q.
Proof. intros -> H. exact H. Qed.

Ltac unchanged p H :=
  exists p; split; [reflexivity|]; split; [exact H|]; first [reflexivity|tauto].

Ltac then_modified q Hq Hq' :=
  match goal with
  | |- context [setModified true ?s] =>
      destruct (setModified_frames true s) as (q & Hq & Hq')
  end.

Lemma addPreset_references (p : WobblyProject) (name contents : string) :
  references_exist p ->
  exists q, project_after (addPreset name contents p) = Some q
            /\ references_exist q /\ sections q = sections p.
Proof.
  intros Href. unfold addPreset.
  destruct (isNameSafeForPython name); cbn [negb]; msimpl;
    [|unchanged p Href].
  unfold presetExists. msimpl.
  case_bool_decide as Htaken; msimpl; [unchanged p Href|].
  then_modified q Hq Hq'.
  exists q. rewrite Hq. split; [reflexivity|].
  split; [|rewrite Hq'; reflexivity].
  apply (references_exist_modified _ _ Hq').
  apply references_exist_presets; [exact Href|].
  intros n [x Hx]. exists x. apply map_insert_new_keeps, Hx.
Qed.

Lemma setPresetContents_references (p : WobblyProject) (name contents : string) :
  references_exist p ->
  exists q, project_after (setPresetContents name contents p) = Some q
            /\ references_exist q /\ sections q = sections p.
Proof.
  intros Href. unfold setPresetContents. msimpl.
  destruct (presets p !! name) as [preset|] eqn:Hpreset; [|unchanged p Href].
  case_decide; [|unchanged p Href].
  msimpl. then_modified q Hq Hq'.
  exists q. rewrite Hq. split; [reflexivity|].
  split; [|rewrite Hq'; reflexivity].
  apply (references_exist_modified _ _ Hq').
  apply references_exist_presets; [exact Href|].
  intros n Hn. rewrite lookup_insert. case_decide; [eauto|exact Hn].
Qed.

Lemma setSectionPreset_references (p : WobblyProject) (section_start : Z)
    (name : string) :
  references_exist p ->
  exists q, project_after (setSectionPreset section_start name p) = Some q
            /\ references_exist q /\ (sections_keyed p -> sections_keyed q).
Proof.
  intros Href. unfold setSectionPreset.
  destruct (decide (0 <= section_start < num_frames_source p)) as [Hin|Hout].
  2: { rewrite (bind_raise _ _ _ _ _ (check_frame_bad _ p Hout)).
       unchanged p Href. }
  rewrite (bind_ok _ _ _ _ _ (check_frame_ok _ p Hin)). msimpl.
  case_bool_decide as Hsec; msimpl; [unchanged p Href|].
  case_bool_decide as Hpreset; msimpl; [unchanged p Href|].
  unfold appendSectionPreset. msimpl.
  destruct (sections p !! section_start) as [sec|] eqn:Hlook; [|contradiction].
  msimpl. then_modified q Hq Hq'.
  exists q. rewrite Hq. split; [reflexivity|].
  split; [|rewrite Hq'; intros Hk k s; cbn [sections set_sections set_is_modified];
           rewrite lookup_insert; case_decide as Hks;
           [intros [= <-]; cbn [sec_start]; subst k; apply (Hk _ _ Hlook)
           |apply Hk]].
  apply (references_exist_modified _ _ Hq').
  destruct Href as [Hsecs Hlists]. split; [|exact Hlists].
  intros k s n. cbn [sections presets set_sections].
  rewrite lookup_insert. case_decide as Hk.
  - intros [= <-]. cbn [sec_presets]. intros Hn.
    apply elem_of_app in Hn as [Hn|Hn].
    + apply (Hsecs _ _ _ Hlook Hn).
    + apply list_elem_of_singleton in Hn as ->.
      destruct (presets p !! name); [eauto|contradiction].
  - apply Hsecs.
Qed.

Lemma setCustomListPreset_references (p : WobblyProject) (list_index : Z)
    (name : string) :
  references_exist p ->
  exists q, project_after (setCustomListPreset list_index name p) = Some q
            /\ references_exist q /\ sections q = sections p.
Proof.
  intros Href. unfold setCustomListPreset. msimpl.
  case_bool_decide as Hout; msimpl; [unchanged p Href|].
  case_bool_decide as Hpreset; msimpl; [unchanged p Href|].
  unfold model_setCustomListPreset. msimpl. unfold vsize in Hout.
  destruct (vec_at (custom_lists p) list_index) as [cl|] eqn:Hcl.
  2: { exfalso. unfold vec_at in Hcl. rewrite decide_True in Hcl by lia.
       apply lookup_ge_None in Hcl. lia. }
  unfold vec_set. rewrite decide_True by lia. msimpl.
  then_modified q Hq Hq'.
  exists q. rewrite Hq. split; [reflexivity|].
  split; [|rewrite Hq'; reflexivity].
  apply (references_exist_modified _ _ Hq').
  destruct Href as [Hsecs Hlists]. split; [exact Hsecs|].
  intros cl'. cbn [custom_lists presets set_custom_lists]. intros Hin Hne.
  apply list_elem_of_lookup in Hin as [i Hi].
  apply list_lookup_insert_Some in Hi as [(_ & <- & _)|[_ Hi]].
  - cbn [cl_preset]. destruct (presets p !! name); [eauto|contradiction].
  - apply Hlists; [|exact Hne]. apply list_elem_of_lookup. eauto.
Qed.

Lemma addCustomList_references (p : WobblyProject) (list : CustomList) :
  references_exist p ->
  exists q, project_after (addCustomList list p) = Some q
            /\ references_exist q /\ sections q = sections p.
Proof.
  intros Href. unfold addCustomList.
  case_bool_decide as Hpos; msimpl; [unchanged p Href|].
  destruct (isNameSafeForPython (cl_name list)); cbn [negb]; msimpl;
    [|unchanged p Href].
  case_bool_decide as Hpreset; msimpl; [unchanged p Href|].
  case_bool_decide as Hname; msimpl; [unchanged p Href|].
  then_modified q Hq Hq'.
  exists q. rewrite Hq. split; [reflexivity|].
  split; [|rewrite Hq'; reflexivity].
  apply (references_exist_modified _ _ Hq').
  destruct Href as [Hsecs Hlists]. split; [exact Hsecs|].
  intros cl. cbn [custom_lists presets set_custom_lists]. intros Hin Hne.
  apply elem_of_app in Hin as [Hin|Hin]; [apply Hlists; assumption|].
  apply list_elem_of_singleton in Hin as ->.
  destruct (presets p !! cl_preset list) as [x|] eqn:Hx; [eauto|].
  exfalso. apply Hpreset. split; [|reflexivity].
  rewrite string_length_0. exact Hne.
Qed.

Lemma renamePreset_references (p : WobblyProject) (old_name new_name : string) :
  references_exist p -> sections_keyed p ->
  exists q, project_after (renamePreset old_name new_name p) = Some q
            /\ references_exist q /\ sections_keyed q.
Proof.
  intros Href Hkeyed.
  destruct (decide (old_name = new_name)) as [Heq|Hne].
  { exists p. unfold renamePreset. rewrite decide_True by exact Heq.
    split; [reflexivity|split; [exact Href|exact Hkeyed]]. }
  destruct (presets p !! old_name) as [preset|] eqn:Hold.
  2: { exists p. rewrite (renamePreset_no_such_preset p _ _ Hne Hold).
       split; [reflexivity|split; [exact Href|exact Hkeyed]]. }
  destruct (isNameSafeForPython new_name) eqn:Hsafe.
  2: { exists p. unfold renamePreset. rewrite decide_False by exact Hne. msimpl.
       rewrite bool_decide_eq_false_2 by congruence. msimpl. rewrite Hsafe.
       split; [reflexivity|split; [exact Href|exact Hkeyed]]. }
  destruct (presets p !! new_name) as [taken|] eqn:Hnew.
  { exists p. unfold renamePreset. rewrite decide_False by exact Hne. msimpl.
    rewrite bool_decide_eq_false_2 by congruence. msimpl. rewrite Hsafe.
    cbn [negb]. msimpl. unfold presetExists. msimpl.
    rewrite bool_decide_eq_true_2 by (rewrite Hnew; eauto).
    split; [reflexivity|split; [exact Href|exact Hkeyed]]. }
  destruct (renamePreset_run p old_name new_name preset Hne Hold Hsafe Hnew
              Hkeyed) as (q & Hrun & Hps & Hsecs & Hlists).
  exists q. rewrite Hrun. split; [reflexivity|].
  split.
  2: { intros k sec. rewrite Hsecs, lookup_fmap.
       destruct (sections p !! k) as [sec0|] eqn:Hsec0; [|discriminate].
       intros [= <-]. cbn [renamed_section sec_start]. apply (Hkeyed _ _ Hsec0). }
  assert (Hkept : forall name, is_Some (presets p !! name) ->
            is_Some (presets q !! renamed old_name new_name name)).
  { intros name Hname. rewrite Hps. unfold renamed.
    case_decide as Hn; [rewrite lookup_insert_eq; eauto|].
    rewrite lookup_insert_ne by (intros <-; rewrite Hnew in Hname;
                                 destruct Hname; discriminate).
    rewrite lookup_delete_ne by congruence. exact Hname. }
  destruct Href as [Hrs Hrl]. split.
  - intros k sec name. rewrite Hsecs, lookup_fmap.
    destruct (sections p !! k) as [sec0|] eqn:Hsec0; [|discriminate].
    intros [= <-]. cbn [renamed_section sec_presets]. intros Hname.
    apply list_elem_of_fmap in Hname as (name0 & -> & Hname0).
    apply Hkept. apply (Hrs _ _ _ Hsec0 Hname0).
  - intros cl. rewrite Hlists. intros Hcl Hnonempty.
    apply list_elem_of_fmap in Hcl as (cl0 & -> & Hcl0).
    cbn [renamed_list cl_preset] in *. apply Hkept.
    destruct (decide (cl_preset cl0 = old_name)) as [->|Hother];
      [rewrite Hold; eauto|].
    apply Hrl; [exact Hcl0|]. unfold renamed in Hnonempty.
    rewrite decide_False in Hnonempty by exact Hother. exact Hnonempty.
Qed.


Lemma sections_keyed_same (p q : WobblyProject) :
  sections q = sections p -> sections_keyed p -> sections_keyed q.
Proof. intros Heq Hk k sec. rewrite Heq. apply Hk. Qed.

(** X22.  In a project where every preset named by a section or by a custom
    list exists, and whose sections are kept under their starts, both stay
    so after [addPreset], [setPresetContents], [setSectionPreset],
    [setCustomListPreset], [addCustomList] and [renamePreset], with any
    arguments, whether the call returns or throws; none of them has
    undefined behaviour there. *)
Theorem references_exist_kept (p : WobblyProject) :
  references_exist p -> sections_keyed p ->
  (forall name contents,
      exists q, project_after (addPreset name contents p) = Some q
                /\ references_exist q /\ sections_keyed q) /\
  (forall name contents,
      exists q, project_after (setPresetContents name contents p) = Some q
                /\ references_exist q /\ sections_keyed q) /\
  (forall section_start name,
      exists q, project_after (setSectionPreset section_start name p) = Some q
                /\ references_exist q /\ sections_keyed q) /\
  (forall list_index name,
      exists q, project_after (setCustomListPreset list_index name p) = Some q
                /\ references_exist q /\ sections_keyed q) /\
  (forall list,
      exists q, project_after (addCustomList list p) = Some q
                /\ references_exist q /\ sections_keyed q) /\
  (forall old_name new_name,
      exists q, project_after (renamePreset old_name new_name p) = Some q
                /\ references_exist q /\ sections_keyed q).
Proof.
  intros Href Hkeyed.
  split.
  { intros name contents.
    destruct (addPreset_references p name contents Href) as (q & ? & ? & Hs).
    exists q. eauto using sections_keyed_same. }
  split.
  { intros name contents.
    destruct (setPresetContents_references p name contents Href)
      as (q & ? & ? & Hs).
    exists q. eauto using sections_keyed_same. }
  split.
  { intros section_start name.
    destruct (setSectionPreset_references p section_start name Href)
      as (q & ? & ? & Hs).
    exists q. eauto. }
  split.
  { intros list_index name.
    destruct (setCustomListPreset_references p list_index name Href)
      as (q & ? & ? & Hs).
    exists q. eauto using sections_keyed_same. }
  split.
  { intros list.
    destruct (addCustomList_references p list Href) as (q & ? & ? & Hs).
    exists q. eauto using sections_keyed_same. }
  intros. apply renamePreset_references; assumption.
Qed.

Lemma preset_assigned_twice_references : references_exist preset_assigned_twice.
Proof.
  split.
  - intros k sec name. rewrite preset_assigned_twice_sections.
    intros [<- <-]%lookup_singleton_Some. cbn [sec_presets].
    intros Hname. assert (name = "A"%string) as -> by set_solver.
    vm_compute. eauto.
  - intros cl Hcl. exfalso. vm_compute in Hcl. inversion Hcl.
Qed.

Lemma references_exist_kept_witness :
  (exists q, project_after (setSectionPreset 0 "B" preset_assigned_twice)
             = Some q /\ references_exist q /\ sections_keyed q) /\
  (exists q, project_after (renamePreset "A" "B" preset_assigned_twice)
             = Some q /\ references_exist q /\ sections_keyed q).
Proof.
  destruct (references_exist_kept preset_assigned_twice
              preset_assigned_twice_references preset_assigned_twice_keyed)
    as (_ & _ & Hset & _ & _ & Hrename).
  split; [apply Hset|apply Hrename].
Defined.

(** ** Combed frames *)

(** X23.  [findNextCombedFrame] returns the nearest combed frame after the
    frame, and the frame itself when no combed frame comes after it;
    [findPreviousCombedFrame] returns the nearest combed frame before the
    frame, and the frame itself when no combed frame comes before it.
    Neither checks the frame against the length of the clip, and neither
    changes the project. *)
Theorem combed_frame_search (p : WobblyProject) (frame : Z) :
  (exists r, findNextCombedFrame frame p = Ok r p /\
     ((r ∈ combed_frames p /\ frame < r /\
       forall j, j ∈ combed_frames p -> frame < j -> r <= j)
      \/ (r = frame /\ forall j, j ∈ combed_frames p -> j <= frame))) /\
  (exists r, findPreviousCombedFrame frame p = Ok r p /\
     ((r ∈ combed_frames p /\ r < frame /\
       forall j, j ∈ combed_frames p -> j < frame -> j <= r)
      \/ (r = frame /\ forall j, j ∈ combed_frames p -> frame <= j))).
Proof.
  split.
  - unfold findNextCombedFrame. msimpl.
    pose proof (set_upper_bound_spec (combed_frames p) frame) as H.
    destruct (set_upper_bound (combed_frames p) frame) as [r|].
    + exists r. split; [reflexivity|]. left. exact H.
    + exists frame. split; [reflexivity|]. right. split; [reflexivity|exact H].
  - unfold findPreviousCombedFrame. msimpl.
    pose proof (set_before_lower_bound_spec (combed_frames p) frame) as H.
    destruct (set_before_lower_bound (combed_frames p) frame) as [r|].
    + exists r. split; [reflexivity|]. left. exact H.
    + exists frame. split; [reflexivity|]. right. split; [reflexivity|exact H].
Qed.

(** ** Frozen frames *)

(** What [findFreezeFrame] finds among frozen ranges that share no frame. *)
Lemma findFreezeFrame_run (p : WobblyProject) (frame : Z) :
  frozen_wf (frozen_frames p) ->
  exists r, findFreezeFrame frame p = Ok r p /\
    match r with
    | Some ff => frozen_frames p !! ff_first ff = Some ff
                 /\ ff_first ff <= frame <= ff_last ff
    | None => forall k ff, frozen_frames p !! k = Some ff ->
                           ~ (ff_first ff <= frame <= ff_last ff)
    end.
Proof.
  intros [Hkey Hdisj]. unfold findFreezeFrame. msimpl.
  pose proof (before_upper_bound_spec (frozen_frames p) frame) as H.
  destruct (before_upper_bound (frozen_frames p) frame) as [[i ff]|].
  - destruct H as (Hi & Hle & Hmax).
    destruct (Hkey _ _ Hi) as [Hfirst Hlen].
    case_decide as Hin.
    + exists (Some ff). split; [reflexivity|]. rewrite Hfirst.
      split; [exact Hi|lia].
    + exists None. split; [reflexivity|]. intros k ff' Hk Hin'.
      destruct (Hkey _ _ Hk) as [Hfirst' Hlen'].
      assert (Hki : k <= i) by (apply Hmax; [eauto|lia]).
      destruct (decide (k = i)) as [->|Hne].
      * rewrite Hi in Hk. injection Hk as <-. contradiction.
      * destruct (Hdisj k i ff' ff Hk Hi Hne); lia.
  - exists None. split; [reflexivity|]. intros k ff Hk Hin.
    destruct (Hkey _ _ Hk) as [Hfirst Hlen].
    specialize (H k ltac:(eauto)). lia.
Qed.

(** X24.  Among frozen ranges that are kept under their first frames and
    share no frame, [findFreezeFrame] returns the range that holds the
    frame, and returns nothing exactly when no range holds it; the project
    is not changed. *)
Theorem findFreezeFrame_spec (p : WobblyProject) (frame : Z) :
  frozen_wf (frozen_frames p) ->
  exists r, findFreezeFrame frame p = Ok r p /\
    match r with
    | Some ff => frozen_frames p !! ff_first ff = Some ff
                 /\ ff_first ff <= frame <= ff_last ff
    | None => forall k ff, frozen_frames p !! k = Some ff ->
                           ~ (ff_first ff <= frame <= ff_last ff)
    end.
Proof. apply findFreezeFrame_run. Qed.

(** The search of [addFreezeFrame] finds a range in the way if there is
    one. *)
Lemma find_overlap_run (p : WobblyProject) (lo hi : Z) :
  frozen_wf (frozen_frames p) -> lo <= hi ->
  exists r, find_overlap lo hi p = Ok r p /\
    match r with
    | Some ff => frozen_frames p !! ff_first ff = Some ff
                 /\ ff_first ff <= hi /\ lo <= ff_last ff
    | None => forall k ff, frozen_frames p !! k = Some ff ->
                           ff_last ff < lo \/ hi < ff_first ff
    end.
Proof.
  intros Hwf Hlohi. pose proof Hwf as [Hkey Hdisj]. unfold find_overlap.
  destruct (findFreezeFrame_run p lo Hwf) as (r1 & Hrun1 & Hr1).
  rewrite (bind_ok _ _ _ _ _ Hrun1).
  destruct r1 as [ff|].
  { msimpl. exists (Some ff). split; [reflexivity|].
    split; [apply Hr1|]. lia. }
  destruct (findFreezeFrame_run p hi Hwf) as (r2 & Hrun2 & Hr2).
  rewrite (bind_ok _ _ _ _ _ Hrun2).
  destruct r2 as [ff|].
  { exists (Some ff). split; [reflexivity|].
    split; [apply Hr2|]. lia. }
  msimpl.
  pose proof (upper_bound_spec (frozen_frames p) lo) as H.
  destruct (upper_bound (frozen_frames p) lo) as [[i ff]|].
  - destruct H as (Hi & Hlt & Hmin).
    destruct (Hkey _ _ Hi) as [Hfirst Hlen].
    case_decide as Hbefore.
    + exists (Some ff). split; [reflexivity|]. rewrite Hfirst.
      split; [exact Hi|]. lia.
    + exists None. split; [reflexivity|]. intros k ff' Hk.
      destruct (Hkey _ _ Hk) as [Hfirst' Hlen'].
      specialize (Hr1 _ _ Hk). specialize (Hr2 _ _ Hk).
      destruct (decide (lo < k)) as [Hafter|Hnot]; [|lia].
      specialize (Hmin k ltac:(eauto) Hafter). lia.
  - exists None. split; [reflexivity|]. intros k ff' Hk.
    destruct (Hkey _ _ Hk) as [Hfirst' Hlen'].
    specialize (Hr1 _ _ Hk). specialize (H k ltac:(eauto)). lia.
Qed.

Lemma frozen_wf_insert (ffs : gmap Z FreezeFrame) (lo hi replacement : Z) :
  frozen_wf ffs -> lo <= hi ->
  (forall k ff, ffs !! k = Some ff -> ff_last ff < lo \/ hi < ff_first ff) ->
  frozen_wf (<[lo := mkFreezeFrame lo hi replacement]> ffs).
Proof.
  intros [Hkey Hdisj] Hlohi Hfree. split.
  - intros k ff. rewrite lookup_insert. case_decide as Hk.
    + intros [= <-]. cbn. lia.
    + apply Hkey.
  - intros k1 k2 ff1 ff2. rewrite !lookup_insert.
    destruct (decide (lo = k1)) as [<-|H1], (decide (lo = k2)) as [<-|H2].
    + intros _ _ Hne. contradiction.
    + intros [= <-] H _. cbn. destruct (Hfree _ _ H); lia.
    + intros H [= <-] _. cbn. destruct (Hfree _ _ H); lia.
    + apply Hdisj.
Qed.

(** X25.  [addFreezeFrame] on frozen ranges that are kept under their first
    frames and share no frame, with [lo] the lesser and [hi] the greater of
    the two ends: values outside the clip are refused with OutOfRange; a
    range that shares a frame with one that is there is refused and that
    one is reported; otherwise no range that is there shares a frame with
    the new one, which is kept under [lo].  The frozen ranges share no
    frame afterwards either, and a refused call changes nothing. *)
Theorem addFreezeFrame_spec (p : WobblyProject) (first last replacement : Z) :
  frozen_wf (frozen_frames p) ->
  let lo := Z.min first last in
  let hi := Z.max first last in
  let n := num_frames_source p in
  match addFreezeFrame first last replacement p with
  | Raise e q =>
      e = OutOfRange /\ q = p /\
      ~ (0 <= lo /\ hi < n /\ 0 <= replacement < n)
  | Ok (Some ff) q =>
      q = p /\ (0 <= lo /\ hi < n /\ 0 <= replacement < n) /\
      frozen_frames p !! ff_first ff = Some ff /\
      ff_first ff <= hi /\ lo <= ff_last ff
  | Ok None q =>
      (0 <= lo /\ hi < n /\ 0 <= replacement < n) /\
      (forall k ff, frozen_frames p !! k = Some ff ->
                    ff_last ff < lo \/ hi < ff_first ff) /\
      frozen_frames q = <[lo := mkFreezeFrame lo hi replacement]> (frozen_frames p) /\
      frozen_wf (frozen_frames q)
  | Undefined => False
  end.
Proof.
  intros Hwf lo hi n. unfold addFreezeFrame.
  assert (Hpair : (if decide (first > last) then (last, first) else (first, last))
                  = (lo, hi)).
  { unfold lo, hi. case_decide; f_equal; lia. }
  rewrite Hpair. clear Hpair.
  assert (Hlohi : lo <= hi) by (unfold lo, hi; lia).
  cbn [getNumFrames]. msimpl. fold n.
  case_bool_decide as Hout; msimpl.
  { split; [reflexivity|]. split; [reflexivity|]. lia. }
  destruct (find_overlap_run p lo hi Hwf Hlohi) as (r & Hrun & Hr).
  rewrite (bind_ok _ _ _ _ _ Hrun).
  destruct r as [ff|].
  { msimpl. split; [reflexivity|]. split; [lia|]. exact Hr. }
  msimpl.
  assert (Hnew : frozen_frames p !! lo = None).
  { destruct (frozen_frames p !! lo) as [ff|] eqn:Hlo; [|reflexivity].
    destruct Hwf as [Hkey _]. destruct (Hkey _ _ Hlo). destruct (Hr _ _ Hlo); lia. }
  unfold map_insert_new. rewrite Hnew.
  match goal with
  | |- context [bind (setModified true) _ ?s] =>
      destruct (setModified_frames true s) as (q & Hq & Hq')
  end.
  rewrite (bind_ok _ _ _ _ _ Hq). msimpl.
  split; [lia|]. split; [exact Hr|].
  rewrite Hq'. cbn [frozen_frames set_is_modified set_frozen_frames].
  split; [reflexivity|]. apply frozen_wf_insert; assumption.
Qed.

Lemma frozen_once_wf : frozen_wf (frozen_frames frozen_once).
Proof.
  assert (Heq : frozen_frames frozen_once = {[ 1 := mkFreezeFrame 1 2 0 ]})
    by (vm_compute; reflexivity).
  rewrite Heq. split.
  - intros k ff [<- <-]%lookup_singleton_Some. cbn. lia.
  - intros k1 k2 ff1 ff2 [<- <-]%lookup_singleton_Some
      [<- <-]%lookup_singleton_Some Hne. contradiction.
Qed.

Lemma findFreezeFrame_spec_witness :
  exists r, findFreezeFrame 2 frozen_once = Ok r frozen_once /\
    match r with
    | Some ff => frozen_frames frozen_once !! ff_first ff = Some ff
                 /\ ff_first ff <= 2 <= ff_last ff
    | None => forall k ff, frozen_frames frozen_once !! k = Some ff ->
                           ~ (ff_first ff <= 2 <= ff_last ff)
    end.
Proof. apply (findFreezeFrame_spec frozen_once 2 frozen_once_wf). Defined.

Lemma addFreezeFrame_spec_witness :
  match addFreezeFrame 4 2 0 frozen_once with
  | Raise e q =>
      e = OutOfRange /\ q = frozen_once /\ ~ (0 <= 2 /\ 4 < 5 /\ 0 <= 0 < 5)
  | Ok (Some ff) q =>
      q = frozen_once /\ (0 <= 2 /\ 4 < 5 /\ 0 <= 0 < 5) /\
      frozen_frames frozen_once !! ff_first ff = Some ff /\
      ff_first ff <= 4 /\ 2 <= ff_last ff
  | Ok None q =>
      (0 <= 2 /\ 4 < 5 /\ 0 <= 0 < 5) /\
      (forall k ff, frozen_frames frozen_once !! k = Some ff ->
                    ff_last ff < 2 \/ 4 < ff_first ff) /\
      frozen_frames q = <[2 := mkFreezeFrame 2 4 0]> (frozen_frames frozen_once) /\
      frozen_wf (frozen_frames q)
  | Undefined => False
  end.
Proof. apply (addFreezeFrame_spec frozen_once 4 2 0 frozen_once_wf). Defined.

(** ** Custom lists *)

Lemma addCustomList_cases (p : WobblyProject) (list : CustomList) :
  (exists e, addCustomList list p = Raise e p
             /\ (e = NameInUse -> cl_name list ∈ cl_name <$> custom_lists p))
  \/ (exists q, addCustomList list p = Ok tt q
                /\ custom_lists q = custom_lists p ++ [list]
                /\ (cl_name list ∉ cl_name <$> custom_lists p)
                /\ isNameSafeForPython (cl_name list) = true
                /\ 0 <= cl_position list < 3).
Proof.
  unfold addCustomList.
  case_bool_decide as Hpos; msimpl;
    [left; eexists; split; [reflexivity|discriminate]|].
  destruct (isNameSafeForPython (cl_name list)) eqn:Hsafe; cbn [negb]; msimpl;
    [|left; eexists; split; [reflexivity|discriminate]].
  case_bool_decide as Hpreset; msimpl;
    [left; eexists; split; [reflexivity|discriminate]|].
  case_bool_decide as Hname; msimpl;
    [left; eexists; split; [reflexivity|intros _; exact Hname]|].
  right. then_modified q Hq Hq'. exists q. split; [exact Hq|].
  rewrite Hq'. cbn [custom_lists set_is_modified set_custom_lists].
  split; [reflexivity|]. split; [exact Hname|]. split; [reflexivity|lia].
Qed.

Lemma deleteCustomList_names (p : WobblyProject) (list_index : Z) :
  list_names_distinct p ->
  exists q, project_after (deleteCustomList list_index p) = Some q
            /\ list_names_distinct q.
Proof.
  intros Hdistinct. unfold deleteCustomList. msimpl.
  case_bool_decide as Hout; msimpl;
    [exists p; split; [reflexivity|exact Hdistinct]|].
  then_modified q Hq Hq'. exists q. rewrite Hq. split; [reflexivity|].
  rewrite Hq'. unfold list_names_distinct.
  cbn [custom_lists set_is_modified set_custom_lists].
  rewrite list_fmap_delete.
  apply (sublist_NoDup _ _ Hdistinct (sublist_delete _ _)).
Qed.

(** X26.  [addCustomList] and [deleteCustomList] never leave two custom
    lists with the same name: in a project whose custom lists have names
    that differ, they still differ after either call, whether it returns
    or throws.  [addCustomList] refuses a list whose name is taken and
    changes nothing then; a list that it accepts is put after all the
    others, with a valid name and a position from 0 to 2, and
    [customListExists] then finds its name. *)
Theorem addCustomList_names_distinct (p : WobblyProject) (list : CustomList) :
  list_names_distinct p ->
  (exists q, project_after (addCustomList list p) = Some q
             /\ list_names_distinct q) /\
  (forall list_index,
     exists q, project_after (deleteCustomList list_index p) = Some q
               /\ list_names_distinct q) /\
  (cl_name list ∈ cl_name <$> custom_lists p ->
   exists e, addCustomList list p = Raise e p) /\
  (forall q, addCustomList list p = Ok tt q ->
     custom_lists q = custom_lists p ++ [list] /\
     isNameSafeForPython (cl_name list) = true /\
     0 <= cl_position list < 3 /\
     customListExists (cl_name list) q = Ok true q).
Proof.
  intros Hdistinct.
  pose proof (fun i => deleteCustomList_names p i Hdistinct) as Hdel.
  destruct (addCustomList_cases p list)
    as [(e & Hrun & He)|(q & Hrun & Hlists & Hfresh & Hsafe & Hpos)].
  - split; [|split; [exact Hdel|split]].
    + exists p. rewrite Hrun. split; [reflexivity|exact Hdistinct].
    + intros _. exists e. exact Hrun.
    + intros q Hok. rewrite Hrun in Hok. discriminate.
  - split; [|split; [exact Hdel|split]].
    + exists q. rewrite Hrun. split; [reflexivity|].
      unfold list_names_distinct. rewrite Hlists, fmap_app.
      apply NoDup_app. split; [exact Hdistinct|]. split.
      * intros name Hin Hnew. cbn in Hnew.
        apply list_elem_of_singleton in Hnew as ->. contradiction.
      * cbn. apply NoDup_singleton.
    + intros Htaken. contradiction.
    + intros q' Hok. rewrite Hrun in Hok. injection Hok as <-.
      split; [exact Hlists|]. split; [exact Hsafe|]. split; [exact Hpos|].
      unfold customListExists. msimpl. rewrite Hlists, fmap_app.
      rewrite bool_decide_eq_true_2 by set_solver. reflexivity.
Qed.

Lemma addCustomList_names_distinct_witness :
  (exists q, project_after (addCustomList_name "L" (new_project 5 10)) = Some q
             /\ list_names_distinct q) /\
  (forall q, addCustomList_name "L" (new_project 5 10) = Ok tt q ->
     custom_lists q
     = custom_lists (new_project 5 10) ++ [mkCustomList "L" EmptyString 0 ∅] /\
     customListExists "L" q = Ok true q).
Proof.
  destruct (addCustomList_names_distinct (new_project 5 10)
              (mkCustomList "L" EmptyString 0 ∅))
    as (Hkept & _ & _ & Hok).
  - vm_compute. constructor.
  - split; [exact Hkept|]. intros q Hq.
    destruct (Hok q Hq) as (Hlists & _ & _ & Hexists).
    split; [exact Hlists|exact Hexists].
Defined.

(** ** The frames of a section *)

(** The frames for which [findSection] returns a section are those from its
    start to before the end that [getSectionEnd] returns. *)
Lemma section_frames (p : WobblyProject) (s : Z) (sec : SectionRec) :
  sections_wf p -> sections p !! s = Some sec ->
  exists e,
    getSectionEnd s p = Ok e p /\ s < e <= num_frames_source p /\
    forall j, 0 <= j < num_frames_source p ->
              (findSection j p = Ok sec p <-> s <= j < e).
Proof.
  intros Hwf Hsec. pose proof Hwf as [H0 Hkeys].
  destruct (Hkeys _ _ Hsec) as [Hstart Hs].
  destruct (findSection_run p s Hwf Hs)
    as (sec' & e & _ & Hend & Hsec' & Hbr & Hen & Hnext & Hnone).
  assert (Hs' : sec_start sec' = s).
  { destruct (Hnone s ltac:(eauto)); lia. }
  exists e. split; [exact Hend|]. split; [lia|].
  intros j Hj.
  destruct (findSection_run p j Hwf Hj)
    as (secj & ej & Hfind & _ & Hsecj & Hbrj & Henj & Hnextj & Hnonej).
  rewrite Hfind. split.
  - intros [= ->]. rewrite Hstart in *. split; [lia|].
    destruct (decide (j < e)) as [|Hge]; [assumption|].
    destruct (Hnonej e ltac:(apply Hnext; lia)); lia.
  - intros Hin.
    assert (Hsj : sec_start secj = s).
    { destruct (Hnonej s ltac:(eauto)); [|lia].
      destruct (Hnone (sec_start secj) ltac:(eauto)); lia. }
    rewrite Hsj in Hsecj. rewrite Hsec in Hsecj. injection Hsecj as <-.
    reflexivity.
Qed.

(** X27.  [resetSectionMatches] on a section of a project whose sections are
    as expected resets exactly the frames of that section: every frame for
    which [findSection] returns the section gets its original match ([c]
    when the project has no original matches), and every other frame keeps
    what the match vector held, the vector being filled with [c] first when
    it was empty. *)
Theorem resetSectionMatches_spec (p : WobblyProject) (s : Z) (sec : SectionRec) :
  sections_wf p -> matches_sized p -> original_matches_sized p ->
  sections p !! s = Some sec ->
  exists q,
    resetSectionMatches s p = Ok tt q /\
    vsize (matches q) = num_frames_source p /\
    forall j, 0 <= j < num_frames_source p ->
      (findSection j p = Ok sec p ->
       vec_at (matches q) j = original_match_at p j) /\
      (findSection j p <> Ok sec p ->
       vec_at (matches q) j = vec_at (allocated_matches p) j).
Proof.
  intros Hwf Hm Ho Hsec. pose proof Hwf as [H0 Hkeys].
  destruct (Hkeys _ _ Hsec) as [Hstart Hs].
  destruct (section_frames p s sec Hwf Hsec) as (e & Hend & He & Hframes).
  destruct (resetRangeMatches_run p s (e - 1) Hm Ho ltac:(lia) ltac:(lia))
    as (q1 & Hrun & _ & Hsize & Hat).
  unfold resetSectionMatches.
  rewrite (bind_ok _ _ _ _ _ (check_frame_ok _ p Hs)). msimpl.
  rewrite bool_decide_eq_false_2 by congruence. msimpl.
  rewrite (bind_ok _ _ _ _ _ Hend).
  rewrite (bind_ok _ _ _ _ _ Hrun).
  destruct (setModified_frames true q1) as (q & Hq & Hq').
  exists q. split; [exact Hq|]. rewrite Hq'. cbn [matches set_is_modified].
  split; [exact Hsize|]. intros j Hj. rewrite (Hat j Hj).
  specialize (Hframes j Hj). split.
  - intros Hfind. rewrite decide_True by (apply Hframes in Hfind; lia).
    reflexivity.
  - intros Hother. rewrite decide_False; [reflexivity|].
    intros Hin. apply Hother, Hframes. lia.
Qed.

Lemma two_sections_wf : sections_wf two_sections.
Proof.
  assert (Heq : sections two_sections
                = <[5 := mkSection 5 []]> {[ 0 := mkSection 0 [] ]})
    by (vm_compute; reflexivity).
  split.
  - rewrite Heq. exists (mkSection 0 []). reflexivity.
  - intros k sec. rewrite Heq, lookup_insert. case_decide as Hk.
    + intros [= <-]. subst k. split; [reflexivity|]. vm_compute.
      split; [discriminate|reflexivity].
    + intros [<- <-]%lookup_singleton_Some. split; [reflexivity|]. vm_compute.
      split; [discriminate|reflexivity].
Qed.

Lemma resetSectionMatches_spec_witness :
  exists q,
    resetSectionMatches 5 two_sections = Ok tt q /\
    vsize (matches q) = num_frames_source two_sections /\
    forall j, 0 <= j < num_frames_source two_sections ->
      (findSection j two_sections = Ok (mkSection 5 []) two_sections ->
       vec_at (matches q) j = original_match_at two_sections j) /\
      (findSection j two_sections <> Ok (mkSection 5 []) two_sections ->
       vec_at (matches q) j = vec_at (allocated_matches two_sections) j).
Proof.
  apply (resetSectionMatches_spec two_sections 5 (mkSection 5 [])).
  - apply two_sections_wf.
  - left. reflexivity.
  - left. reflexivity.
  - vm_compute. reflexivity.
Defined.

(** X28.  [setSectionDecimationFromPattern] on a section of a well-formed
    project, with a pattern of at least four characters, touches the frames
    of that section only: every frame for which [findSection] returns
    another section is dropped or kept as it was, a frame of the section
    is dropped afterwards only if the character of the pattern at
    [frame % 5] is [d], and the decimation state stays well formed with no
    cycle fully dropped. *)
Theorem setSectionDecimationFromPattern_spec (p : WobblyProject) (s : Z)
    (sec : SectionRec) (pattern : string) :
  sections_wf p -> decimation_wf p -> cycles_not_full p ->
  (4 <= String.length pattern)%nat ->
  sections p !! s = Some sec ->
  exists q,
    setSectionDecimationFromPattern s pattern p = Ok tt q /\
    decimation_wf q /\ cycles_not_full q /\
    forall j, 0 <= j < num_frames_source p ->
      (findSection j p = Ok sec p ->
       is_dropped (decimated_frames q) j = true ->
       string_at pattern (j `rem` 5) = Some "d"%char) /\
      (findSection j p <> Ok sec p ->
       is_dropped (decimated_frames q) j = is_dropped (decimated_frames p) j).
Proof.
  intros Hwf Hdwf Hnf Hlen Hsec. pose proof Hwf as [H0 Hkeys].
  destruct (Hkeys _ _ Hsec) as [Hstart Hs].
  destruct (section_frames p s sec Hwf Hsec) as (e & Hend & He & Hframes).
  destruct (setRangeDecimationFromPattern_run p s (e - 1) pattern Hdwf Hnf Hlen
              ltac:(lia) ltac:(lia))
    as (q1 & Hrun & Hdwf1 & Hnf1 & Hin & Hout).
  unfold setSectionDecimationFromPattern.
  rewrite (bind_ok _ _ _ _ _ (check_frame_ok _ p Hs)). msimpl.
  rewrite bool_decide_eq_false_2 by congruence. msimpl.
  rewrite (bind_ok _ _ _ _ _ Hend).
  rewrite (bind_ok _ _ _ _ _ Hrun).
  destruct (setModified_frames true q1) as (q & Hq & Hq').
  exists q. split; [exact Hq|]. rewrite Hq'.
  split; [exact Hdwf1|]. split; [exact Hnf1|].
  cbn [decimated_frames set_is_modified].
  intros j Hj. specialize (Hframes j Hj). split.
  - intros Hfind. apply Hin. apply Hframes in Hfind. lia.
  - intros Hother. apply Hout. intros Hrange. apply Hother, Hframes. lia.
Qed.

Lemma two_sections_decimation_wf : decimation_wf two_sections.
Proof.
  change (decimation_wf (set_is_modified true
            (set_sections (sections two_sections) (new_project 10 5)))).
  apply new_project_wf.
Qed.

Lemma two_sections_cycles_not_full : cycles_not_full two_sections.
Proof.
  change (cycles_not_full (set_is_modified true
            (set_sections (sections two_sections) (new_project 10 5)))).
  apply (new_project_cycles_not_full 10 5).
Qed.

Lemma setSectionDecimationFromPattern_spec_witness :
  exists q,
    setSectionDecimationFromPattern 5 "kkkdk" two_sections = Ok tt q /\
    decimation_wf q /\ cycles_not_full q /\
    forall j, 0 <= j < num_frames_source two_sections ->
      (findSection j two_sections = Ok (mkSection 5 []) two_sections ->
       is_dropped (decimated_frames q) j = true ->
       string_at "kkkdk" (j `rem` 5) = Some "d"%char) /\
      (findSection j two_sections <> Ok (mkSection 5 []) two_sections ->
       is_dropped (decimated_frames q) j
       = is_dropped (decimated_frames two_sections) j).
Proof.
  apply (setSectionDecimationFromPattern_spec two_sections 5 (mkSection 5 [])
           "kkkdk").
  - apply two_sections_wf.
  - apply two_sections_decimation_wf.
  - apply two_sections_cycles_not_full.
  - simpl. lia.
  - vm_compute. reflexivity.
Defined.

(** ** Deleting a frozen range *)





(** ** Marking a frame as combed *)

(** X30.  For a frame of the clip that is not combed: after
    [addCombedFrame] the frame is combed and is what [findNextCombedFrame]
    returns for the frame before it; after [deleteCombedFrame] it is not
    combed any more, and the combed frames are what they were before the
    two calls. *)
Theorem combed_frame_round_trip (p : WobblyProject) (frame : Z) :
  0 <= frame < num_frames_source p -> frame ∉ combed_frames p ->
  exists q1 q2,
    addCombedFrame frame p = Ok tt q1 /\
    isCombedFrame frame q1 = Ok true q1 /\
    findNextCombedFrame (frame - 1) q1 = Ok frame q1 /\
    deleteCombedFrame frame q1 = Ok tt q2 /\
    isCombedFrame frame q2 = Ok false q2 /\
    combed_frames q2 = combed_frames p.
Proof.
  intros Hin Hfresh.
  assert (Hadd : exists q1, addCombedFrame frame p = Ok tt q1 /\
            q1 = set_is_modified (is_modified q1)
                   (set_combed_frames ({[ frame ]} ∪ combed_frames p) p)).
  { unfold addCombedFrame.
    rewrite (bind_ok _ _ _ _ _ (check_frame_ok _ p Hin)). msimpl.
    apply setModified_frames. }
  destruct Hadd as (q1 & Hq1 & Hq1').
  assert (Hn1 : num_frames_source q1 = num_frames_source p)
    by (rewrite Hq1'; reflexivity).
  assert (Hc1 : combed_frames q1 = {[ frame ]} ∪ combed_frames p)
    by (rewrite Hq1'; reflexivity).
  assert (Hin1 : 0 <= frame < num_frames_source q1) by lia.
  assert (Hdel : exists q2, deleteCombedFrame frame q1 = Ok tt q2 /\
            q2 = set_is_modified (is_modified q2)
                   (set_combed_frames (combed_frames q1 ∖ {[ frame ]}) q1)).
  { unfold deleteCombedFrame.
    rewrite (bind_ok _ _ _ _ _ (check_frame_ok _ q1 Hin1)). msimpl.
    apply setModified_frames. }
  destruct Hdel as (q2 & Hq2 & Hq2').
  assert (Hn2 : num_frames_source q2 = num_frames_source p)
    by (rewrite Hq2'; exact Hn1).
  assert (Hc2 : combed_frames q2 = combed_frames q1 ∖ {[ frame ]})
    by (rewrite Hq2'; reflexivity).
  assert (Hin2 : 0 <= frame < num_frames_source q2) by lia.
  exists q1, q2. split; [exact Hq1|].
  unfold isCombedFrame.
  rewrite (bind_ok _ _ _ _ _ (check_frame_ok _ q1 Hin1)).
  rewrite (bind_ok _ _ _ _ _ (check_frame_ok _ q2 Hin2)). msimpl.
  split; [rewrite bool_decide_eq_true_2 by (rewrite Hc1; set_solver);
          reflexivity|].
  split.
  { unfold findNextCombedFrame. msimpl.
    pose proof (set_upper_bound_spec (combed_frames q1) (frame - 1)) as H.
    assert (Hmem : frame ∈ combed_frames q1) by (rewrite Hc1; set_solver).
    destruct (set_upper_bound (combed_frames q1) (frame - 1)) as [i|].
    - destruct H as (_ & Hlt & Hmin). specialize (Hmin frame Hmem ltac:(lia)).
      replace i with frame by lia. reflexivity.
    - specialize (H frame Hmem). lia. }
  split; [exact Hq2|].
  split; [rewrite bool_decide_eq_false_2 by (rewrite Hc2; set_solver);
          reflexivity|].
  rewrite Hc2, Hc1. set_solver.
Qed.

Lemma combed_frame_round_trip_witness :
  exists q1 q2,
    addCombedFrame 3 (new_project 10 5) = Ok tt q1 /\
    isCombedFrame 3 q1 = Ok true q1 /\
    findNextCombedFrame (3 - 1) q1 = Ok 3 q1 /\
    deleteCombedFrame 3 q1 = Ok tt q2 /\
    isCombedFrame 3 q2 = Ok false q2 /\
    combed_frames q2 = combed_frames (new_project 10 5).
Proof.
  apply (combed_frame_round_trip (new_project 10 5) 3).
  - vm_compute. split; [discriminate|reflexivity].
  - change (combed_frames (new_project 10 5)) with (∅ : gset Z). set_solver.
Defined.
